(** * annmas [segment]: a shallow embedding of src/annmas/segment/command.py

    The Python functions of the segmentation command are rendered as Rocq
    functions.  Python integers are [Z], Python lists and tuples are [list],
    Python strings are [string], exceptions are an explicit result type, and the
    records written to the output BAM file are collected in order. *)

From Stdlib Require Import ZArith Lia Ascii String.
From stdpp Require Import base tactics option list strings pretty sorting relations.

Local Open Scope Z_scope.

(** ** Python values and exceptions *)

(** The exceptions that the modelled code can raise. [TagFormatError] stands for
    whatever [SegmentInfo.from_tag] raises on a token it cannot read. TypeError
    is what [len(None)] and [None[a:b]] raise, and ValueError is what the setters
    of a pysam record raise on a value they refuse. *)
Inductive PyError : Set :=
  | IndexError
  | KeyError
  | AttributeError
  | TagFormatError
  | TypeError
  | ValueError.

Inductive PyResult (A : Type) : Type :=
  | Ok (a : A)
  | Raise (e : PyError).
Arguments Ok {A} a.
Arguments Raise {A} e.

Definition py_bind {A B} (m : PyResult A) (k : A → PyResult B) : PyResult B :=
  match m with
  | Ok a => k a
  | Raise e => Raise e
  end.

Notation "'do' x <- m ; k" := (py_bind m (fun x => k))
  (at level 10, x pattern, m at level 100, k at level 200).

(** [len(l)] *)
Definition py_len {A} (l : list A) : Z := Z.of_nat (length l).

(** [l[i]] for an integer [i]: a negative index counts from the end, and an index
    outside the list raises IndexError. *)
Definition py_getitem {A} (l : list A) (i : Z) : PyResult A :=
  let j := if i <? 0 then i + py_len l else i in
  if (j <? 0) || (py_len l <=? j) then Raise IndexError
  else match l !! Z.to_nat j with
       | Some x => Ok x
       | None => Raise IndexError
       end.

(** How a slice bound is adjusted to the length of the sequence. *)
Definition py_clamp (n i : Z) : Z :=
  let j := if i <? 0 then i + n else i in
  Z.max 0 (Z.min n j).

(** [l[a:b]]; a missing bound is [None]. Slicing never raises. *)
Definition py_slice {A} (l : list A) (a b : option Z) : list A :=
  let n := py_len l in
  let lo := match a with Some a => py_clamp n a | None => 0 end in
  let hi := match b with Some b => py_clamp n b | None => n end in
  take (Z.to_nat (hi - lo)) (drop (Z.to_nat lo) l).

(** [range(a, b)] *)
Definition py_range (a b : Z) : list Z :=
  (λ k : nat, a + Z.of_nat k) <$> seq 0 (Z.to_nat (b - a)).

(** [sep.join(l)] *)
Fixpoint py_join (sep : string) (l : list string) : string :=
  match l with
  | [] => ""
  | [x] => x
  | x :: rest => x +:+ sep +:+ py_join sep rest
  end.

(** [s.split(sep)] for a separator of one character. *)
Fixpoint py_split (sep : ascii) (s : string) : list string :=
  match s with
  | EmptyString => [""]
  | String c s' =>
      if Ascii.eqb c sep then "" :: py_split sep s'
      else match py_split sep s' with
           | [] => [String c ""]
           | h :: t => String c h :: t
           end
  end.

(** A list comprehension [[f(x) for x in l]] whose body may raise. *)
Fixpoint py_map_m {A B} (f : A → PyResult B) (l : list A) : PyResult (list B) :=
  match l with
  | [] => Ok []
  | x :: rest =>
      do y <- f x;
      do ys <- py_map_m f rest;
      Ok (y :: ys)
  end.

(** [list.sort(key=...)] is stable: elements with equal keys keep their order. *)
Fixpoint py_sort_insert {A} (key : A → Z) (x : A) (l : list A) : list A :=
  match l with
  | [] => [x]
  | y :: rest =>
      if key x <=? key y then x :: y :: rest
      else y :: py_sort_insert key x rest
  end.

Definition py_sort {A} (key : A → Z) (l : list A) : list A :=
  foldr (py_sort_insert key) [] l.

(** [sum(flags)] for a list of booleans. *)
Definition py_sum_bool (l : list bool) : Z :=
  foldr (λ (b : bool) acc, (if b then 1 else 0) + acc) 0 l.

(** ** Data model *)

(** [SegmentInfo]: a labelled, inclusive, 0-based range of a read. *)
Record SegmentInfo : Set := {
  name : string;
  start : Z;
  end_ : Z;
}.

(** The attributes of [pysam.AlignedSegment] that the command reads or sets.
    [query_sequence] holds the bases of the record; the attribute that pysam hands
    out is None for a record without bases ([get_query_sequence]). The two quality
    attributes are as pysam hands them out: None for a record without qualities,
    and [query_alignment_qualities] leaves out the qualities of the soft-clipped
    bases, so that on a soft-clipped read it is shorter than the sequence. *)
Record AlignedSegment : Set := {
  query_name : string;
  query_sequence : list ascii;
  query_qualities : option (list Z);
  query_alignment_qualities : option (list Z);
  tags : list (string * string);
  flag : Z;
  mapping_quality : Z;
}.

(** [read.query_sequence]: None for a read without bases. *)
Definition get_query_sequence (read : AlignedSegment) : option (list ascii) :=
  match query_sequence read with
  | [] => None
  | bases => Some bases
  end.

(** [len(x)] and [x[a:b]] where [x] may be None. *)
Definition py_not_none {A} (x : option A) : PyResult A :=
  match x with
  | Some a => Ok a
  | None => Raise TypeError
  end.

(** [a.query_name = name]: pysam refuses a name of more than 254 characters. *)
Definition set_query_name (name : string) : PyResult string :=
  if 254 <? Z.of_nat (String.length name) then Raise ValueError else Ok name.

(** [a.query_qualities = qual] on a record of [n] bases: an empty array leaves
    the record without qualities, and pysam refuses any other array whose length
    is not [n]. *)
Definition set_query_qualities (n : Z) (qual : list Z) : PyResult (option (list Z)) :=
  match qual with
  | [] => Ok None
  | _ => if py_len qual =? n then Ok (Some qual) else Raise ValueError
  end.

(** [read.get_tag(k)]: the first value stored under [k], KeyError if there is none. *)
Fixpoint tags_lookup (k : string) (ts : list (string * string)) : option string :=
  match ts with
  | [] => None
  | (k', v) :: rest => if String.eqb k' k then Some v else tags_lookup k rest
  end.

Definition get_tag (read : AlignedSegment) (k : string) : PyResult string :=
  match tags_lookup k (tags read) with
  | Some v => Ok v
  | None => Raise KeyError
  end.

(** [a.set_tag(k, v)] on a tag list: an entry under [k] is replaced. *)
Definition set_tag (k v : string) (ts : list (string * string)) : list (string * string) :=
  filter (λ kv, negb (String.eqb kv.1 k) = true) ts ++ [(k, v)].

(** The arguments of one call of [_write_split_array_element], besides the output
    file and the read. *)
Record ElementCall : Set := {
  start_coord : Z;
  end_coord : Z;
  seg_start_coord : Z;
  seg_end_coord : Z;
  call_segments : list SegmentInfo;
  delim_name : string;
  prev_delim_name : string;
}.

(** [enumerate(l, start=k)] *)
Fixpoint py_enumerate {A} (k : Z) (l : list A) : list (Z * A) :=
  match l with
  | [] => []
  | x :: rest => (k, x) :: py_enumerate (k + 1) rest
  end.

(** State of the simple-mode scan: three lists indexed by delimiter window. *)
Record SimpleState : Set := {
  s_match_matrix : list Z;
  s_start_segments : list (option SegmentInfo);
  s_end_segment_tuples : list (option (option SegmentInfo * SegmentInfo));
}.

(** State of the bounded-mode scan: four lists indexed by element template. *)
Record BoundedState : Set := {
  b_match_matrix : list Z;
  b_segments : list (list SegmentInfo);
  b_found : list bool;
  b_score : list Z;
}.

(** Entry [i] of the three, respectively four, lists. *)
Definition SimpleWindow : Set :=
  (Z * option SegmentInfo * option (option SegmentInfo * SegmentInfo))%type.
Definition BoundedEntry : Set := (Z * list SegmentInfo * bool * Z)%type.

Definition simple_window (st : SimpleState) (i : nat) : option SimpleWindow :=
  match s_match_matrix st !! i, s_start_segments st !! i, s_end_segment_tuples st !! i with
  | Some m, Some s, Some e => Some (m, s, e)
  | _, _, _ => None
  end.

Definition bounded_entry (st : BoundedState) (i : nat) : option BoundedEntry :=
  match b_match_matrix st !! i, b_segments st !! i, b_found st !! i, b_score st !! i with
  | Some m, Some l, Some f, Some sc => Some (m, l, f, sc)
  | _, _, _, _ => None
  end.

Section Segment.

(** The pieces of the package that the command imports: the structural template
    [array_element_structure] of utils/model.py, and [SEGMENTS_TAG],
    [SegmentInfo.to_tag] and [SegmentInfo.from_tag] of annotate/command.py.
    [read.to_string()] is pysam's. *)
Variable array_element_structure : list (list string).
Variable SEGMENTS_TAG : string.
Variable to_tag : SegmentInfo → string.
Variable from_tag : string → option SegmentInfo.
Variable to_string : AlignedSegment → string.

(** ** [_get_segments] *)

Definition _get_segments (read : AlignedSegment) : PyResult (string * list SegmentInfo) :=
  let s := to_string read in
  do tag <- get_tag read SEGMENTS_TAG;
  do segs <- py_map_m
               (λ tok, match from_tag tok with
                       | Some seg => Ok seg
                       | None => Raise TagFormatError
                       end)
               (py_split "|" tag);
  Ok (s, segs).

(** ** [_write_split_array_element] *)

(** The name, the bases and the qualities that lines 436-441 assign. *)
Definition element_name (c : ElementCall) (read : AlignedSegment) : string :=
  query_name read +:+ "_" +:+ pretty (start_coord c) +:+ "-" +:+ pretty (end_coord c)
    +:+ "_" +:+ prev_delim_name c +:+ "-" +:+ delim_name c.

Definition element_bases (c : ElementCall) (read : AlignedSegment) : list ascii :=
  py_slice (query_sequence read) (Some (start_coord c)) (Some (end_coord c + 1)).

Definition element_qualities (c : ElementCall) (read : AlignedSegment) : list Z :=
  match query_alignment_qualities read with
  | Some quals => py_slice quals (Some (start_coord c)) (Some (end_coord c + 1))
  | None => []
  end.

(** The assignments of lines 436-441 that can raise, in the order of the code:
    the name is refused when it is too long, a read without bases has None for
    its sequence and a read without qualities has None for its qualities, which
    cannot be sliced, and the qualities are refused when they are not as many as
    the bases. *)
Definition split_array_element_raises (c : ElementCall) (read : AlignedSegment)
    : PyResult unit :=
  do _ <- set_query_name (element_name c read);
  do _ <- py_not_none (get_query_sequence read);
  do _ <- py_not_none (query_alignment_qualities read);
  do _ <- set_query_qualities (py_len (element_bases c read)) (element_qualities c read);
  Ok ().

(** The record [a] that the function builds when no assignment raises. A fresh
    record has no alignment, so that its alignment qualities are its qualities,
    and an empty quality array leaves it without qualities. *)
Definition split_array_element (c : ElementCall) (read : AlignedSegment) : AlignedSegment :=
  let quals :=
    match element_qualities c read with
    | [] => None
    | quals => Some quals
    end in
  {| query_name := element_name c read;
     query_sequence := element_bases c read;
     query_qualities := quals;
     query_alignment_qualities := quals;
     tags :=
       set_tag SEGMENTS_TAG
         (py_join ","
            (to_tag <$>
               filter (λ s, seg_start_coord c ≤ start s ∧ start s ≤ seg_end_coord c)
                      (call_segments c)))
         (tags read);
     flag := 4;
     mapping_quality := 255 |}.

(** [bam_out] is the list of records written so far. An exception is raised
    before the record is written. *)
Definition _write_split_array_element
    (bam_out : list AlignedSegment) (c : ElementCall) (read : AlignedSegment)
    : PyResult (list AlignedSegment) :=
  do _ <- split_array_element_raises c read;
  Ok (bam_out ++ [split_array_element c read]).

(** The output file after a sequence of calls on the same read: the calls are
    made in order until one raises, and its exception ends the sequence. *)
Fixpoint write_calls
    (bam_out : list AlignedSegment) (read : AlignedSegment) (calls : list ElementCall)
    : list AlignedSegment * PyResult unit :=
  match calls with
  | [] => (bam_out, Ok ())
  | c :: rest =>
      match _write_split_array_element bam_out c read with
      | Raise e => (bam_out, Raise e)
      | Ok bam_out => write_calls bam_out read rest
      end
  end.

(** ** [_write_segmented_read], simple splitting *)

Definition num_required_delimiters : Z := 2.

(** Lines 223-231: the delimiter windows. *)
Definition simple_delimiters : PyResult (list (list string)) :=
  do first <- py_getitem array_element_structure 0;
  foldl
    (λ acc '(i, structure),
       do delimiters <- acc;
       if i =? 1 then
         do d0 <- py_getitem delimiters 0;
         Ok (<[0%nat := d0 ++ py_slice structure (Some 0) (Some num_required_delimiters)]>
               delimiters)
       else
         Ok (delimiters ++ [py_slice structure (Some 0) (Some num_required_delimiters)]))
    (Ok [py_slice first (Some (- num_required_delimiters)) None])
    (py_enumerate 1 (py_slice array_element_structure (Some 1) None)).

(** Lines 248-269 on the entries of window [i], whose labels are [d]. *)
Definition simple_window_step (d : list string) (seg : SegmentInfo) (w : SimpleWindow)
    : SimpleWindow :=
  let '(dmi, st, en) := w in
  match py_getitem d dmi with
  | Raise _ => w
  | Ok label =>
      if String.eqb (name seg) label then
        let st' := if dmi =? 0 then Some seg else st in
        let m' := dmi + 1 in
        let en' := if m' =? py_len d then Some (st', seg) else en in
        (m', st', en')
      else (0, None, None)
  end.

(** One iteration of the loop over [enumerate(delimiter_match_matrix)]: the
    three lists all have the length of [delimiters], so [i] is in range. *)
Definition simple_body (delimiters : list (list string)) (seg : SegmentInfo)
    (st : SimpleState) (i : nat) : SimpleState :=
  match delimiters !! i, simple_window st i with
  | Some d, Some w =>
      let '(m, s, e) := simple_window_step d seg w in
      {| s_match_matrix := <[i := m]> (s_match_matrix st);
         s_start_segments := <[i := s]> (s_start_segments st);
         s_end_segment_tuples := <[i := e]> (s_end_segment_tuples st) |}
  | _, _ => st
  end.

Definition simple_init (delimiters : list (list string)) : SimpleState :=
  {| s_match_matrix := (λ _, 0) <$> delimiters;
     s_start_segments := (λ _, None) <$> delimiters;
     s_end_segment_tuples := (λ _, None) <$> delimiters |}.

(** Lines 245-269. *)
Definition simple_scan (delimiters : list (list string)) (segments : list SegmentInfo)
    (st : SimpleState) : SimpleState :=
  foldl
    (λ st seg, foldl (simple_body delimiters seg) st (seq 0 (length (s_match_matrix st))))
    st segments.

(** Lines 275-281: the windows whose end tuple is filled in. *)
Definition simple_seg_delimiters (st : SimpleState)
    : list (Z * option SegmentInfo * (option SegmentInfo * SegmentInfo)) :=
  omap (λ '(i, (s, e)), match e with
                        | Some t => Some (i, s, t)
                        | None => None
                        end)
       (py_enumerate 0 (zip (s_start_segments st) (s_end_segment_tuples st))).

(** Line 282: the sort key reads [.start] of the start segment. *)
Definition simple_sorted (st : SimpleState)
    : PyResult (list (Z * SegmentInfo * (option SegmentInfo * SegmentInfo))) :=
  do keyed <- py_map_m (λ '(i, s, t), match s with
                                      | Some seg => Ok (i, seg, t)
                                      | None => Raise AttributeError
                                      end)
                       (simple_seg_delimiters st);
  Ok (py_sort (λ '(_, seg, _), start seg) keyed).

(** Lines 287-310. Returns the calls made, and [cur_read_base_index] and
    [prev_delim_name] after the loop unless an exception ends it. *)
Fixpoint simple_emit (keep_delimiters : bool) (delimiters : list (list string))
    (segments : list SegmentInfo)
    (sd : list (Z * SegmentInfo * (option SegmentInfo * SegmentInfo)))
    (cur_read_base_index : Z) (prev : string)
    : list ElementCall * PyResult (Z * string) :=
  match sd with
  | [] => ([], Ok (cur_read_base_index, prev))
  | (di, start_seg, end_seg_tuple) :: rest =>
      match py_getitem delimiters di with
      | Raise e => ([], Raise e)
      | Ok d =>
          let c :=
            {| start_coord := cur_read_base_index;
               end_coord := if keep_delimiters then end_ end_seg_tuple.2
                            else start start_seg - 1;
               seg_start_coord := cur_read_base_index;
               seg_end_coord := end_ end_seg_tuple.2;
               call_segments := segments;
               delim_name := py_join "/" d;
               prev_delim_name := prev |} in
          let next :=
            if keep_delimiters then
              match end_seg_tuple.1 with
              | Some s => Ok (start s)
              | None => Raise AttributeError
              end
            else Ok (end_ end_seg_tuple.2 + 1) in
          match next with
          | Raise e => ([c], Raise e)
          | Ok cur' =>
              let '(cs, r) := simple_emit keep_delimiters delimiters segments rest
                                          cur' (py_join "/" d) in
              (c :: cs, r)
          end
      end
  end.

(** The simple-splitting branch: the calls of [_write_split_array_element] in
    order, and the value returned or the exception raised. *)
Definition write_segmented_read_simple (read : AlignedSegment)
    (segments : list SegmentInfo) (keep_delimiters : bool)
    : list ElementCall * PyResult Z :=
  match simple_delimiters with
  | Raise e => ([], Raise e)
  | Ok delimiters =>
      let st := simple_scan delimiters segments (simple_init delimiters) in
      match simple_sorted st with
      | Raise e => ([], Raise e)
      | Ok seg_delimiters =>
          match simple_emit keep_delimiters delimiters segments seg_delimiters 0 "START" with
          | (cs, Raise e) => (cs, Raise e)
          | (cs, Ok (cur, prev)) =>
              (* line 315: [len(read.query_sequence)] *)
              match get_query_sequence read with
              | None => (cs, Raise TypeError)
              | Some bases =>
                  let last :=
                    {| start_coord := cur;
                       end_coord := py_len bases - 1;
                       seg_start_coord := cur;
                       seg_end_coord := py_len bases - 1;
                       call_segments := segments;
                       delim_name := "END";
                       prev_delim_name := prev |} in
                  (cs ++ [last], Ok (py_len seg_delimiters))
              end
          end
      end
  end.

(** ** [_write_segmented_read], bounded-region splitting *)

Definition match_val : Z := 2.
Definition indel_val : Z := 1.

(** Lines 364-372: the first [peek_ahead] of the range at which the label of the
    segment is found, if any. *)
Fixpoint peek_ahead_search (d : list string) (seg : SegmentInfo) (dmi : Z)
    (peeks : list Z) : PyResult (option Z) :=
  match peeks with
  | [] => Ok None
  | peek_ahead :: rest =>
      do label <- py_getitem d (dmi + peek_ahead);
      if String.eqb (name seg) label then Ok (Some peek_ahead)
      else peek_ahead_search d seg dmi rest
  end.

(** Lines 351-388 on the entries of template [i], whose labels are [d]. An
    IndexError is raised only by the two subscriptions of [d], before any entry
    is assigned. *)
Definition bounded_entry_step (d : list string) (seg : SegmentInfo) (w : BoundedEntry)
    : BoundedEntry :=
  let '(dmi, segs, found, score) := w in
  if found then w
  else
    let mark (m : Z) (l : list SegmentInfo) (sc : Z) : BoundedEntry :=
      (m, l, if m =? py_len d then true else found, sc) in
    match py_getitem d dmi with
    | Raise _ => (dmi, segs, true, score)
    | Ok label =>
        if String.eqb (name seg) label then
          mark (dmi + 1) (segs ++ [seg]) (score + match_val)
        else if negb (dmi =? 0) then
          match peek_ahead_search d seg dmi (py_range 1 (py_len d - dmi)) with
          | Raise _ => (dmi, segs, true, score)
          | Ok (Some peek_ahead) =>
              mark (dmi + (1 + peek_ahead)) (segs ++ [seg]) (score + indel_val)
          | Ok None => mark 0 [] 0
          end
        else mark 0 [] 0
    end.

(** One iteration of the loop over [enumerate(delimiter_match_matrix)]. *)
Definition bounded_body (delimiters : list (list string)) (seg : SegmentInfo)
    (st : BoundedState) (i : nat) : BoundedState :=
  match delimiters !! i, bounded_entry st i with
  | Some d, Some w =>
      let '(m, l, f, sc) := bounded_entry_step d seg w in
      {| b_match_matrix := <[i := m]> (b_match_matrix st);
         b_segments := <[i := l]> (b_segments st);
         b_found := <[i := f]> (b_found st);
         b_score := <[i := sc]> (b_score st) |}
  | _, _ => st
  end.

Definition bounded_init (delimiters : list (list string)) : BoundedState :=
  {| b_match_matrix := (λ _, 0) <$> delimiters;
     b_segments := (λ _, []) <$> delimiters;
     b_found := (λ _, false) <$> delimiters;
     b_score := (λ _, 0) <$> delimiters |}.

(** Lines 348-388. *)
Definition bounded_scan (delimiters : list (list string)) (segments : list SegmentInfo)
    (st : BoundedState) : BoundedState :=
  foldl
    (λ st seg, foldl (bounded_body delimiters seg) st (seq 0 (length (b_match_matrix st))))
    st segments.

(** Lines 395-419 for one completed template. *)
Definition bounded_element (keep_delimiters : bool) (seg_list : list SegmentInfo)
    : PyResult ElementCall :=
  do start_seg <- py_getitem seg_list 0;
  do end_seg <- py_getitem seg_list (-1);
  do sc <- (if keep_delimiters then Ok (start start_seg)
            else do s <- py_getitem seg_list 1; Ok (start s));
  do ec <- (if keep_delimiters then Ok (end_ end_seg)
            else do s <- py_getitem seg_list (-2); Ok (end_ s));
  Ok {| start_coord := sc;
        end_coord := ec;
        seg_start_coord := start start_seg;
        seg_end_coord := end_ end_seg;
        call_segments := seg_list;
        delim_name := name end_seg;
        prev_delim_name := name start_seg |}.

(** Lines 392-419 over [enumerate(delimiter_segments)] zipped with the flags. *)
Fixpoint bounded_emit (keep_delimiters : bool) (entries : list (list SegmentInfo * bool))
    : list ElementCall * PyResult unit :=
  match entries with
  | [] => ([], Ok ())
  | (seg_list, found) :: rest =>
      if found then
        match bounded_element keep_delimiters seg_list with
        | Raise e => ([], Raise e)
        | Ok c =>
            let '(cs, r) := bounded_emit keep_delimiters rest in
            (c :: cs, r)
        end
      else bounded_emit keep_delimiters rest
  end.

(** The bounded-region branch. *)
Definition write_segmented_read_bounded (segments : list SegmentInfo)
    (keep_delimiters : bool) : list ElementCall * PyResult Z :=
  let delimiters := array_element_structure in
  let st := bounded_scan delimiters segments (bounded_init delimiters) in
  match bounded_emit keep_delimiters (zip (b_segments st) (b_found st)) with
  | (cs, Raise e) => (cs, Raise e)
  | (cs, Ok _) => (cs, Ok (py_sum_bool (b_found st)))
  end.

(** [_write_segmented_read]: the calls of [_write_split_array_element] it makes on
    [bam_out], in order, and the value returned or the exception raised, when no
    call raises. *)
Definition _write_segmented_read (read : AlignedSegment) (segments : list SegmentInfo)
    (do_simple_splitting keep_delimiters : bool) : list ElementCall * PyResult Z :=
  if do_simple_splitting then write_segmented_read_simple read segments keep_delimiters
  else write_segmented_read_bounded segments keep_delimiters.

(** [_write_segmented_read] on the output file [bam_out]: the file afterwards,
    and the value returned or the exception raised. The exception of a call ends
    the function at that call. *)
Definition write_segmented_read_file (read : AlignedSegment) (segments : list SegmentInfo)
    (do_simple_splitting keep_delimiters : bool) (bam_out : list AlignedSegment)
    : list AlignedSegment * PyResult Z :=
  let '(calls, r) := _write_segmented_read read segments
                                           do_simple_splitting keep_delimiters in
  match write_calls bam_out read calls with
  | (bam_out, Raise e) => (bam_out, Raise e)
  | (bam_out, Ok _) => (bam_out, r)
  end.

End Segment.

(** ** [main], [_sub_process_work_fn] and [_sub_process_write_fn]

    The processes of the command as a transition system. A state holds the
    program point of the main process, the bounded input queue, the program
    point of every worker, the results queue and the program point of the output
    process; one transition is one queue operation, one join or one exit of one
    process, so every interleaving of the processes is a path of [step].

    [work] is what a worker computes from one item ([_get_segments]; [None] when
    it raises), [consume] tells whether the output process handles one result
    without raising ([_write_segmented_read]), and [threads] is the number of
    workers, also the capacity of the input queue. *)

Section Pipeline.

Context {Item Result : Type}.
Variable work : Item → option Result.
Variable consume : Result → bool.
Variable threads : nat.

(** Program points of [_sub_process_work_fn]: blocked in [in_queue.get()], about
    to call [out_queue.put] with a result, returned on the sentinel, or ended by
    an exception. *)
Inductive Worker : Type :=
  | WGet
  | WPut (res : Result)
  | WReturned
  | WRaised.

(** Program points of [_sub_process_write_fn]. *)
Inductive Writer : Type :=
  | OGet
  | OReturned
  | ORaised.

(** Program points of [main] from line 121 on: inside the loop over [iter_data]
    with the items still to put, joining worker [k], joining the output process,
    and finished. *)
Inductive Main : Type :=
  | MFeed (iter_data : list (option Item))
  | MJoin (k : nat)
  | MJoinWriter
  | MFinished.

(** What the processes do, in the order in which it happens. *)
Inductive Event : Type :=
  | EvPut (item : option Item)
  | EvGet (worker : nat) (item : option Item)
  | EvResult (worker : nat) (res : Result)
  | EvJoin (worker : nat)
  | EvResultsSentinel
  | EvWrite (item : option Result)
  | EvJoinWriter.

Record Pipeline : Type := MkPipeline {
  p_main : Main;
  p_in_queue : list (option Item);
  p_workers : list Worker;
  p_results : list (option Result);
  p_writer : Writer;
  p_log : list Event;
}.

(** Lines 78-121: the queues are empty, the workers and the output process are
    started, and [iter_data] is the input followed by one [None] per worker. *)
Definition pipeline_init (records : list Item) : Pipeline :=
  {| p_main := MFeed ((Some <$> records) ++ replicate threads None);
     p_in_queue := [];
     p_workers := replicate threads WGet;
     p_results := [];
     p_writer := OGet;
     p_log := [] |}.

Definition worker_after_get (raw_data : Item) : Worker :=
  match work raw_data with
  | Some res => WPut res
  | None => WRaised
  end.

Definition worker_joinable (w : Worker) : bool :=
  match w with
  | WReturned | WRaised => true
  | WGet | WPut _ => false
  end.

Definition writer_joinable (o : Writer) : bool :=
  match o with
  | OReturned | ORaised => true
  | OGet => false
  end.

Inductive step : Pipeline → Pipeline → Prop :=
  (* line 124/126: [process_input_data_queue.put], which blocks on a full queue *)
  | step_put x rest q ws rq o log :
      (length q < threads)%nat →
      step (MkPipeline (MFeed (x :: rest)) q ws rq o log)
           (MkPipeline (MFeed rest) (q ++ [x]) ws rq o (log ++ [EvPut x]))
  (* line 122: [iter_data] is exhausted *)
  | step_fed q ws rq o log :
      step (MkPipeline (MFeed []) q ws rq o log)
           (MkPipeline (MJoin 0) q ws rq o log)
  (* lines 129-130: [p.join()] returns once worker [k] has ended *)
  | step_join k w q ws rq o log :
      ws !! k = Some w →
      worker_joinable w = true →
      step (MkPipeline (MJoin k) q ws rq o log)
           (MkPipeline (MJoin (S k)) q ws rq o (log ++ [EvJoin k]))
  (* line 134: [results.put(None)] after the last join *)
  | step_results_sentinel k q ws rq o log :
      ws !! k = None →
      step (MkPipeline (MJoin k) q ws rq o log)
           (MkPipeline MJoinWriter q ws (rq ++ [None]) o (log ++ [EvResultsSentinel]))
  (* line 135: [output_worker.join()] *)
  | step_join_writer q ws rq o log :
      writer_joinable o = true →
      step (MkPipeline MJoinWriter q ws rq o log)
           (MkPipeline MFinished q ws rq o (log ++ [EvJoinWriter]))
  (* lines 148-158: a worker gets an item and computes its result *)
  | step_get_item m i raw_data q ws rq o log :
      ws !! i = Some WGet →
      step (MkPipeline m (Some raw_data :: q) ws rq o log)
           (MkPipeline m q (<[i := worker_after_get raw_data]> ws) rq o
                       (log ++ [EvGet i (Some raw_data)]))
  (* lines 148-152: a worker gets the sentinel and returns *)
  | step_get_sentinel m i q ws rq o log :
      ws !! i = Some WGet →
      step (MkPipeline m (None :: q) ws rq o log)
           (MkPipeline m q (<[i := WReturned]> ws) rq o (log ++ [EvGet i None]))
  (* line 158: [out_queue.put] on the unbounded results queue *)
  | step_result m i res q ws rq o log :
      ws !! i = Some (WPut res) →
      step (MkPipeline m q ws rq o log)
           (MkPipeline m q (<[i := WGet]> ws) (rq ++ [Some res]) o
                       (log ++ [EvResult i res]))
  (* lines 173-197: the output process gets a result and writes its elements *)
  | step_write m res q ws rq log :
      step (MkPipeline m q ws (Some res :: rq) OGet log)
           (MkPipeline m q ws rq (if consume res then OGet else ORaised)
                       (log ++ [EvWrite (Some res)]))
  (* lines 173-177: the output process gets the sentinel and leaves its loop *)
  | step_write_sentinel m q ws rq log :
      step (MkPipeline m q ws (None :: rq) OGet log)
           (MkPipeline m q ws rq OReturned (log ++ [EvWrite None])).

End Pipeline.

Arguments Worker : clear implicits.
Arguments Main : clear implicits.
Arguments Event : clear implicits.
Arguments Pipeline : clear implicits.
Arguments WGet {Result}.
Arguments WReturned {Result}.
Arguments WRaised {Result}.
Arguments MJoin {Item} k.
Arguments MJoinWriter {Item}.
Arguments MFinished {Item}.
Arguments EvJoin {Item Result} worker.
Arguments EvResultsSentinel {Item Result}.
Arguments EvJoinWriter {Item Result}.
Arguments EvWrite {Item Result} item.
Arguments EvPut {Item Result} item.
Arguments EvGet {Item Result} worker item.
Arguments EvResult {Item Result} worker res.

(** The pipeline of the command. An item is a read of the input file: the string
    [r.to_string()] that travels through the input queue stands for the read
    that [fromstring] makes of it again in the worker. A worker computes
    [_get_segments], and the output process calls [_write_segmented_read] on the
    read that [fromstring] gives back from the first component of a result. *)
Definition segment_work (SEGMENTS_TAG : string) (from_tag : string → option SegmentInfo)
    (to_string : AlignedSegment → string) (read : AlignedSegment)
    : option (string * list SegmentInfo) :=
  match _get_segments SEGMENTS_TAG from_tag to_string read with
  | Ok r => Some r
  | Raise _ => None
  end.

Definition segment_consume (array_element_structure : list (list string))
    (fromstring : string → AlignedSegment) (do_simple_splitting keep_delimiters : bool)
    (r : string * list SegmentInfo) : bool :=
  match (_write_segmented_read array_element_structure (fromstring r.1) r.2
           do_simple_splitting keep_delimiters).2 with
  | Ok _ => true
  | Raise _ => false
  end.

(** ** [_transform_to_rc_coords] *)

Definition _transform_to_rc_coords (start_coord end_coord read_length : Z) : Z * Z :=
  (read_length - end_coord - 1, read_length - start_coord - 1).

(** ** [main]: the number of worker processes (line 68) *)

Definition main_threads (threads cpu_count : Z) : Z :=
  if (threads <=? 0) || (cpu_count <? threads) then cpu_count else threads.

(** ** [_sub_process_work_fn] and [_sub_process_write_fn] on their own

    Each process, taken alone, is a loop over the items that its queue hands out
    in order. It returns on the sentinel, it ends with the exception of the
    function it calls, and it waits for ever when the items run out. *)

Inductive ProcessOutcome (A : Type) : Type :=
  | Returned (a : A)
  | Ended (e : PyError)
  | Waiting.
Arguments Returned {A} a.
Arguments Ended {A} e.
Arguments Waiting {A}.

Section Processes.

Variable array_element_structure : list (list string).
Variable SEGMENTS_TAG : string.
Variable to_tag : SegmentInfo → string.
Variable from_tag : string → option SegmentInfo.
Variable to_string : AlignedSegment → string.
Variable fromstring : string → AlignedSegment.

(** Lines 143-158: the results put on [out_queue], in order, and how the
    process ends. *)
Fixpoint _sub_process_work_fn (in_queue : list (option string))
    (out_queue : list (string * list SegmentInfo))
    : list (string * list SegmentInfo) * ProcessOutcome unit :=
  match in_queue with
  | [] => (out_queue, Waiting)
  | None :: _ => (out_queue, Returned ())
  | Some raw_data :: rest =>
      let read := fromstring raw_data in
      match _get_segments SEGMENTS_TAG from_tag to_string read with
      | Raise e => (out_queue, Ended e)
      | Ok r => _sub_process_work_fn rest (out_queue ++ [r])
      end
  end.

(** Lines 171-197: the loop of the output process, with the records written
    so far and the two counters. *)
Fixpoint write_fn_loop (do_simple_splitting keep_delimiters : bool)
    (out_queue : list (option (string * list SegmentInfo)))
    (out_bam_file : list AlignedSegment) (num_reads_segmented num_segments : Z)
    : list AlignedSegment * ProcessOutcome (Z * Z) :=
  match out_queue with
  | [] => (out_bam_file, Waiting)
  | None :: _ => (out_bam_file, Returned (num_reads_segmented, num_segments))
  | Some (read, segments) :: rest =>
      let read := fromstring read in
      match write_segmented_read_file array_element_structure SEGMENTS_TAG to_tag
                                      read segments do_simple_splitting keep_delimiters
                                      out_bam_file with
      | (out_bam_file, Raise e) => (out_bam_file, Ended e)
      | (out_bam_file, Ok n) =>
          write_fn_loop do_simple_splitting keep_delimiters rest out_bam_file
                        (num_reads_segmented + 1) (num_segments + n)
      end
  end.

(** Lines 161-202: the records of the output file, and the two numbers of the
    final log message, reads segmented and total segments. *)
Definition _sub_process_write_fn (out_queue : list (option (string * list SegmentInfo)))
    (do_simple_splitting keep_delimiters : bool)
    : list AlignedSegment * ProcessOutcome (Z * Z) :=
  write_fn_loop do_simple_splitting keep_delimiters out_queue [] 0 0.

End Processes.

(** ** Auxiliary definitions used in the statements *)

(** The scan seen from one window, respectively one template. *)
Definition simple_window_run (d : list string) (segments : list SegmentInfo)
    (w : SimpleWindow) : SimpleWindow :=
  foldl (λ w seg, simple_window_step d seg w) w segments.

Definition bounded_entry_run (d : list string) (segments : list SegmentInfo)
    (w : BoundedEntry) : BoundedEntry :=
  foldl (λ w seg, bounded_entry_step d seg w) w segments.

(** The precondition of the data model on a segment list: every segment is a
    non-empty range, the segments come in read order without overlap, starting at
    or after [lo]. *)
Fixpoint ordered_from (lo : Z) (segments : list SegmentInfo) : Prop :=
  match segments with
  | [] => True
  | s :: rest => lo ≤ start s ∧ start s ≤ end_ s ∧ ordered_from (end_ s + 1) rest
  end.

(** Segments well formed for a read of [n] bases. *)
Definition well_formed_segments (n : Z) (segments : list SegmentInfo) : Prop :=
  ordered_from 0 segments ∧ Forall (λ s, end_ s ≤ n - 1) segments.

(** Whether a character occurs in a string. *)
Fixpoint contains_char (c : ascii) (s : string) : bool :=
  match s with
  | EmptyString => false
  | String c' s' => Ascii.eqb c' c || contains_char c s'
  end.

(** The three lists of the simple-mode state have [n] entries. *)
Definition simple_lengths (n : nat) (st : SimpleState) : Prop :=
  length (s_match_matrix st) = n
  ∧ length (s_start_segments st) = n
  ∧ length (s_end_segment_tuples st) = n.

(** What the scan maintains for one window: the counter is not negative, a
    counter above zero has a start segment, and a filled end tuple belongs to a
    counter at the window length and repeats the start segment. *)
Definition simple_window_ok (d : list string) (w : SimpleWindow) : Prop :=
  let '(m, s, e) := w in
  0 ≤ m
  ∧ (m ≠ 0 → is_Some s)
  ∧ (∀ a y, e = Some (a, y) → m = py_len d ∧ a = s ∧ is_Some s).

(** [cur_read_base_index] after the loop over the sorted boundaries. *)
Definition last_boundary_index (keep_delimiters : bool)
    (sd : list (Z * SegmentInfo * (option SegmentInfo * SegmentInfo))) (cur : Z) : Z :=
  match last sd with
  | None => cur
  | Some (_, s, (_, e)) => if keep_delimiters then start s else end_ e + 1
  end.

(** A sorted boundary refers to a window and repeats its start segment. *)
Definition boundary_ok (dl : list (list string))
    (b : Z * SegmentInfo * (option SegmentInfo * SegmentInfo)) : Prop :=
  0 ≤ b.1.1 < py_len dl ∧ b.2.1 = Some b.1.2.

(** The four lists of the bounded-mode state have [n] entries. *)
Definition bounded_lengths (n : nat) (st : BoundedState) : Prop :=
  length (b_match_matrix st) = n
  ∧ length (b_segments st) = n
  ∧ length (b_found st) = n
  ∧ length (b_score st) = n.




(** Under well-formed segments the captured segments of a template are in read
    order and end before [lo], inside a read of [n] bases. *)
Definition bounded_entry_ordered (n lo : Z) (w : BoundedEntry) : Prop :=
  ordered_from 0 w.1.1.2 ∧ Forall (λ s, end_ s < lo ∧ end_ s ≤ n - 1) w.1.1.2.

(** Coordinate containment of one element of a read. *)
Definition element_contained (read : AlignedSegment) (c : ElementCall) : Prop :=
  0 ≤ start_coord c
  ∧ start_coord c ≤ end_coord c
  ∧ end_coord c ≤ py_len (query_sequence read) - 1.

(** The statement of coordinate containment for one run of
    [_write_segmented_read]. *)
Definition containment_spec (SEGMENTS_TAG : string) (to_tag : SegmentInfo → string)
    (array_element_structure : list (list string)) (read : AlignedSegment)
    (segments : list SegmentInfo) (do_simple_splitting keep_delimiters : bool) : Prop :=
  ∀ c,
    c ∈ (_write_segmented_read array_element_structure read segments
           do_simple_splitting keep_delimiters).1 →
    element_contained read c
    ∧ py_len (query_sequence (split_array_element SEGMENTS_TAG to_tag c read))
      = end_coord c - start_coord c + 1.

(** What every element keeps with either setting of keep-delimiters: its start
    is not negative, its end is between -1 and the last base, with keep-delimiters
    its start is not behind its end, and its record has the bases from start to
    end, none when the end is before the start. *)
Definition element_bounds (SEGMENTS_TAG : string) (to_tag : SegmentInfo → string)
    (read : AlignedSegment) (keep_delimiters : bool) (c : ElementCall) : Prop :=
  0 ≤ start_coord c
  ∧ -1 ≤ end_coord c
  ∧ end_coord c ≤ py_len (query_sequence read) - 1
  ∧ (keep_delimiters = true → start_coord c ≤ end_coord c)
  ∧ py_len (query_sequence (split_array_element SEGMENTS_TAG to_tag c read))
    = Z.max 0 (end_coord c - start_coord c + 1).

(** Under well-formed segments, the start segment of a window starts before
    [lo] inside the read, and the end segment of a boundary pair ends inside the
    read, not before the start segment starts. *)
Definition simple_window_coords (n lo : Z) (w : SimpleWindow) : Prop :=
  let '(_, s, e) := w in
  (∀ x, s = Some x → 0 ≤ start x ∧ start x < lo ∧ start x ≤ n - 1)
  ∧ (∀ a y x, e = Some (a, y) → s = Some x → start x ≤ end_ y ∧ end_ y ≤ n - 1).

Definition boundary_coords (n : Z)
    (b : Z * SegmentInfo * (option SegmentInfo * SegmentInfo)) : Prop :=
  0 ≤ start b.1.2 ∧ start b.1.2 ≤ n - 1
  ∧ start b.1.2 ≤ end_ b.2.2 ∧ end_ b.2.2 ≤ n - 1.

(** The number of elements of a list on which [p] holds. *)
Fixpoint count_if {A} (p : A → bool) (l : list A) : nat :=
  match l with
  | [] => 0
  | x :: rest => (if p x then 1 else 0) + count_if p rest
  end.

Section PipelineStatements.

Context {Item Result : Type}.
Variable work : Item → option Result.
Variable consume : Result → bool.
Variable threads : nat.

(** The items that [main] has still to put on the input queue. *)
Definition pending (m : Main Item) : list (option Item) :=
  match m with
  | MFeed iter_data => iter_data
  | _ => []
  end.

Definition worker_live (w : Worker Result) : bool :=
  match w with
  | WGet | WPut _ => true
  | WReturned | WRaised => false
  end.

Definition worker_holds (w : Worker Result) : bool :=
  match w with
  | WPut _ => true
  | _ => false
  end.

Definition worker_returned (w : option (Worker Result)) : bool :=
  match w with
  | Some WReturned => true
  | _ => false
  end.

(** The events of the log, by kind. *)
Definition put_items (log : list (Event Item Result)) : list (option Item) :=
  omap (λ ev, match ev with EvPut x => Some x | _ => None end) log.

Definition is_get_sentinel (i : nat) (ev : Event Item Result) : bool :=
  match ev with
  | EvGet j None => Nat.eqb i j
  | _ => false
  end.

Definition is_join (i : nat) (ev : Event Item Result) : bool :=
  match ev with
  | EvJoin j => Nat.eqb i j
  | _ => false
  end.

Definition is_results_sentinel (ev : Event Item Result) : bool :=
  match ev with
  | EvResultsSentinel => true
  | _ => false
  end.

Definition is_write_sentinel (ev : Event Item Result) : bool :=
  match ev with
  | EvWrite None => true
  | _ => false
  end.

(** A bound on the number of transitions that a state can still make. *)
Definition main_rank (n : nat) (m : Main Item) : nat :=
  match m with
  | MFeed iter_data => 4 * length iter_data + n + 4
  | MJoin k => (n - k) + 3
  | MJoinWriter => 1
  | MFinished => 0
  end.

Definition pipeline_measure (s : Pipeline Item Result) : nat :=
  main_rank (length (p_workers s)) (p_main s)
  + 3 * length (p_in_queue s)
  + 2 * count_if worker_holds (p_workers s)
  + length (p_results s).

(** An input record that neither a worker nor the output process raises on. *)
Definition good_item (r : Item) : Prop :=
  ∃ res, work r = Some res ∧ consume res = true.

(** What holds of every state that a run without exceptions reaches. *)
Record pipeline_inv (records : list Item) (s : Pipeline Item Result) : Prop := {
  inv_workers : length (p_workers s) = threads;
  inv_worker_ok :
    Forall (λ w, w ≠ WRaised ∧ ∀ res, w = WPut res → consume res = true) (p_workers s);
  inv_input :
    ∃ rs j,
      p_in_queue s ++ pending (p_main s) = (Some <$> rs) ++ replicate j None
      ∧ j = count_if worker_live (p_workers s)
      ∧ Forall good_item rs
      ∧ (rs = [] ∨ j = threads);
  inv_joined :
    match p_main s with
    | MFeed _ => True
    | MJoin k => ∀ i, (i < k)%nat → p_workers s !! i = Some WReturned
    | _ => ∀ i, (i < threads)%nat → p_workers s !! i = Some WReturned
    end;
  inv_results :
    match p_main s with
    | MFeed _ | MJoin _ =>
        p_writer s = OGet
        ∧ ∃ ss, p_results s = Some <$> ss ∧ Forall (λ r, consume r = true) ss
    | MJoinWriter =>
        (p_writer s = OGet
         ∧ ∃ ss, p_results s = (Some <$> ss) ++ [None]
                 ∧ Forall (λ r, consume r = true) ss)
        ∨ (p_writer s = OReturned ∧ p_results s = [])
    | MFinished => p_writer s = OReturned ∧ p_results s = []
    end;
  inv_log_put :
    put_items (p_log s) ++ pending (p_main s)
    = (Some <$> records) ++ replicate threads None;
  inv_log_get :
    ∀ i, count_if (is_get_sentinel i) (p_log s)
         = if worker_returned (p_workers s !! i) then 1%nat else 0%nat;
  inv_log_write :
    count_if is_write_sentinel (p_log s)
    = match p_writer s with OReturned => 1%nat | _ => 0%nat end;
  inv_log_results :
    match p_main s with
    | MFeed _ => count_if is_results_sentinel (p_log s) = 0%nat
    | MJoin k =>
        count_if is_results_sentinel (p_log s) = 0%nat
        ∧ ∀ i, (i < k)%nat → (0 < count_if (is_join i) (p_log s))%nat
    | _ =>
        ∃ l1 l2,
          p_log s = l1 ++ EvResultsSentinel :: l2
          ∧ (∀ i, (i < threads)%nat → (0 < count_if (is_join i) l1)%nat)
          ∧ count_if is_results_sentinel l1 = 0%nat
          ∧ count_if is_results_sentinel l2 = 0%nat
    end;
}.

(** The shutdown protocol, read off the final state and its log: the items put
    on the input queue are the records followed by one sentinel per worker;
    every worker has returned after getting exactly one sentinel; exactly one
    sentinel was put on the results queue, after a join of every worker; the
    output process has got exactly one sentinel and returned; both queues are
    empty. *)
Definition shutdown_complete (records : list Item) (s : Pipeline Item Result) : Prop :=
  put_items (p_log s) = (Some <$> records) ++ replicate threads None
  ∧ length (p_workers s) = threads
  ∧ (∀ i, (i < threads)%nat →
          p_workers s !! i = Some WReturned
          ∧ count_if (is_get_sentinel i) (p_log s) = 1%nat)
  ∧ (∃ l1 l2,
       p_log s = l1 ++ EvResultsSentinel :: l2
       ∧ (∀ i, (i < threads)%nat → (0 < count_if (is_join i) l1)%nat))
  ∧ count_if is_results_sentinel (p_log s) = 1%nat
  ∧ p_writer s = OReturned
  ∧ count_if is_write_sentinel (p_log s) = 1%nat
  ∧ p_in_queue s = []
  ∧ p_results s = [].

(** Termination of the pipeline on [records], whatever the interleaving: a run
    has at most [pipeline_measure] transitions, it can always go on until [main]
    has finished, and when [main] has finished the shutdown is complete. *)
Definition pipeline_terminates (records : list Item) : Prop :=
  ∀ n s,
    nsteps (step work consume threads) n (pipeline_init threads records) s →
    (n ≤ pipeline_measure (pipeline_init threads records))%nat
    ∧ (p_main s ≠ MFinished → ∃ s', step work consume threads s s')
    ∧ (p_main s = MFinished → shutdown_complete records s).

End PipelineStatements.

(** A read that the command processes without an exception: [_get_segments]
    returns on it, and [_write_segmented_read] returns on its result. *)
Definition record_processed (SEGMENTS_TAG : string) (from_tag : string → option SegmentInfo)
    (to_string : AlignedSegment → string) (array_element_structure : list (list string))
    (fromstring : string → AlignedSegment) (do_simple_splitting keep_delimiters : bool)
    (read : AlignedSegment) : Prop :=
  ∃ r n,
    _get_segments SEGMENTS_TAG from_tag to_string read = Ok r
    ∧ (_write_segmented_read array_element_structure (fromstring r.1) r.2
         do_simple_splitting keep_delimiters).2 = Ok n.

(** The records that the output process writes for one item of its queue. *)
Definition read_records (array_element_structure : list (list string))
    (SEGMENTS_TAG : string) (to_tag : SegmentInfo → string)
    (fromstring : string → AlignedSegment) (do_simple_splitting keep_delimiters : bool)
    (item : string * list SegmentInfo) : list AlignedSegment :=
  (write_segmented_read_file array_element_structure SEGMENTS_TAG to_tag
                             (fromstring item.1) item.2
                             do_simple_splitting keep_delimiters []).1.

(** [sum(l)] for a list of integers. *)
Definition py_sum (l : list Z) : Z := foldr Z.add 0 l.

(** A run of calls in which every element has the delimiter name of the element
    before it as its previous-delimiter name, starts where its filter span starts
    and, without keep-delimiters, has its filter span start at the base after
    [seg_end_coord] of the element before it, the end of the filter span of that
    element; [cur] and [prev] are the start and the name handed to the first. *)
Fixpoint calls_chain (keep_delimiters : bool) (cur : Z) (prev : string)
    (calls : list ElementCall) : Prop :=
  match calls with
  | [] => True
  | c :: rest =>
      start_coord c = seg_start_coord c
      ∧ prev_delim_name c = prev
      ∧ (keep_delimiters = false → seg_start_coord c = cur)
      ∧ calls_chain keep_delimiters (seg_end_coord c + 1) (delim_name c) rest
  end.

(** The labels captured for a template [d]: in template order up to position
    [m], starting with the first label of [d] and ending with label [m - 1]. *)
Definition bounded_entry_labels (d : list string) (w : BoundedEntry) : Prop :=
  let '(m, l, f, _) := w in
  0 ≤ m ≤ py_len d
  ∧ (f = false → m < py_len d)
  ∧ (f = true → m = py_len d)
  ∧ (name <$> l) `sublist_of` take (Z.to_nat m) d
  ∧ (m = 0 → l = [])
  ∧ (1 ≤ m → head (name <$> l) = head d
             ∧ last (name <$> l) = d !! Z.to_nat (m - 1)).

(** ** Concrete instances used in the examples *)

Definition example_segments_tag : string := "SG".

Definition example_to_tag (s : SegmentInfo) : string :=
  name s +:+ ":" +:+ pretty (start s) +:+ "-" +:+ pretty (end_ s).

Definition example_segment (n : string) (a b : Z) : SegmentInfo :=
  {| name := n; start := a; end_ := b |}.

(** A decoder for the two tokens of the example reads. *)
Definition example_from_tag (tok : string) : option SegmentInfo :=
  if String.eqb tok "A:0-9" then Some (example_segment "A" 0 9)
  else if String.eqb tok "B:10-19" then Some (example_segment "B" 10 19)
  else None.

Definition example_to_string (read : AlignedSegment) : string := query_name read.

(** An unaligned read of [n] bases, with a quality for every base. *)
Definition example_read (n : nat) (ts : list (string * string)) : AlignedSegment :=
  {| query_name := "read1";
     query_sequence := replicate n "A"%char;
     query_qualities := match n with O => None | _ => Some (replicate n 30) end;
     query_alignment_qualities := match n with O => None | _ => Some (replicate n 30) end;
     tags := ts;
     flag := 4;
     mapping_quality := 255 |}.

(** The read of the example [A,B,x,x,Y,Z]: six segments of ten bases each. *)
Definition example_ABxxYZ : list SegmentInfo :=
  [ example_segment "A" 0 9; example_segment "B" 10 19; example_segment "x" 20 29;
    example_segment "x" 30 39; example_segment "Y" 40 49; example_segment "Z" 50 59 ].

Definition example_template_AB_YZ : list (list string) := [["A"; "B"]; ["Y"; "Z"]].

(** A read with a sequence and a segment list in read order where the window
    ("A","B","Y","Z") starts at the first base. *)
Definition example_ABYZx : list SegmentInfo :=
  [ example_segment "A" 0 9; example_segment "B" 10 19; example_segment "Y" 20 29;
    example_segment "Z" 30 39; example_segment "x" 40 49 ].

Definition example_ABYZ : list SegmentInfo :=
  [ example_segment "A" 0 9; example_segment "B" 10 19; example_segment "Y" 20 29;
    example_segment "Z" 30 39 ].

Definition example_template_L123 : list (list string) := [["L1"; "L2"; "L3"]].

Definition example_L1_L3 : list SegmentInfo :=
  [ example_segment "L1" 0 9; example_segment "L3" 20 29 ].

Definition example_call : ElementCall :=
  {| start_coord := 20;
     end_coord := 39;
     seg_start_coord := 20;
     seg_end_coord := 59;
     call_segments := example_ABxxYZ;
     delim_name := "Y/Z";
     prev_delim_name := "A/B" |}.

Definition example_work : AlignedSegment → option (string * list SegmentInfo) :=
  segment_work example_segments_tag example_from_tag example_to_string.

Definition example_consume : string * list SegmentInfo → bool :=
  segment_consume example_template_AB_YZ (λ _, example_read 20 []) true false.

(** A read that carries the segment tag, and one that does not. *)
Definition example_annotated_read : AlignedSegment :=
  example_read 20 [("SG", "A:0-9|B:10-19")].

Definition example_bare_read : AlignedSegment := example_read 20 [("RG", "g1")].

(** One worker after it has raised on the first of two bare reads, with the
    second read filling the input queue and the sentinel still to be put. *)
Definition example_stuck : Pipeline AlignedSegment (string * list SegmentInfo) :=
  {| p_main := MFeed [None];
     p_in_queue := [Some example_bare_read];
     p_workers := [WRaised];
     p_results := [];
     p_writer := OGet;
     p_log := [EvPut (Some example_bare_read); EvGet 0 (Some example_bare_read);
               EvPut (Some example_bare_read)] |}.

(** A text form of reads in which the read named "read1" carries the segment
    tag and every other read carries no tag. *)
Definition example_fromstring (raw : string) : AlignedSegment :=
  {| query_name := raw;
     query_sequence := replicate 60 "A"%char;
     query_qualities := Some (replicate 60 30);
     query_alignment_qualities := Some (replicate 60 30);
     tags := if String.eqb raw "read1" then [("SG", "A:0-9|B:10-19")] else [];
     flag := 4;
     mapping_quality := 255 |}.

(** A read of six bases with qualities 0..5 whose first two bases are
    soft-clipped, a read of six bases without qualities, and the call for the
    bases [a..b] of a read. *)
Definition example_soft_clipped_read : AlignedSegment :=
  {| query_name := "read1";
     query_sequence := replicate 6 "A"%char;
     query_qualities := Some [0; 1; 2; 3; 4; 5];
     query_alignment_qualities := Some [2; 3; 4; 5];
     tags := [];
     flag := 0;
     mapping_quality := 60 |}.

Definition example_no_qualities_read : AlignedSegment :=
  {| query_name := "read1";
     query_sequence := replicate 6 "A"%char;
     query_qualities := None;
     query_alignment_qualities := None;
     tags := [];
     flag := 4;
     mapping_quality := 255 |}.

Definition example_span (a b : Z) : ElementCall :=
  {| start_coord := a;
     end_coord := b;
     seg_start_coord := a;
     seg_end_coord := b;
     call_segments := [];
     delim_name := "END";
     prev_delim_name := "START" |}.

(** * Properties *)

(** ** Python primitives *)

Lemma py_getitem_ok {A} (l : list A) (i : Z) (x : A) :
  0 ≤ i → l !! Z.to_nat i = Some x → py_getitem l i = Ok x.
Proof.
  intros Hi Hx. unfold py_getitem, py_len.
  apply lookup_lt_Some in Hx as Hlt.
  destruct (Z.ltb_spec i 0); [lia|].
  destruct (Z.ltb_spec i 0); [lia|].
  destruct (Z.leb_spec (Z.of_nat (length l)) i); [lia|].
  simpl. by rewrite Hx.
Qed.

Lemma py_getitem_nat {A} (l : list A) (i : nat) :
  py_getitem l (Z.of_nat i) = match l !! i with Some x => Ok x | None => Raise IndexError end.
Proof.
  destruct (l !! i) as [x|] eqn:Hx.
  - apply py_getitem_ok; [lia|]. by rewrite Nat2Z.id.
  - unfold py_getitem, py_len. apply lookup_ge_None in Hx.
    destruct (Z.ltb_spec (Z.of_nat i) 0); [lia|].
    destruct (Z.ltb_spec (Z.of_nat i) 0); [lia|].
    destruct (Z.leb_spec (Z.of_nat (length l)) (Z.of_nat i)); [done|lia].
Qed.

Lemma py_getitem_overflow {A} (l : list A) (i : Z) :
  py_len l ≤ i → py_getitem l i = Raise IndexError.
Proof.
  intros Hi. unfold py_getitem, py_len in *.
  destruct (Z.ltb_spec i 0); [lia|].
  destruct (Z.ltb_spec i 0); [lia|].
  destruct (Z.leb_spec (Z.of_nat (length l)) i); [done|lia].
Qed.

Lemma py_getitem_error {A} (l : list A) (i : Z) (e : PyError) :
  py_getitem l i = Raise e → e = IndexError.
Proof.
  unfold py_getitem. repeat case_match; congruence.
Qed.

Lemma py_getitem_in_range {A} (l : list A) (i : Z) :
  0 ≤ i < py_len l → ∃ x, py_getitem l i = Ok x ∧ l !! Z.to_nat i = Some x.
Proof.
  intros Hi. unfold py_len in Hi.
  destruct (lookup_lt_is_Some_2 l (Z.to_nat i)) as [x Hx]; [lia|].
  exists x. split; [|done]. apply py_getitem_ok; [lia|done].
Qed.

Lemma py_clamp_inside (n i : Z) : 0 ≤ i ≤ n → py_clamp n i = i.
Proof. intros ?. unfold py_clamp. destruct (Z.ltb_spec i 0); lia. Qed.

Lemma py_clamp_above (n i : Z) : 0 ≤ n ≤ i → py_clamp n i = n.
Proof. intros ?. unfold py_clamp. destruct (Z.ltb_spec i 0); lia. Qed.

(** For a non-negative start and an end of at least [-1], [l[a:b+1]] holds the
    elements of the inclusive index range [a..b]. *)
Lemma py_slice_inclusive_lookup {A} (l : list A) (a b : Z) (k : nat) :
  0 ≤ a → -1 ≤ b →
  py_slice l (Some a) (Some (b + 1)) !! k
  = if decide (a + Z.of_nat k ≤ b) then l !! Z.to_nat (a + Z.of_nat k) else None.
Proof.
  intros Ha Hb. unfold py_slice.
  set (n := py_len l). assert (0 ≤ n) by (unfold n, py_len; lia).
  assert (Hlo : py_clamp n a = Z.min n a).
  { unfold py_clamp. destruct (Z.ltb_spec a 0); lia. }
  assert (Hhi : py_clamp n (b + 1) = Z.min n (b + 1)).
  { unfold py_clamp. destruct (Z.ltb_spec (b + 1) 0); lia. }
  rewrite Hlo, Hhi.
  destruct (decide (Z.of_nat k < Z.min n (b + 1) - Z.min n a)) as [Hk|Hk].
  - rewrite lookup_take_lt by lia. rewrite lookup_drop.
    rewrite decide_True by lia. f_equal. lia.
  - rewrite lookup_take_ge by lia.
    case_decide; [|done].
    symmetry. apply lookup_ge_None. unfold n, py_len in *. lia.
Qed.

Lemma py_slice_inclusive_length {A} (l : list A) (a b : Z) :
  0 ≤ a → a ≤ b + 1 → b + 1 ≤ py_len l →
  py_len (py_slice l (Some a) (Some (b + 1))) = b - a + 1.
Proof.
  intros Ha Hab Hb. unfold py_slice.
  rewrite !py_clamp_inside by lia.
  unfold py_len in *. rewrite length_take, length_drop. lia.
Qed.

Lemma py_slice_empty {A} (l : list A) (a b : Z) :
  0 ≤ b → b ≤ a → py_slice l (Some a) (Some b) = [].
Proof.
  intros Hb Hab. unfold py_slice.
  set (n := py_len l). assert (0 ≤ n) by (unfold n, py_len; lia).
  assert (py_clamp n b ≤ py_clamp n a).
  { unfold py_clamp. destruct (Z.ltb_spec a 0), (Z.ltb_spec b 0); lia. }
  replace (Z.to_nat (py_clamp n b - py_clamp n a)) with 0%nat by lia.
  done.
Qed.


Lemma py_slice_tail {A} (l : list A) (k : nat) :
  py_slice l (Some (Z.of_nat k)) None = drop k l.
Proof.
  unfold py_slice. set (n := py_len l).
  destruct (decide (Z.of_nat k ≤ n)).
  - rewrite py_clamp_inside by lia. rewrite Nat2Z.id.
    apply take_ge. rewrite length_drop. unfold n, py_len. lia.
  - rewrite py_clamp_above by (unfold n, py_len in *; lia).
    unfold n, py_len in *. rewrite Z.sub_diag. simpl.
    symmetry. apply drop_ge. lia.
Qed.


Lemma py_sum_bool_count (l : list bool) :
  py_sum_bool l = Z.of_nat (length (filter (λ b, b = true) l)).
Proof.
  induction l as [|b l IH]; [done|].
  rewrite filter_cons. unfold py_sum_bool in *. cbn [foldr]. rewrite IH.
  destruct b; simpl; lia.
Qed.

(** ** Loops over [enumerate] that assign entry [i] only *)

Lemma foldl_seq_local {St T} (get : St → nat → option T) (body : St → nat → St)
    (f : nat → option T → option T) :
  (∀ s j i, get (body s j) i = if decide (i = j) then f i (get s i) else get s i) →
  ∀ n s i,
    get (foldl body s (seq 0 n)) i
    = if decide (i < n)%nat then f i (get s i) else get s i.
Proof.
  intros Hbody n. induction n as [|n IH]; intros s i.
  - cbn [seq foldl]. destruct (decide (i < 0)%nat); [lia|done].
  - rewrite seq_S, foldl_app. cbn [foldl Nat.add]. rewrite Hbody, IH.
    destruct (decide (i = n)), (decide (i < n)%nat), (decide (i < S n)%nat);
      try lia; done.
Qed.

(** ** The scans, entry by entry *)

Lemma simple_window_body dl seg st j i :
  simple_window (simple_body dl seg st j) i
  = if decide (i = j) then
      match dl !! i with
      | Some d => simple_window_step d seg <$> simple_window st i
      | None => simple_window st i
      end
    else simple_window st i.
Proof.
  unfold simple_body.
  destruct (decide (i = j)) as [->|Hne].
  - destruct (dl !! j) as [d|]; [|done].
    destruct (simple_window st j) as [w|] eqn:Hw; [|by rewrite Hw].
    cbn [fmap option_fmap option_map].
    destruct (simple_window_step d seg w) as [[m s] e]. simpl.
    unfold simple_window in *. simpl.
    destruct (s_match_matrix st !! j) eqn:H1; [|done].
    destruct (s_start_segments st !! j) eqn:H2; [|done].
    destruct (s_end_segment_tuples st !! j) eqn:H3; [|done].
    apply lookup_lt_Some in H1, H2, H3.
    by rewrite !list_lookup_insert_eq.
  - destruct (dl !! j) as [d|]; [|done].
    destruct (simple_window st j) as [w|] eqn:Hw; [|done].
    destruct (simple_window_step d seg w) as [[m s] e].
    unfold simple_window. simpl.
    by rewrite !list_lookup_insert_ne.
Qed.

Lemma simple_window_seg dl seg st i :
  simple_window (foldl (simple_body dl seg) st (seq 0 (length (s_match_matrix st)))) i
  = match dl !! i with
    | Some d => simple_window_step d seg <$> simple_window st i
    | None => simple_window st i
    end.
Proof.
  rewrite (foldl_seq_local simple_window (simple_body dl seg)
             (λ i o, match dl !! i with
                     | Some d => simple_window_step d seg <$> o
                     | None => o
                     end)).
  - destruct (decide (i < length (s_match_matrix st))%nat) as [|Hge]; [done|].
    assert (simple_window st i = None) as ->.
    { unfold simple_window. rewrite (lookup_ge_None_2 (s_match_matrix st)) by lia. done. }
    by destruct (dl !! i).
  - intros. apply simple_window_body.
Qed.

Lemma simple_window_scan dl segments st i :
  simple_window (simple_scan dl segments st) i
  = match dl !! i with
    | Some d => simple_window_run d segments <$> simple_window st i
    | None => simple_window st i
    end.
Proof.
  unfold simple_scan, simple_window_run.
  revert st. induction segments as [|seg segments IH]; intros st.
  - simpl. destruct (dl !! i); [|done]. by destruct (simple_window st i).
  - cbn [foldl]. rewrite IH, simple_window_seg.
    destruct (dl !! i); [|done]. by destruct (simple_window st i).
Qed.

Lemma simple_window_init dl i d :
  dl !! i = Some d → simple_window (simple_init dl) i = Some (0, None, None).
Proof.
  intros Hd. unfold simple_window, simple_init. simpl.
  by rewrite !list_lookup_fmap, Hd.
Qed.

Lemma simple_window_init_None dl i :
  dl !! i = None → simple_window (simple_init dl) i = None.
Proof.
  intros Hd. unfold simple_window, simple_init. simpl.
  by rewrite !list_lookup_fmap, Hd.
Qed.

Lemma bounded_entry_body dl seg st j i :
  bounded_entry (bounded_body dl seg st j) i
  = if decide (i = j) then
      match dl !! i with
      | Some d => bounded_entry_step d seg <$> bounded_entry st i
      | None => bounded_entry st i
      end
    else bounded_entry st i.
Proof.
  unfold bounded_body.
  destruct (decide (i = j)) as [->|Hne].
  - destruct (dl !! j) as [d|]; [|done].
    destruct (bounded_entry st j) as [w|] eqn:Hw; [|by rewrite Hw].
    cbn [fmap option_fmap option_map].
    destruct (bounded_entry_step d seg w) as [[[m l] f] sc]. simpl.
    unfold bounded_entry in *. simpl.
    destruct (b_match_matrix st !! j) eqn:H1; [|done].
    destruct (b_segments st !! j) eqn:H2; [|done].
    destruct (b_found st !! j) eqn:H3; [|done].
    destruct (b_score st !! j) eqn:H4; [|done].
    apply lookup_lt_Some in H1, H2, H3, H4.
    by rewrite !list_lookup_insert_eq.
  - destruct (dl !! j) as [d|]; [|done].
    destruct (bounded_entry st j) as [w|] eqn:Hw; [|done].
    destruct (bounded_entry_step d seg w) as [[[m l] f] sc].
    unfold bounded_entry. simpl.
    by rewrite !list_lookup_insert_ne.
Qed.

Lemma bounded_entry_seg dl seg st i :
  bounded_entry (foldl (bounded_body dl seg) st (seq 0 (length (b_match_matrix st)))) i
  = match dl !! i with
    | Some d => bounded_entry_step d seg <$> bounded_entry st i
    | None => bounded_entry st i
    end.
Proof.
  rewrite (foldl_seq_local bounded_entry (bounded_body dl seg)
             (λ i o, match dl !! i with
                     | Some d => bounded_entry_step d seg <$> o
                     | None => o
                     end)).
  - destruct (decide (i < length (b_match_matrix st))%nat) as [|Hge]; [done|].
    assert (bounded_entry st i = None) as ->.
    { unfold bounded_entry. rewrite (lookup_ge_None_2 (b_match_matrix st)) by lia. done. }
    by destruct (dl !! i).
  - intros. apply bounded_entry_body.
Qed.

Lemma bounded_entry_scan dl segments st i :
  bounded_entry (bounded_scan dl segments st) i
  = match dl !! i with
    | Some d => bounded_entry_run d segments <$> bounded_entry st i
    | None => bounded_entry st i
    end.
Proof.
  unfold bounded_scan, bounded_entry_run.
  revert st. induction segments as [|seg segments IH]; intros st.
  - simpl. destruct (dl !! i); [|done]. by destruct (bounded_entry st i).
  - cbn [foldl]. rewrite IH, bounded_entry_seg.
    destruct (dl !! i); [|done]. by destruct (bounded_entry st i).
Qed.

Lemma bounded_entry_init dl i d :
  dl !! i = Some d → bounded_entry (bounded_init dl) i = Some (0, [], false, 0).
Proof.
  intros Hd. unfold bounded_entry, bounded_init. simpl.
  by rewrite !list_lookup_fmap, Hd.
Qed.

(** ** Tags *)

Lemma tags_lookup_set_tag_eq k v ts : tags_lookup k (set_tag k v ts) = Some v.
Proof.
  unfold set_tag. induction ts as [|[k' v'] ts IH].
  - simpl. by rewrite String.eqb_refl.
  - rewrite filter_cons. simpl.
    destruct (String.eqb k' k) eqn:E; simpl; [done|].
    by rewrite E.
Qed.

Lemma tags_lookup_set_tag_ne k k' v ts :
  k' ≠ k → tags_lookup k' (set_tag k v ts) = tags_lookup k' ts.
Proof.
  intros Hne. unfold set_tag. induction ts as [|[k0 v0] ts IH].
  - simpl. destruct (String.eqb_spec k k'); [congruence|done].
  - rewrite filter_cons. simpl.
    destruct (String.eqb_spec k0 k) as [->|]; simpl.
    + destruct (String.eqb_spec k k'); [congruence|done].
    + by rewrite IH.
Qed.

(** ** Splitting and joining *)

Lemma py_split_token sep t : contains_char sep t = false → py_split sep t = [t].
Proof.
  induction t as [|c t IH]; [done|]. simpl. intros H.
  apply orb_false_iff in H as [Hc Ht]. rewrite Hc. by rewrite IH.
Qed.

Lemma py_split_app sep t rest :
  contains_char sep t = false →
  py_split sep (t +:+ String sep rest) = t :: py_split sep rest.
Proof.
  induction t as [|c t IH]; simpl; intros H.
  - by rewrite Ascii.eqb_refl.
  - apply orb_false_iff in H as [Hc Ht]. rewrite Hc. by rewrite IH.
Qed.

Lemma py_split_join sep tokens :
  tokens ≠ [] →
  Forall (λ t, contains_char sep t = false) tokens →
  py_split sep (py_join (String sep "") tokens) = tokens.
Proof.
  intros Hne Hfree. induction Hfree as [|t tokens Ht Hfree IH]; [done|].
  destruct tokens as [|t' tokens].
  - simpl. by apply py_split_token.
  - change (py_join (String sep "") (t :: t' :: tokens))
      with (t +:+ String sep (py_join (String sep "") (t' :: tokens))).
    rewrite py_split_app by done. f_equal. by apply IH.
Qed.

Lemma py_map_m_Forall2 {A B} (f : A → PyResult B) l k :
  Forall2 (λ x y, f x = Ok y) l k → py_map_m f l = Ok k.
Proof.
  induction 1 as [|x y l k Hxy _ IH]; [done|].
  simpl. by rewrite Hxy, IH.
Qed.

Lemma py_map_m_Forall {A B} (f : A → PyResult B) (Q : B → Prop) (l : list A) :
  Forall (λ x, ∃ y, f x = Ok y ∧ Q y) l →
  ∃ k, py_map_m f l = Ok k ∧ Forall Q k ∧ length k = length l.
Proof.
  induction 1 as [|x l (y & Hy & HQ) _ (k & Hk & HQk & Hlen)].
  - by exists [].
  - exists (y :: k). simpl. rewrite Hy, Hk. simpl.
    split; [done|]. split; [by constructor|]. by rewrite Hlen.
Qed.

Lemma py_map_m_error {A B} (f : A → PyResult B) l e e0 :
  (∀ x e', f x = Raise e' → e' = e0) → py_map_m f l = Raise e → e = e0.
Proof.
  intros Hf. induction l as [|x l IH]; simpl; [done|].
  destruct (f x) eqn:Hx; simpl.
  - destruct (py_map_m f l); simpl; [done|]. intros [= <-]. by apply IH.
  - intros [= <-]. by eapply Hf.
Qed.

(** ** The segment decoder *)

(** C9. [_get_segments] raises the missing-annotation error (KeyError) exactly when
    the read carries no segment tag. When the tag is present the result is the
    string form of the unmodified read, paired with the tokens of the tag, split
    at "|", decoded in order; in particular for a tag that joins tokens free of
    "|" which all decode, the result is the list of their segments, in order, and
    when [from_tag] accepts every token the function returns exactly when the
    tag is present. *)
Theorem C9_get_segments (SEGMENTS_TAG : string) (from_tag : string → option SegmentInfo)
    (to_string : AlignedSegment → string) (read : AlignedSegment) :
  (tags_lookup SEGMENTS_TAG (tags read) = None
   ↔ _get_segments SEGMENTS_TAG from_tag to_string read = Raise KeyError)
  ∧ (∀ tag,
       tags_lookup SEGMENTS_TAG (tags read) = Some tag →
       _get_segments SEGMENTS_TAG from_tag to_string read
       = do segs <- py_map_m (λ tok, match from_tag tok with
                                     | Some seg => Ok seg
                                     | None => Raise TagFormatError
                                     end) (py_split "|" tag);
         Ok (to_string read, segs))
  ∧ (∀ tokens segs,
       tokens ≠ [] →
       Forall (λ t, contains_char "|" t = false) tokens →
       Forall2 (λ t s, from_tag t = Some s) tokens segs →
       tags_lookup SEGMENTS_TAG (tags read) = Some (py_join "|" tokens) →
       _get_segments SEGMENTS_TAG from_tag to_string read = Ok (to_string read, segs))
  ∧ ((∀ tok, is_Some (from_tag tok)) →
     (is_Some (tags_lookup SEGMENTS_TAG (tags read))
      ↔ ∃ segs, _get_segments SEGMENTS_TAG from_tag to_string read
                = Ok (to_string read, segs))).
Proof.
  unfold _get_segments, get_tag. split; [|split; [|split]]; cycle 3.
  { intros Htotal. split.
    - intros [tag ->]. cbn [py_bind].
      destruct (py_map_m_Forall
                  (λ tok, match from_tag tok with
                          | Some seg => Ok seg
                          | None => Raise TagFormatError
                          end) (λ _, True) (py_split "|" tag)) as (segs & -> & _).
      { apply Forall_forall. intros tok _. destruct (Htotal tok) as [seg ->]. by exists seg. }
      by exists segs.
    - intros [segs Hsegs].
      destruct (tags_lookup SEGMENTS_TAG (tags read)); [done|]. simpl in Hsegs. done. }
  - destruct (tags_lookup SEGMENTS_TAG (tags read)) as [tag|]; simpl; [|done].
    split; [done|]. intros H. exfalso.
    destruct (py_map_m _ (py_split "|" tag)) as [segs|e] eqn:Hm; simpl in H; [done|].
    apply py_map_m_error with (e0 := TagFormatError) in Hm; [congruence|].
    intros tok e'. destruct (from_tag tok); congruence.
  - intros tag ->. done.
  - intros tokens segs Hne Hfree Hdec ->. simpl.
    rewrite (py_split_join "|" tokens) by done.
    rewrite (py_map_m_Forall2 _ tokens segs); [done|].
    eapply Forall2_impl; [exact Hdec|]. intros t s ->. done.
Qed.

(** ** The array element writer *)

Lemma py_slice_length_eq {A B} (l : list A) (k : list B) (a b : option Z) :
  py_len l = py_len k → py_len (py_slice l a b) = py_len (py_slice k a b).
Proof.
  unfold py_slice, py_len. intros H%Nat2Z.inj.
  by rewrite !length_take, !length_drop, H.
Qed.

Lemma get_query_sequence_Some (read : AlignedSegment) :
  query_sequence read ≠ [] → get_query_sequence read = Some (query_sequence read).
Proof. unfold get_query_sequence. by destruct (query_sequence read). Qed.

Lemma get_query_sequence_None (read : AlignedSegment) :
  query_sequence read = [] → get_query_sequence read = None.
Proof. unfold get_query_sequence. by intros ->. Qed.

Lemma set_query_qualities_ok (n : Z) (qual : list Z) :
  py_len qual = n →
  ∃ stored, set_query_qualities n qual = Ok stored ∧ default [] stored = qual.
Proof.
  intros Hn. unfold set_query_qualities. destruct qual as [|q qual]; [by exists None|].
  rewrite Hn, Z.eqb_refl. by eexists.
Qed.

(** The calls that raise nothing: the read has bases and alignment qualities,
    the name is not too long, and the qualities sliced are none or as many as the
    bases sliced. *)
Lemma split_array_element_returns (c : ElementCall) (read : AlignedSegment)
    (quals : list Z) :
  Z.of_nat (String.length (element_name c read)) ≤ 254 →
  query_sequence read ≠ [] →
  query_alignment_qualities read = Some quals →
  py_len quals = py_len (query_sequence read) →
  split_array_element_raises c read = Ok ().
Proof.
  intros Hname Hbases Hquals Hlen. unfold split_array_element_raises, set_query_name.
  destruct (Z.ltb_spec 254 (Z.of_nat (String.length (element_name c read)))); [lia|].
  rewrite (get_query_sequence_Some _ Hbases), Hquals. cbn [py_bind py_not_none].
  destruct (set_query_qualities_ok (py_len (element_bases c read))
              (element_qualities c read)) as (stored & -> & _); [|done].
  unfold element_qualities, element_bases. rewrite Hquals.
  by apply py_slice_length_eq.
Qed.

(** C4, as the code has it. For a read that has bases and whose alignment
    qualities are its base qualities, one for every base (a read that is not
    soft-clipped), and for a call whose record name has at most 254 characters,
    one call of [_write_split_array_element] appends exactly one record. Its name
    is {source_name}_{start_coord}-{end_coord}_{prev_delimiter}-{delimiter}; its
    sequence and its qualities are the slices [start_coord:end_coord+1] of the
    bases and of the base qualities of the source read, which for a non-negative
    start hold the bases and the qualities at the indices start_coord..end_coord
    inclusive; the source tags other than the segment tag are kept as they are;
    the flag is 4 (the unmapped bit) and the mapping quality is 255; the segment
    tag lists, in order, exactly the segments [s] of the given list with
    seg_start_coord <= s.start <= seg_end_coord. *)
Theorem C4_write_split_array_element (SEGMENTS_TAG : string)
    (to_tag : SegmentInfo → string) (bam_out : list AlignedSegment)
    (c : ElementCall) (read : AlignedSegment) (quals : list Z) :
  Z.of_nat (String.length (element_name c read)) ≤ 254 →
  query_sequence read ≠ [] →
  query_qualities read = Some quals →
  query_alignment_qualities read = Some quals →
  py_len quals = py_len (query_sequence read) →
  ∃ a kept,
    _write_split_array_element SEGMENTS_TAG to_tag bam_out c read = Ok (bam_out ++ [a])
    ∧ query_name a
      = query_name read +:+ "_" +:+ pretty (start_coord c) +:+ "-"
          +:+ pretty (end_coord c) +:+ "_" +:+ prev_delim_name c +:+ "-" +:+ delim_name c
    ∧ query_sequence a
      = py_slice (query_sequence read) (Some (start_coord c)) (Some (end_coord c + 1))
    ∧ default [] (query_qualities a)
      = py_slice quals (Some (start_coord c)) (Some (end_coord c + 1))
    ∧ py_len (default [] (query_qualities a)) = py_len (query_sequence a)
    ∧ (0 ≤ start_coord c → -1 ≤ end_coord c →
       ∀ k : nat,
         query_sequence a !! k
         = (if decide (start_coord c + Z.of_nat k ≤ end_coord c)
            then query_sequence read !! Z.to_nat (start_coord c + Z.of_nat k)
            else None)
         ∧ default [] (query_qualities a) !! k
           = (if decide (start_coord c + Z.of_nat k ≤ end_coord c)
              then quals !! Z.to_nat (start_coord c + Z.of_nat k)
              else None))
    ∧ (∀ k, k ≠ SEGMENTS_TAG → tags_lookup k (tags a) = tags_lookup k (tags read))
    ∧ flag a = 4 ∧ Z.testbit (flag a) 2 = true
    ∧ mapping_quality a = 255
    ∧ tags_lookup SEGMENTS_TAG (tags a) = Some (py_join "," (to_tag <$> kept))
    ∧ kept `sublist_of` call_segments c
    ∧ (∀ s, s ∈ kept
            ↔ s ∈ call_segments c
              ∧ seg_start_coord c ≤ start s ∧ start s ≤ seg_end_coord c).
Proof.
  intros Hname Hbases Hbase_quals Hquals Hlen.
  exists (split_array_element SEGMENTS_TAG to_tag c read).
  exists (filter (λ s, seg_start_coord c ≤ start s ∧ start s ≤ seg_end_coord c)
                 (call_segments c)).
  assert (Hstored : default [] (query_qualities
                                  (split_array_element SEGMENTS_TAG to_tag c read))
                    = py_slice quals (Some (start_coord c)) (Some (end_coord c + 1))).
  { unfold split_array_element, element_qualities. cbn [query_qualities].
    rewrite Hquals. by destruct (py_slice quals _ _). }
  split_and!.
  - unfold _write_split_array_element.
    by rewrite (split_array_element_returns c read quals).
  - done.
  - done.
  - exact Hstored.
  - rewrite Hstored. by apply py_slice_length_eq.
  - intros Ha Hb k. rewrite Hstored. split; by apply py_slice_inclusive_lookup.
  - intros k Hk. by apply tags_lookup_set_tag_ne.
  - done.
  - done.
  - done.
  - apply tags_lookup_set_tag_eq.
  - apply sublist_filter.
  - intros s. rewrite list_elem_of_filter. tauto.
Qed.

(** C4, as stated for every call, fails on a soft-clipped read: the qualities
    are sliced from the alignment qualities, which leave out the soft-clipped
    bases. On a read of six bases with qualities 0..5 whose first two bases are
    soft-clipped, the call for the bases 0..3 writes the qualities 2..5 where the
    base qualities are 0..3, and the call for the bases 0..5 is refused with
    ValueError. On a read without qualities every call raises TypeError. In
    neither of the last two cases is a record written. *)
Lemma C4_counterexample :
  (∃ a, _write_split_array_element example_segments_tag example_to_tag []
          (example_span 0 3) example_soft_clipped_read = Ok [a]
        ∧ query_qualities a = Some [2; 3; 4; 5]
        ∧ query_sequence a = query_sequence (example_read 4 []))
  ∧ py_slice [0; 1; 2; 3; 4; 5] (Some 0) (Some (3 + 1)) = [0; 1; 2; 3]
  ∧ ¬ (∃ a, _write_split_array_element example_segments_tag example_to_tag []
              (example_span 0 3) example_soft_clipped_read = Ok [a]
            ∧ default [] (query_qualities a)
              = py_slice (default [] (query_qualities example_soft_clipped_read))
                         (Some 0) (Some (3 + 1)))
  ∧ _write_split_array_element example_segments_tag example_to_tag []
      (example_span 0 5) example_soft_clipped_read = Raise ValueError
  ∧ _write_split_array_element example_segments_tag example_to_tag []
      (example_span 0 3) example_no_qualities_read = Raise TypeError.
Proof.
  split_and!.
  - eexists. split; [reflexivity|]. by split.
  - reflexivity.
  - intros (a & Ha & Hq). vm_compute in Ha. injection Ha as <-.
    vm_compute in Hq. discriminate.
  - reflexivity.
  - reflexivity.
Qed.

(** ** The calls on the output file *)

Lemma write_calls_from (SEGMENTS_TAG : string) (to_tag : SegmentInfo → string)
    (bam_out : list AlignedSegment) (read : AlignedSegment) (calls : list ElementCall) :
  write_calls SEGMENTS_TAG to_tag bam_out read calls
  = (bam_out ++ (write_calls SEGMENTS_TAG to_tag [] read calls).1,
     (write_calls SEGMENTS_TAG to_tag [] read calls).2).
Proof.
  revert bam_out. induction calls as [|c calls IH]; intros bam_out.
  - cbn [write_calls fst snd]. by rewrite app_nil_r.
  - cbn [write_calls]. unfold _write_split_array_element.
    destruct (split_array_element_raises c read) as [[]|e]; cbn [py_bind fst snd].
    + rewrite (IH (bam_out ++ _)), (IH ([] ++ _)). cbn [fst snd app].
      by rewrite <- app_assoc.
    + by rewrite app_nil_r.
Qed.

(** The records that a run of [_write_segmented_read] adds to the output file
    are those of its calls, in order, when no call raises. *)
Lemma write_calls_records (SEGMENTS_TAG : string) (to_tag : SegmentInfo → string)
    (bam_out out : list AlignedSegment) (read : AlignedSegment)
    (calls : list ElementCall) :
  write_calls SEGMENTS_TAG to_tag bam_out read calls = (out, Ok ()) →
  out = bam_out ++ ((λ c, split_array_element SEGMENTS_TAG to_tag c read) <$> calls).
Proof.
  revert bam_out. induction calls as [|c calls IH]; intros bam_out.
  - cbn [write_calls]. intros [= <-]. by rewrite app_nil_r.
  - cbn [write_calls]. unfold _write_split_array_element.
    destruct (split_array_element_raises c read) as [[]|e]; cbn [py_bind]; [|done].
    intros H%IH. rewrite H. cbn [fmap list_fmap]. by rewrite <- app_assoc.
Qed.

Lemma write_calls_returns (SEGMENTS_TAG : string) (to_tag : SegmentInfo → string)
    (bam_out : list AlignedSegment) (read : AlignedSegment) (calls : list ElementCall) :
  Forall (λ c, split_array_element_raises c read = Ok ()) calls →
  write_calls SEGMENTS_TAG to_tag bam_out read calls
  = (bam_out ++ ((λ c, split_array_element SEGMENTS_TAG to_tag c read) <$> calls), Ok ()).
Proof.
  intros H. revert bam_out. induction H as [|c calls Hc _ IH]; intros bam_out.
  - cbn [write_calls fmap list_fmap]. by rewrite app_nil_r.
  - cbn [write_calls]. unfold _write_split_array_element. rewrite Hc. cbn [py_bind].
    rewrite IH. cbn [fmap list_fmap]. by rewrite <- app_assoc.
Qed.

(** ** Bounded-region mode on the three-label template *)

(** C3. With the single element template [L1,L2,L3], the segment list [L1,L2,L3]
    completes the template with score 6 and gives one element; the segment list
    [L1,L3] completes it through one peek-ahead jump of one label with score 3,
    and gives one element as well. *)
Theorem C3_bounded_scores (a1 b1 a2 b2 a3 b3 : Z) (keep_delimiters : bool) :
  let L1 := {| name := "L1"; start := a1; end_ := b1 |} in
  let L2 := {| name := "L2"; start := a2; end_ := b2 |} in
  let L3 := {| name := "L3"; start := a3; end_ := b3 |} in
  let template := [["L1"; "L2"; "L3"]] in
  (bounded_scan template [L1; L2; L3] (bounded_init template)
   = {| b_match_matrix := [3]; b_segments := [[L1; L2; L3]];
        b_found := [true]; b_score := [6] |}
   ∧ ∃ c, write_segmented_read_bounded template [L1; L2; L3] keep_delimiters
          = ([c], Ok 1))
  ∧ (bounded_scan template [L1; L3] (bounded_init template)
     = {| b_match_matrix := [3]; b_segments := [[L1; L3]];
          b_found := [true]; b_score := [3] |}
     ∧ peek_ahead_search ["L1"; "L2"; "L3"] L3 1 (py_range 1 (3 - 1)) = Ok (Some 1)
     ∧ bounded_entry_step ["L1"; "L2"; "L3"] L3 (1, [L1], false, match_val)
       = (3, [L1; L3], true, match_val + indel_val)
     ∧ ∃ c, write_segmented_read_bounded template [L1; L3] keep_delimiters
            = ([c], Ok 1)).
Proof.
  intros L1 L2 L3 template.
  repeat split; try reflexivity.
  - destruct keep_delimiters; eexists; reflexivity.
  - destruct keep_delimiters; eexists; reflexivity.
Qed.

(** ** Completed windows and templates are frozen *)

Lemma simple_window_step_complete d seg s e :
  simple_window_step d seg (py_len d, s, e) = (py_len d, s, e).
Proof.
  unfold simple_window_step. by rewrite py_getitem_overflow by lia.
Qed.

Lemma simple_window_run_complete d segments s e :
  simple_window_run d segments (py_len d, s, e) = (py_len d, s, e).
Proof.
  unfold simple_window_run. induction segments as [|seg segments IH]; [done|].
  cbn [foldl]. by rewrite simple_window_step_complete.
Qed.

Lemma bounded_entry_run_found d segments m l sc :
  bounded_entry_run d segments (m, l, true, sc) = (m, l, true, sc).
Proof.
  unfold bounded_entry_run. induction segments as [|seg segments IH]; done.
Qed.

Lemma simple_scan_app dl segs1 segs2 st :
  simple_scan dl (segs1 ++ segs2) st = simple_scan dl segs2 (simple_scan dl segs1 st).
Proof. unfold simple_scan. apply foldl_app. Qed.

Lemma bounded_scan_app dl segs1 segs2 st :
  bounded_scan dl (segs1 ++ segs2) st = bounded_scan dl segs2 (bounded_scan dl segs1 st).
Proof. unfold bounded_scan. apply foldl_app. Qed.

(** C8. Once window [i] of the simple mode has its counter at the length of the
    window, or template [i] of the bounded mode has its completion flag set, no
    later segment of the read changes the entries of [i]: counter, captured
    segments and (bounded mode) score are the same after any further segments. *)
Theorem C8_complete_is_frozen (delimiters : list (list string))
    (segs1 segs2 : list SegmentInfo) (i : nat) (d : list string) :
  delimiters !! i = Some d →
  (∀ s e,
     simple_window (simple_scan delimiters segs1 (simple_init delimiters)) i
     = Some (py_len d, s, e) →
     simple_window (simple_scan delimiters (segs1 ++ segs2) (simple_init delimiters)) i
     = Some (py_len d, s, e))
  ∧ (∀ m l sc,
       bounded_entry (bounded_scan delimiters segs1 (bounded_init delimiters)) i
       = Some (m, l, true, sc) →
       bounded_entry (bounded_scan delimiters (segs1 ++ segs2) (bounded_init delimiters)) i
       = Some (m, l, true, sc)).
Proof.
  intros Hd. split.
  - intros s e Hw. rewrite simple_scan_app, simple_window_scan, Hd, Hw. simpl.
    by rewrite simple_window_run_complete.
  - intros m l sc Hw. rewrite bounded_scan_app, bounded_entry_scan, Hd, Hw. simpl.
    by rewrite bounded_entry_run_found.
Qed.

(** ** Simple mode: the delimiter windows *)

Lemma simple_delimiters_rest (dl : list (list string)) (k : Z) (more : list (list string)) :
  2 ≤ k →
  foldl
    (λ (acc : PyResult (list (list string))) '(i, structure),
       do delimiters <- acc;
       if i =? 1 then
         do d0 <- py_getitem delimiters 0;
         Ok (<[0%nat := d0 ++ py_slice structure (Some 0) (Some num_required_delimiters)]>
               delimiters)
       else
         Ok (delimiters ++ [py_slice structure (Some 0) (Some num_required_delimiters)]))
    (Ok dl) (py_enumerate k more)
  = Ok (dl ++ ((λ t, py_slice t (Some 0) (Some num_required_delimiters)) <$> more)).
Proof.
  revert dl k. induction more as [|t more IH]; intros dl k Hk.
  - simpl. by rewrite app_nil_r.
  - cbn [py_enumerate foldl py_bind].
    destruct (Z.eqb_spec k 1); [lia|].
    rewrite IH by lia. by rewrite <- app_assoc.
Qed.

Lemma simple_delimiters_cons (t0 : list string) (rest : list (list string)) :
  simple_delimiters (t0 :: rest)
  = Ok match rest with
       | [] => [py_slice t0 (Some (- num_required_delimiters)) None]
       | t1 :: more =>
           (py_slice t0 (Some (- num_required_delimiters)) None
              ++ py_slice t1 (Some 0) (Some num_required_delimiters))
             :: ((λ t, py_slice t (Some 0) (Some num_required_delimiters)) <$> more)
       end.
Proof.
  unfold simple_delimiters.
  rewrite (py_getitem_ok _ 0 t0) by done. cbn [py_bind].
  change (py_slice (t0 :: rest) (Some 1) None)
    with (py_slice (t0 :: rest) (Some (Z.of_nat 1)) None).
  rewrite (py_slice_tail (t0 :: rest) 1).
  change (drop 1 (t0 :: rest)) with rest.
  destruct rest as [|t1 more]; [done|].
  cbn [py_enumerate foldl]. cbn beta iota. cbn [py_bind].
  change (1 =? 1) with true. cbv iota.
  rewrite (py_getitem_ok _ 0 (py_slice t0 (Some (- num_required_delimiters)) None)) by done.
  cbn [py_bind]. change (1 + 1) with 2.
  rewrite simple_delimiters_rest by lia. done.
Qed.

(** ** Simple mode: shape of the state *)

Lemma simple_lengths_body n dl seg st j :
  simple_lengths n st → simple_lengths n (simple_body dl seg st j).
Proof.
  intros (H1 & H2 & H3). unfold simple_body.
  destruct (dl !! j); [|done].
  destruct (simple_window st j) as [w|]; [|done].
  destruct (simple_window_step l seg w) as [[m s] e].
  unfold simple_lengths. simpl. by rewrite !length_insert.
Qed.

Lemma simple_lengths_scan n dl segments st :
  simple_lengths n st → simple_lengths n (simple_scan dl segments st).
Proof.
  unfold simple_scan. revert st.
  induction segments as [|seg segments IH]; intros st Hst; [done|].
  cbn [foldl]. apply IH.
  generalize (seq 0 (length (s_match_matrix st))). intros js.
  revert st Hst. induction js as [|j js IHj]; intros st Hst; [done|].
  cbn [foldl]. apply IHj. by apply simple_lengths_body.
Qed.

Lemma simple_lengths_init dl : simple_lengths (length dl) (simple_init dl).
Proof. unfold simple_lengths, simple_init. simpl. by rewrite !length_fmap. Qed.

Lemma simple_window_of_end n st j e :
  simple_lengths n st →
  s_end_segment_tuples st !! j = Some e →
  ∃ m s, simple_window st j = Some (m, s, e) ∧ s_start_segments st !! j = Some s.
Proof.
  intros (H1 & H2 & H3) He. apply lookup_lt_Some in He as Hj.
  destruct (lookup_lt_is_Some_2 (s_match_matrix st) j) as [m Hm]; [lia|].
  destruct (lookup_lt_is_Some_2 (s_start_segments st) j) as [s Hs]; [lia|].
  exists m, s. unfold simple_window. by rewrite Hm, Hs, He.
Qed.

(** ** Simple mode: the boundaries that are split on *)

Lemma seg_delimiters_Forall_from
    (P : Z * option SegmentInfo * (option SegmentInfo * SegmentInfo) → Prop)
    (k : nat) (l : list (option SegmentInfo * option (option SegmentInfo * SegmentInfo))) :
  (∀ j s t, l !! j = Some (s, Some t) → P (Z.of_nat (k + j), s, t)) →
  Forall P (omap (λ '(i, (s, e)), match e with
                                  | Some t => Some (i, s, t)
                                  | None => None
                                  end)
                 (py_enumerate (Z.of_nat k) l)).
Proof.
  revert k. induction l as [|[s e] l IH]; intros k H; [constructor|].
  cbn [py_enumerate omap].
  replace (Z.of_nat k + 1) with (Z.of_nat (S k)) by lia.
  assert (Hrest : ∀ j s' t, l !! j = Some (s', Some t) → P (Z.of_nat (S k + j), s', t)).
  { intros j s' t Hj. replace (S k + j)%nat with (k + S j)%nat by lia. by apply H. }
  destruct e as [t|].
  - constructor; [|by apply IH].
    replace k with (k + 0)%nat at 1 by lia. by apply H.
  - by apply IH.
Qed.

Lemma seg_delimiters_Forall
    (P : Z * option SegmentInfo * (option SegmentInfo * SegmentInfo) → Prop)
    (st : SimpleState) :
  (∀ j s t, s_start_segments st !! j = Some s →
            s_end_segment_tuples st !! j = Some (Some t) → P (Z.of_nat j, s, t)) →
  Forall P (simple_seg_delimiters st).
Proof.
  intros H. unfold simple_seg_delimiters.
  apply (seg_delimiters_Forall_from P 0). intros j s t Hj.
  apply lookup_zip_with_Some in Hj as (s' & e' & [= <- <-] & Hs & He).
  by apply H.
Qed.

Lemma seg_delimiters_length_from (k : Z)
    (starts : list (option SegmentInfo))
    (ends : list (option (option SegmentInfo * SegmentInfo))) :
  length starts = length ends →
  length (omap (λ '(i, (s, e)), match e with
                                | Some t => Some (i, s, t)
                                | None => None
                                end)
               (py_enumerate k (zip starts ends)))
  = length (filter (λ e, is_Some e) ends).
Proof.
  revert k ends. induction starts as [|s starts IH]; intros k [|e ends] Hlen;
    try done.
  cbn [zip_with py_enumerate omap]. rewrite filter_cons.
  injection Hlen as Hlen.
  destruct e as [t|].
  - rewrite decide_True by done. simpl. f_equal. by apply IH.
  - rewrite decide_False by (by intros [? ?]). simpl. by apply IH.
Qed.

Lemma py_sort_insert_perm {A} (key : A → Z) (x : A) (l : list A) :
  py_sort_insert key x l ≡ₚ x :: l.
Proof.
  induction l as [|y l IH]; [done|]. simpl.
  destruct (key x <=? key y); [done|].
  rewrite IH. apply Permutation_swap.
Qed.

Lemma py_sort_perm {A} (key : A → Z) (l : list A) : py_sort key l ≡ₚ l.
Proof.
  unfold py_sort. induction l as [|x l IH]; [done|].
  simpl. rewrite py_sort_insert_perm. by rewrite IH.
Qed.


(** ** Simple mode: what the scan maintains *)

Lemma py_getitem_Ok_range {A} (l : list A) (i : Z) (x : A) :
  0 ≤ i → py_getitem l i = Ok x → i < py_len l.
Proof.
  intros Hi. unfold py_getitem.
  destruct (Z.ltb_spec i 0); [lia|].
  destruct (Z.ltb_spec i 0); [lia|].
  destruct (Z.leb_spec (py_len l) i); [done|lia].
Qed.

Lemma simple_window_ok_step d seg w :
  simple_window_ok d w → simple_window_ok d (simple_window_step d seg w).
Proof.
  destruct w as [[m s] e]. intros (Hm & Hs & He). unfold simple_window_step.
  destruct (py_getitem d m) as [label|] eqn:Hget; [|done].
  apply py_getitem_Ok_range in Hget as Hlt; [|done].
  destruct (String.eqb (name seg) label); [|by split_and!].
  assert (Hst : m + 1 ≠ 0 → is_Some (if m =? 0 then Some seg else s)).
  { intros _. destruct (Z.eqb_spec m 0); [done|]. by apply Hs. }
  split_and!; [lia|done|].
  intros a y. destruct (Z.eqb_spec (m + 1) (py_len d)).
  - intros [= <- <-]. split_and!; [done|done|]. apply Hst. lia.
  - intros ->. destruct (He a y eq_refl) as (? & _). lia.
Qed.

Lemma simple_window_ok_run d segments w :
  simple_window_ok d w → simple_window_ok d (simple_window_run d segments w).
Proof.
  unfold simple_window_run. revert w.
  induction segments as [|seg segments IH]; intros w Hw; [done|].
  cbn [foldl]. apply IH. by apply simple_window_ok_step.
Qed.

Lemma simple_scan_window dl segments j w :
  simple_window (simple_scan dl segments (simple_init dl)) j = Some w →
  ∃ d, dl !! j = Some d ∧ w = simple_window_run d segments (0, None, None).
Proof.
  rewrite simple_window_scan.
  destruct (dl !! j) as [d|] eqn:Hd.
  - rewrite (simple_window_init dl j d Hd). simpl. intros [= <-]. by exists d.
  - by rewrite simple_window_init_None.
Qed.

Lemma simple_scan_boundaries dl segments :
  Forall (λ b, ∃ y, match b with
                    | (i, Some seg, t) => Ok (i, seg, t)
                    | (_, None, _) => Raise AttributeError
                    end = Ok y ∧ boundary_ok dl y)
         (simple_seg_delimiters (simple_scan dl segments (simple_init dl))).
Proof.
  set (st := simple_scan dl segments (simple_init dl)).
  assert (Hlen : simple_lengths (length dl) st).
  { apply simple_lengths_scan, simple_lengths_init. }
  apply seg_delimiters_Forall. intros j s [a y] Hs He.
  destruct (simple_window_of_end _ _ _ _ Hlen He) as (m & s' & Hw & Hs').
  rewrite Hs in Hs'. injection Hs' as <-.
  destruct (simple_scan_window _ _ _ _ Hw) as (d & Hd & Hrun).
  assert (Hok : simple_window_ok d (m, s, Some (a, y))).
  { rewrite Hrun. apply simple_window_ok_run. by split_and!. }
  destruct Hok as (_ & _ & Hend).
  destruct (Hend a y eq_refl) as (_ & -> & [x ->]).
  eexists. split; [done|]. split; [|done]. simpl.
  apply lookup_lt_Some in Hd. unfold py_len. lia.
Qed.

Lemma simple_sorted_ok dl segments :
  ∃ sorted,
    simple_sorted (simple_scan dl segments (simple_init dl)) = Ok sorted
    ∧ Forall (boundary_ok dl) sorted
    ∧ length sorted
      = length (filter (λ e, is_Some e)
                  (s_end_segment_tuples (simple_scan dl segments (simple_init dl)))).
Proof.
  unfold simple_sorted.
  destruct (py_map_m_Forall _ _ _ (simple_scan_boundaries dl segments))
    as (keyed & Hk & HQ & Hlen).
  match goal with
  | H : py_map_m ?f _ = _ |- context [py_map_m ?g _] => change g with f; rewrite H
  end.
  eexists. split; [done|]. split.
  - by rewrite py_sort_perm.
  - rewrite py_sort_perm, Hlen. unfold simple_seg_delimiters.
    apply seg_delimiters_length_from.
    destruct (simple_lengths_scan (length dl) dl segments (simple_init dl)
                (simple_lengths_init dl)) as (_ & -> & ->). done.
Qed.

Lemma simple_emit_ok keep dl segments sd cur prev :
  Forall (boundary_ok dl) sd →
  ∃ cs prev',
    simple_emit keep dl segments sd cur prev
    = (cs, Ok (last_boundary_index keep sd cur, prev'))
    ∧ length cs = length sd.
Proof.
  intros Hsd. revert cur prev.
  induction Hsd as [|[[di s] [a e]] sd [Hdi Ha] _ IH]; intros cur prev.
  - by exists [], prev.
  - simpl in Hdi, Ha. subst a. cbn [simple_emit].
    destruct (py_getitem_in_range dl di Hdi) as (d & -> & _).
    cbn [fst snd].
    assert (Hnext : ∃ cur', (if keep then Ok (start s) else Ok (end_ e + 1)) = Ok cur'
              ∧ cur' = (if keep then start s else end_ e + 1)).
    { destruct keep; eauto. }
    destruct Hnext as (cur' & Hnext & Hcur').
    destruct (IH cur' (py_join "/" d)) as (cs & prev' & Hrec & Hlen).
    rewrite Hnext, Hrec.
    assert (last_boundary_index keep ((di, s, (Some s, e)) :: sd) cur
            = last_boundary_index keep sd cur') as ->.
    { unfold last_boundary_index. rewrite Hcur'.
      destruct sd as [|b sd]; [done|]. rewrite last_cons_cons.
      destruct (last (b :: sd)) eqn:E; [done|]. by apply last_None in E. }
    eexists _, prev'. split; [done|]. simpl. by rewrite Hlen.
Qed.

(** ** Simple mode on the segment list [A,B,x,x,Y,Z] *)







(** ** Bounded mode: shape of the state *)

Lemma bounded_lengths_body n dl seg st j :
  bounded_lengths n st → bounded_lengths n (bounded_body dl seg st j).
Proof.
  intros (H1 & H2 & H3 & H4). unfold bounded_body.
  destruct (dl !! j); [|done].
  destruct (bounded_entry st j) as [w|]; [|done].
  destruct (bounded_entry_step l seg w) as [[[m l'] f] sc].
  unfold bounded_lengths. simpl. by rewrite !length_insert.
Qed.

Lemma bounded_lengths_scan n dl segments st :
  bounded_lengths n st → bounded_lengths n (bounded_scan dl segments st).
Proof.
  unfold bounded_scan. revert st.
  induction segments as [|seg segments IH]; intros st Hst; [done|].
  cbn [foldl]. apply IH.
  generalize (seq 0 (length (b_match_matrix st))). intros js.
  revert st Hst. induction js as [|j js IHj]; intros st Hst; [done|].
  cbn [foldl]. apply IHj. by apply bounded_lengths_body.
Qed.

Lemma bounded_lengths_init dl : bounded_lengths (length dl) (bounded_init dl).
Proof. unfold bounded_lengths, bounded_init. simpl. by rewrite !length_fmap. Qed.

Lemma bounded_scan_entry dl segments j w :
  bounded_entry (bounded_scan dl segments (bounded_init dl)) j = Some w →
  ∃ d, dl !! j = Some d ∧ w = bounded_entry_run d segments (0, [], false, 0).
Proof.
  rewrite bounded_entry_scan.
  destruct (dl !! j) as [d|] eqn:Hd.
  - rewrite (bounded_entry_init dl j d Hd). simpl. intros [= <-]. by exists d.
  - unfold bounded_entry, bounded_init. simpl. by rewrite !list_lookup_fmap, Hd.
Qed.

Lemma bounded_entry_of_zip n st j l f :
  bounded_lengths n st →
  zip (b_segments st) (b_found st) !! j = Some (l, f) →
  ∃ m sc, bounded_entry st j = Some (m, l, f, sc).
Proof.
  intros (H1 & H2 & H3 & H4) Hz.
  apply lookup_zip_with_Some in Hz as (l' & f' & [= <- <-] & Hl & Hf).
  apply lookup_lt_Some in Hl as Hj.
  destruct (lookup_lt_is_Some_2 (b_match_matrix st) j) as [m Hm]; [lia|].
  destruct (lookup_lt_is_Some_2 (b_score st) j) as [sc Hsc]; [lia|].
  exists m, sc. unfold bounded_entry. by rewrite Hm, Hl, Hf, Hsc.
Qed.

(** ** Bounded mode: what the scan maintains *)

Lemma elem_of_py_range (a b p : Z) : p ∈ py_range a b → a ≤ p < b.
Proof.
  unfold py_range. intros Hp.
  apply list_elem_of_fmap in Hp as (k & -> & Hk).
  apply elem_of_seq in Hk. lia.
Qed.

Lemma peek_ahead_search_ok d seg m peeks :
  Forall (λ p, 0 ≤ m + p < py_len d) peeks →
  ∃ r, peek_ahead_search d seg m peeks = Ok r ∧ ∀ p, r = Some p → p ∈ peeks.
Proof.
  induction 1 as [|p peeks Hp _ (r & Hr & Hin)].
  - by exists None.
  - cbn [peek_ahead_search].
    destruct (py_getitem_in_range d (m + p) Hp) as (label & -> & _). cbn [py_bind].
    destruct (String.eqb (name seg) label).
    + exists (Some p). split; [done|]. intros ? [= <-]. apply list_elem_of_here.
    + exists r. split; [done|]. intros q Hq. apply list_elem_of_further. by apply Hin.
Qed.



(** ** Bounded mode: writing the completed templates *)



Lemma bounded_element_error keep l e :
  bounded_element keep l = Raise e → e = IndexError.
Proof.
  unfold bounded_element.
  destruct (py_getitem l 0) eqn:H0; cbn [py_bind];
    [|intros [= <-]; by eapply py_getitem_error].
  destruct (py_getitem l (-1)) eqn:H1; cbn [py_bind];
    [|intros [= <-]; by eapply py_getitem_error].
  destruct keep; cbn [py_bind]; [done|].
  destruct (py_getitem l 1) eqn:H2; cbn [py_bind];
    [|intros [= <-]; by eapply py_getitem_error].
  destruct (py_getitem l (-2)) eqn:H3; cbn [py_bind];
    [done|intros [= <-]; by eapply py_getitem_error].
Qed.


Lemma bounded_emit_error keep entries cs e :
  bounded_emit keep entries = (cs, Raise e) → e = IndexError.
Proof.
  revert cs. induction entries as [|[l f] entries IH]; intros cs; [done|].
  cbn [bounded_emit]. destruct f; [|apply IH].
  destruct (bounded_element keep l) as [c|e'] eqn:Hc.
  - destruct (bounded_emit keep entries) as [cs' r] eqn:Hrec.
    intros [= <- ->]. by eapply IH.
  - intros [= <- <-]. by eapply bounded_element_error.
Qed.

Lemma bounded_emit_raises keep entries j l :
  entries !! j = Some (l, true) →
  bounded_element keep l = Raise IndexError →
  ∃ cs, bounded_emit keep entries = (cs, Raise IndexError).
Proof.
  revert j. induction entries as [|[l' f] entries IH]; intros j Hj Hl; [done|].
  cbn [bounded_emit]. destruct j as [|j].
  - injection Hj as -> ->. rewrite Hl. by eexists.
  - simpl in Hj. destruct (IH j Hj Hl) as (cs & Hcs).
    destruct f; [|by eexists].
    destruct (bounded_element keep l') as [c|e] eqn:Hc.
    + rewrite Hcs. by eexists.
    + apply bounded_element_error in Hc as ->. by eexists.
Qed.

(** ** Bounded mode: return value *)




(** ** Well-formed segment lists *)

Lemma ordered_from_snoc lo0 lo l seg :
  ordered_from lo0 l →
  Forall (λ s, end_ s < lo) l →
  lo0 ≤ start seg → lo ≤ start seg → start seg ≤ end_ seg →
  ordered_from lo0 (l ++ [seg]).
Proof.
  revert lo0. induction l as [|s l IH]; intros lo0 Hord Hall H0 Hlo Hseg.
  - simpl. by split_and!.
  - destruct Hord as (H1 & H2 & Hord). apply Forall_cons in Hall as [Hs Hall].
    simpl. split_and!; [done|done|]. apply IH; [done|done|lia|done|done].
Qed.

Lemma ordered_from_weaken lo lo' l : lo' ≤ lo → ordered_from lo l → ordered_from lo' l.
Proof. destruct l as [|s l]; [done|]. simpl. intros ? (? & ? & ?). split_and!; [lia|done|done]. Qed.

Lemma ordered_from_lookup lo l i j a b :
  ordered_from lo l → l !! i = Some a → l !! j = Some b → (i ≤ j)%nat →
  lo ≤ start a ∧ start a ≤ end_ a ∧ end_ a ≤ end_ b
  ∧ ((i < j)%nat → end_ a < start b).
Proof.
  revert lo i j. induction l as [|s l IH]; intros lo i j Hord Hi Hj Hij; [done|].
  destruct Hord as (H1 & H2 & Hord).
  destruct i as [|i].
  - injection Hi as <-. destruct j as [|j].
    + injection Hj as <-. split_and!; [done|done|lia|lia].
    + simpl in Hj.
      assert (Hb : end_ s + 1 ≤ start b ∧ start b ≤ end_ b).
      { clear IH Hij H1 H2. revert j Hj Hord. generalize (end_ s + 1).
        induction l as [|s' l IHl]; intros lo' j Hj Hord; [done|].
        destruct Hord as (? & ? & Hord). destruct j as [|j].
        - injection Hj as <-. lia.
        - simpl in Hj. destruct (IHl _ _ Hj Hord). lia. }
      split_and!; [done|done|lia|lia].
  - destruct j as [|j]; [lia|]. simpl in Hi, Hj.
    destruct (IH _ i j Hord Hi Hj) as (Hlo & Ha & Hab & Hlt); [lia|].
    split_and!; [lia|done|done|]. intros ?. apply Hlt. lia.
Qed.

Lemma ordered_run_invariant {W} (step : SegmentInfo → W → W) (Inv : Z → W → Prop) (n : Z) :
  (∀ lo seg w,
     0 ≤ lo → lo ≤ start seg → start seg ≤ end_ seg → end_ seg ≤ n - 1 →
     Inv lo w → Inv (end_ seg + 1) (step seg w)) →
  ∀ segments lo w,
    0 ≤ lo → ordered_from lo segments → Forall (λ s, end_ s ≤ n - 1) segments →
    Inv lo w →
    ∃ lo', 0 ≤ lo' ∧ Inv lo' (foldl (λ w seg, step seg w) w segments).
Proof.
  intros Hstep. induction segments as [|seg segments IH]; intros lo w Hlo Hord Hn Hw.
  - by exists lo.
  - destruct Hord as (H1 & H2 & Hord). apply Forall_cons in Hn as [Hseg Hn].
    cbn [foldl]. apply (IH (end_ seg + 1)); [lia|done|done|].
    by apply (Hstep lo).
Qed.

(** ** Bounded mode: the captured segments are in read order *)

Lemma bounded_entry_step_segments d seg w :
  (bounded_entry_step d seg w).1.1.2 = w.1.1.2
  ∨ (bounded_entry_step d seg w).1.1.2 = w.1.1.2 ++ [seg]
  ∨ (bounded_entry_step d seg w).1.1.2 = [].
Proof.
  destruct w as [[[m l] f] sc]. unfold bounded_entry_step.
  destruct f; [by left|].
  destruct (py_getitem d m) as [label|]; [|by left].
  destruct (String.eqb (name seg) label); [right; by left|].
  destruct (negb (m =? 0)); [|right; by right].
  destruct (peek_ahead_search d seg m (py_range 1 (py_len d - m))) as [[p|]|];
    [right; by left|right; by right|by left].
Qed.

Lemma bounded_entry_ordered_step n d lo seg w :
  0 ≤ lo → lo ≤ start seg → start seg ≤ end_ seg → end_ seg ≤ n - 1 →
  bounded_entry_ordered n lo w →
  bounded_entry_ordered n (end_ seg + 1) (bounded_entry_step d seg w).
Proof.
  intros Hlo H1 H2 H3 [Hord Hall]. unfold bounded_entry_ordered.
  assert (Hall' : Forall (λ s, end_ s < end_ seg + 1 ∧ end_ s ≤ n - 1) w.1.1.2).
  { eapply Forall_impl; [exact Hall|]. simpl. intros s [? ?]. lia. }
  destruct (bounded_entry_step_segments d seg w) as [->|[->| ->]].
  - done.
  - split.
    + apply (ordered_from_snoc 0 lo); [done| |lia|done|done].
      eapply Forall_impl; [exact Hall|]. simpl. intros s [? ?]. done.
    + apply Forall_app. split; [done|]. apply Forall_singleton. lia.
  - by split.
Qed.

Lemma bounded_scan_ordered n dl segments j m l f sc :
  well_formed_segments n segments →
  bounded_entry (bounded_scan dl segments (bounded_init dl)) j = Some (m, l, f, sc) →
  ordered_from 0 l ∧ Forall (λ s, end_ s ≤ n - 1) l.
Proof.
  intros [Hord Hn] Hw.
  destruct (bounded_scan_entry _ _ _ _ Hw) as (d & Hd & Hrun).
  destruct (ordered_run_invariant (bounded_entry_step d) (bounded_entry_ordered n) n)
    with (segments := segments) (lo := 0) (w := ((0, [], false, 0) : BoundedEntry))
    as (lo' & _ & Hinv).
  - intros lo seg w ? ? ? ? ?. by apply (bounded_entry_ordered_step n d lo).
  - done.
  - done.
  - done.
  - by split.
  - unfold bounded_entry_run in Hrun. rewrite <- Hrun in Hinv.
    destruct Hinv as [H1 H2]. split; [done|].
    eapply Forall_impl; [exact H2|]. simpl. intros s [? ?]. done.
Qed.

(** ** Bounded mode without keep-delimiters: fewer than three captured segments *)

(** C7. In bounded-region mode with keep-delimiters off, a template marked
    complete with fewer than two captured segments makes the output raise
    IndexError; one marked complete with exactly two captured segments [a; b] is
    written with start_coord = b.start and end_coord = a.end, and for segments in
    read order this gives start_coord > end_coord and an empty sequence. *)
Theorem C7_bounded_short_capture (SEGMENTS_TAG : string) (to_tag : SegmentInfo → string)
    (array_element_structure : list (list string)) (read : AlignedSegment)
    (segments : list SegmentInfo) (i : nat) (seg_list : list SegmentInfo) :
  let st := bounded_scan array_element_structure segments
                         (bounded_init array_element_structure) in
  b_segments st !! i = Some seg_list →
  b_found st !! i = Some true →
  (py_len seg_list < 2 →
   bounded_element false seg_list = Raise IndexError
   ∧ ∃ cs, write_segmented_read_bounded array_element_structure segments false
           = (cs, Raise IndexError))
  ∧ (∀ a b,
       seg_list = [a; b] →
       ∃ c, bounded_element false seg_list = Ok c
            ∧ start_coord c = start b
            ∧ end_coord c = end_ a
            ∧ (well_formed_segments (py_len (query_sequence read)) segments →
               end_coord c < start_coord c
               ∧ query_sequence (split_array_element SEGMENTS_TAG to_tag c read) = [])).
Proof.
  intros st Hl Hf. split.
  - intros Hshort.
    assert (Hraise : bounded_element false seg_list = Raise IndexError).
    { destruct seg_list as [|a [|b l]]; [done|done|].
      unfold py_len in Hshort. simpl in Hshort. lia. }
    split; [done|].
    assert (Hz : zip (b_segments st) (b_found st) !! i = Some (seg_list, true)).
    { apply lookup_zip_with_Some. by exists seg_list, true. }
    destruct (bounded_emit_raises false _ _ _ Hz Hraise) as (cs & Hcs).
    exists cs. unfold write_segmented_read_bounded. fold st. by rewrite Hcs.
  - intros a b ->. eexists. split; [reflexivity|]. cbn [start_coord end_coord].
    split_and!; [done|done|]. intros Hwf.
    assert (Hlen : bounded_lengths (length array_element_structure) st).
    { apply bounded_lengths_scan, bounded_lengths_init. }
    assert (Hz : zip (b_segments st) (b_found st) !! i = Some ([a; b], true)).
    { apply lookup_zip_with_Some. by exists [a; b], true. }
    destruct (bounded_entry_of_zip _ _ _ _ _ Hlen Hz) as (m & sc & Hw).
    destruct (bounded_scan_ordered _ _ _ _ _ _ _ _ Hwf Hw) as [Hord _].
    destruct Hord as (H0 & H1 & H2 & H3 & _).
    split; [lia|]. unfold split_array_element, element_bases.
    cbn [query_sequence start_coord end_coord].
    apply py_slice_empty; lia.
Qed.

(** ** Sorting *)

Lemma py_sort_insert_sorted {A} (key : A → Z) (x : A) (l : list A) :
  StronglySorted (λ a b, key a ≤ key b) l →
  StronglySorted (λ a b, key a ≤ key b) (py_sort_insert key x l).
Proof.
  induction 1 as [|y l Hl IH Hy]; simpl.
  - repeat constructor.
  - destruct (Z.leb_spec (key x) (key y)).
    + constructor; [by constructor|].
      constructor; [done|]. eapply Forall_impl; [exact Hy|]. simpl. intros; lia.
    + constructor; [done|]. rewrite py_sort_insert_perm.
      constructor; [lia|done].
Qed.

Lemma py_sort_sorted {A} (key : A → Z) (l : list A) :
  StronglySorted (λ a b, key a ≤ key b) (py_sort key l).
Proof.
  unfold py_sort. induction l as [|x l IH]; simpl; [constructor|].
  by apply py_sort_insert_sorted.
Qed.

Lemma StronglySorted_weaken {A} (R R' : A → A → Prop) (l : list A) :
  (∀ x y, R x y → R' x y) → StronglySorted R l → StronglySorted R' l.
Proof.
  intros HR. induction 1 as [|x l _ IH Hx]; constructor; [done|].
  eapply Forall_impl; [exact Hx|]. apply HR.
Qed.






(** ** Simple mode: return value and final element *)



(** ** Simple mode: coordinates of the boundaries *)

Lemma simple_window_coords_step n d lo seg w :
  0 ≤ lo → lo ≤ start seg → start seg ≤ end_ seg → end_ seg ≤ n - 1 →
  simple_window_ok d w ∧ simple_window_coords n lo w →
  simple_window_ok d (simple_window_step d seg w)
  ∧ simple_window_coords n (end_ seg + 1) (simple_window_step d seg w).
Proof.
  intros Hlo H1 H2 H3 [Hok Hco]. split; [by apply simple_window_ok_step|].
  destruct w as [[m s] e]. destruct Hok as (Hm & Hs & He). destruct Hco as [Hcs Hce].
  unfold simple_window_step.
  destruct (py_getitem d m) as [label|] eqn:Hget.
  - apply py_getitem_Ok_range in Hget as Hlt; [|done].
    assert (e = None) as ->.
    { destruct e as [[a y]|]; [|done]. destruct (He a y eq_refl). lia. }
    destruct (String.eqb (name seg) label); [|by split].
    assert (Hst : ∀ x, (if m =? 0 then Some seg else s) = Some x →
                       0 ≤ start x ∧ start x < end_ seg + 1 ∧ start x ≤ n - 1).
    { intros x. destruct (m =? 0).
      - intros [= <-]. lia.
      - intros Hx. destruct (Hcs x Hx). lia. }
    split; [done|].
    intros a y x. destruct (m + 1 =? py_len d); [|done].
    intros [= <- <-] Hx. destruct (Hst x Hx). lia.
  - split.
    + intros x Hx. destruct (Hcs x Hx). lia.
    + done.
Qed.

Lemma simple_scan_boundaries_coords n dl segments :
  well_formed_segments n segments →
  Forall (λ b, ∃ y, match b with
                    | (i, Some seg, t) => Ok (i, seg, t)
                    | (_, None, _) => Raise AttributeError
                    end = Ok y ∧ boundary_ok dl y ∧ boundary_coords n y)
         (simple_seg_delimiters (simple_scan dl segments (simple_init dl))).
Proof.
  intros [Hord Hn].
  set (st := simple_scan dl segments (simple_init dl)).
  assert (Hlen : simple_lengths (length dl) st).
  { apply simple_lengths_scan, simple_lengths_init. }
  apply seg_delimiters_Forall. intros j s [a y] Hs He.
  destruct (simple_window_of_end _ _ _ _ Hlen He) as (m & s' & Hw & Hs').
  rewrite Hs in Hs'. injection Hs' as <-.
  destruct (simple_scan_window _ _ _ _ Hw) as (d & Hd & Hrun).
  destruct (ordered_run_invariant (simple_window_step d)
              (λ lo w, simple_window_ok d w ∧ simple_window_coords n lo w) n)
    with (segments := segments) (lo := 0) (w := ((0, None, None) : SimpleWindow))
    as (lo' & _ & Hok & Hco).
  { intros lo seg w ? ? ? ? ?. by apply (simple_window_coords_step n d lo). }
  { done. }
  { done. }
  { done. }
  { split; [by split_and!|]. by split. }
  unfold simple_window_run in Hrun. rewrite <- Hrun in Hok, Hco.
  destruct Hok as (_ & _ & Hend). destruct Hco as [Hcs Hce].
  destruct (Hend a y eq_refl) as (_ & -> & [x ->]).
  destruct (Hcs x eq_refl) as (? & ? & ?).
  destruct (Hce (Some x) y x eq_refl eq_refl) as (? & ?).
  eexists. split; [done|]. split.
  - split; [|done]. simpl. apply lookup_lt_Some in Hd. unfold py_len. lia.
  - unfold boundary_coords. simpl. lia.
Qed.

Lemma simple_sorted_coords n dl segments :
  well_formed_segments n segments →
  ∃ sorted,
    simple_sorted (simple_scan dl segments (simple_init dl)) = Ok sorted
    ∧ Forall (λ b, boundary_ok dl b ∧ boundary_coords n b) sorted
    ∧ StronglySorted (λ a b, start a.1.2 ≤ start b.1.2) sorted.
Proof.
  intros Hwf. unfold simple_sorted.
  destruct (py_map_m_Forall _ _ _ (simple_scan_boundaries_coords n dl segments Hwf))
    as (keyed & Hk & HQ & Hlen).
  match goal with
  | H : py_map_m ?f _ = _ |- context [py_map_m ?g _] => change g with f; rewrite H
  end.
  eexists. split; [done|]. split.
  - by rewrite py_sort_perm.
  - eapply StronglySorted_weaken; [|apply py_sort_sorted].
    intros [[? ?] ?] [[? ?] ?]. done.
Qed.

Lemma simple_emit_contained dl segments read sd cur prev :
  Forall (λ b, boundary_ok dl b ∧ boundary_coords (py_len (query_sequence read)) b) sd →
  StronglySorted (λ a b, start a.1.2 ≤ start b.1.2) sd →
  0 ≤ cur → cur ≤ py_len (query_sequence read) - 1 →
  Forall (λ b, cur ≤ start b.1.2) sd →
  Forall (element_contained read) (simple_emit true dl segments sd cur prev).1
  ∧ 0 ≤ last_boundary_index true sd cur
  ∧ last_boundary_index true sd cur ≤ py_len (query_sequence read) - 1.
Proof.
  intros Hsd. revert cur prev.
  induction Hsd as [|[[di s] [a e]] sd [[Hdi Ha] Hco] _ IH];
    intros cur prev Hsorted Hcur0 Hcur1 Hcur.
  - simpl. by split_and!.
  - simpl in Hdi, Ha. subst a. unfold boundary_coords in Hco. simpl in Hco.
    apply StronglySorted_inv in Hsorted as [Hsorted Hhead].
    apply Forall_cons in Hcur as [Hcur_s _]. simpl in Hcur_s.
    cbn [simple_emit].
    destruct (py_getitem_in_range dl di Hdi) as (d & -> & _). cbn [fst snd].
    destruct (IH (start s) (py_join "/" d)) as (Hcs & Hlo & Hhi);
      [done|lia|lia|done|].
    destruct (simple_emit true dl segments sd (start s) (py_join "/" d)) as [cs r].
    assert (last_boundary_index true ((di, s, (Some s, e)) :: sd) cur
            = last_boundary_index true sd (start s)) as ->.
    { unfold last_boundary_index.
      destruct sd as [|b sd]; [done|]. rewrite last_cons_cons.
      destruct (last (b :: sd)) eqn:E; [done|]. by apply last_None in E. }
    split_and!; [|done|done].
    simpl. constructor; [|done].
    unfold element_contained. simpl. lia.
Qed.

(** ** Bounded mode: coordinates of the elements *)

Lemma py_getitem_Ok_lookup {A} (l : list A) (i : Z) (x : A) :
  py_getitem l i = Ok x →
  l !! Z.to_nat (if i <? 0 then i + py_len l else i) = Some x.
Proof.
  unfold py_getitem. destruct (_ || _); [done|].
  destruct (l !! _) eqn:E; [|done]. by intros [= <-].
Qed.

Lemma bounded_emit_Forall keep entries (P : ElementCall → Prop) :
  (∀ l c, (l, true) ∈ entries → bounded_element keep l = Ok c → P c) →
  Forall P (bounded_emit keep entries).1.
Proof.
  induction entries as [|[l f] entries IH]; intros HP; [constructor|].
  assert (Hrest : Forall P (bounded_emit keep entries).1).
  { apply IH. intros l' c Hin. apply HP. by apply list_elem_of_further. }
  cbn [bounded_emit]. destruct f; [|done].
  destruct (bounded_element keep l) as [c|e] eqn:Hc; [|constructor].
  destruct (bounded_emit keep entries) as [cs r]. simpl.
  constructor; [|done]. eapply HP; [apply list_elem_of_here|done].
Qed.

Lemma bounded_element_contained read l c :
  ordered_from 0 l →
  Forall (λ s, end_ s ≤ py_len (query_sequence read) - 1) l →
  bounded_element true l = Ok c →
  element_contained read c.
Proof.
  intros Hord Hn. unfold bounded_element.
  destruct (py_getitem l 0) as [x0|] eqn:H0; [|done].
  destruct (py_getitem l (-1)) as [x1|] eqn:H1; [|done].
  cbn [py_bind]. intros [= <-]. unfold element_contained. simpl.
  apply py_getitem_Ok_lookup in H0, H1. simpl in H0.
  change (-1 <? 0) with true in H1. cbv iota in H1.
  destruct (ordered_from_lookup 0 l _ _ x0 x1 Hord H0 H1) as (? & ? & ? & _); [lia|].
  pose proof (Forall_lookup_1 _ _ _ _ Hn H1) as Hx1. simpl in Hx1. lia.
Qed.

(** ** Coordinate containment *)

(** * The theorems at concrete inputs *)

Lemma example_ABYZx_well_formed :
  well_formed_segments (py_len (query_sequence (example_read 50 []))) example_ABYZx.
Proof.
  split; [simpl; lia|].
  unfold example_ABYZx.
  repeat (apply Forall_cons; split; [vm_compute; congruence|]). constructor.
Qed.

Lemma C4_witness :
  ∃ a,
    _write_split_array_element example_segments_tag example_to_tag []
      example_call (example_read 60 [("RG", "g1"); ("SG", "old")]) = Ok [a]
    ∧ query_name a = "read1_20-39_A/B-Y/Z"
    ∧ query_sequence a !! 0%nat = Some "A"%char
    ∧ query_sequence a !! 20%nat = None
    ∧ default [] (query_qualities a) !! 19%nat = Some 30
    ∧ tags_lookup "RG" (tags a) = Some "g1"
    ∧ flag a = 4 ∧ mapping_quality a = 255.
Proof.
  destruct (C4_write_split_array_element example_segments_tag example_to_tag []
              example_call (example_read 60 [("RG", "g1"); ("SG", "old")])
              (replicate 60 30))
    as (a & kept & Hout & Hname & _ & _ & _ & Hlook & Htags & Hflag & _ & Hmapq & _).
  - vm_compute. discriminate.
  - discriminate.
  - reflexivity.
  - reflexivity.
  - reflexivity.
  - exists a. split; [exact Hout|]. split; [rewrite Hname; reflexivity|].
    assert (H0 : 0 ≤ start_coord example_call) by (simpl; lia).
    assert (H1 : -1 ≤ end_coord example_call) by (simpl; lia).
    split; [rewrite (proj1 (Hlook H0 H1 0%nat)); reflexivity|].
    split; [rewrite (proj1 (Hlook H0 H1 20%nat)); reflexivity|].
    split; [rewrite (proj2 (Hlook H0 H1 19%nat)); reflexivity|].
    split; [rewrite (Htags "RG"); [reflexivity|discriminate]|].
    split; [exact Hflag|exact Hmapq].
Defined.



Lemma C7_witness :
  (∃ cs, write_segmented_read_bounded [["L1"]] [example_segment "L1" 0 9] false
         = (cs, Raise IndexError))
  ∧ (∃ c, bounded_element false example_L1_L3 = Ok c
          ∧ start_coord c = 20 ∧ end_coord c = 9
          ∧ query_sequence (split_array_element example_segments_tag example_to_tag c
                              (example_read 30 [])) = []).
Proof.
  split.
  - destruct (C7_bounded_short_capture example_segments_tag example_to_tag
                [["L1"]] (example_read 10 []) [example_segment "L1" 0 9] 0
                [example_segment "L1" 0 9] eq_refl eq_refl) as [Hshort _].
    apply Hshort. reflexivity.
  - destruct (C7_bounded_short_capture example_segments_tag example_to_tag
                example_template_L123 (example_read 30 []) example_L1_L3 0
                example_L1_L3 eq_refl eq_refl) as [_ Htwo].
    destruct (Htwo _ _ eq_refl) as (c & Hc & Hs & He & Hwf).
    exists c. split; [exact Hc|]. split; [exact Hs|]. split; [exact He|].
    apply Hwf. split; [simpl; lia|].
    unfold example_L1_L3.
    repeat (apply Forall_cons; split; [vm_compute; congruence|]). constructor.
Defined.

Lemma C8_witness :
  simple_window
    (simple_scan [["A"; "B"; "Y"; "Z"]] (example_ABYZ ++ example_ABxxYZ)
       (simple_init [["A"; "B"; "Y"; "Z"]])) 0
  = Some (4, Some (example_segment "A" 0 9),
          Some (Some (example_segment "A" 0 9), example_segment "Z" 30 39))
  ∧ bounded_entry
      (bounded_scan [["A"; "B"; "Y"; "Z"]] (example_ABYZ ++ example_ABxxYZ)
         (bounded_init [["A"; "B"; "Y"; "Z"]])) 0
    = Some (4, example_ABYZ, true, 8).
Proof.
  destruct (C8_complete_is_frozen [["A"; "B"; "Y"; "Z"]] example_ABYZ example_ABxxYZ
              0 ["A"; "B"; "Y"; "Z"] eq_refl) as [Hsimple Hbounded].
  split.
  - apply (Hsimple (Some (example_segment "A" 0 9))
             (Some (Some (example_segment "A" 0 9), example_segment "Z" 30 39))).
    reflexivity.
  - apply (Hbounded 4 example_ABYZ 8). reflexivity.
Defined.

Lemma C9_witness :
  _get_segments example_segments_tag example_from_tag example_to_string
    (example_read 20 [("SG", "A:0-9|B:10-19")])
  = Ok ("read1", [example_segment "A" 0 9; example_segment "B" 10 19])
  ∧ _get_segments example_segments_tag example_from_tag example_to_string
      (example_read 20 [("RG", "g1")])
    = Raise KeyError.
Proof.
  split.
  - destruct (C9_get_segments example_segments_tag example_from_tag example_to_string
                (example_read 20 [("SG", "A:0-9|B:10-19")])) as (_ & _ & Hdec & _).
    apply (Hdec ["A:0-9"; "B:10-19"]).
    + discriminate.
    + repeat constructor.
    + repeat constructor.
    + reflexivity.
  - destruct (C9_get_segments example_segments_tag example_from_tag example_to_string
                (example_read 20 [("RG", "g1")])) as (Hkey & _).
    apply Hkey. reflexivity.
Defined.

(** * The pipeline *)

Lemma count_if_app {A} (p : A → bool) (l1 l2 : list A) :
  count_if p (l1 ++ l2) = (count_if p l1 + count_if p l2)%nat.
Proof. induction l1 as [|x l1 IH]; simpl; [done|]. rewrite IH. lia. Qed.

Lemma count_if_insert {A} (p : A → bool) (l : list A) (i : nat) (x y : A) :
  l !! i = Some x →
  (count_if p (<[i := y]> l) + (if p x then 1 else 0)
   = count_if p l + (if p y then 1 else 0))%nat.
Proof.
  revert i. induction l as [|z l IH]; intros i Hi; [done|].
  destruct i as [|i]; simpl in *.
  - injection Hi as ->. lia.
  - specialize (IH i Hi). lia.
Qed.

Lemma count_if_replicate {A} (p : A → bool) (n : nat) (x : A) :
  count_if p (replicate n x) = if p x then n else 0%nat.
Proof. induction n as [|n IH]; simpl; [by destruct (p x)|]. rewrite IH. by destruct (p x). Qed.

Lemma count_if_snoc {A} (p : A → bool) (l : list A) (x : A) :
  count_if p (l ++ [x]) = (count_if p l + (if p x then 1 else 0))%nat.
Proof. rewrite count_if_app. simpl. lia. Qed.

Section PipelineProofs.

Context {Item Result : Type}.
Variable work : Item → option Result.
Variable consume : Result → bool.
Variable threads : nat.

Local Abbreviation step := (step work consume threads).
Local Abbreviation pipeline_inv := (pipeline_inv work consume threads).

(** Every transition uses up some of the measure. *)
Lemma step_measure (s s' : Pipeline Item Result) :
  step s s' → (pipeline_measure s' < pipeline_measure s)%nat.
Proof.
  intros Hstep.
  destruct Hstep as [x rest q ws rq o log Hcap|q ws rq o log
                    |k w q ws rq o log Hk Hjoin|k q ws rq o log Hk
                    |q ws rq o log Ho|m i raw_data q ws rq o log Hi
                    |m i q ws rq o log Hi|m i res q ws rq o log Hi
                    |m res q ws rq log|m q ws rq log];
    unfold pipeline_measure; cbn [p_main p_in_queue p_workers p_results main_rank];
    rewrite ?length_app, ?length_insert; cbn [length].
  - lia.
  - lia.
  - apply lookup_lt_Some in Hk. lia.
  - lia.
  - lia.
  - pose proof (count_if_insert worker_holds ws i WGet
                  (worker_after_get work raw_data) Hi) as Hholds.
    simpl in Hholds. destruct (worker_holds (worker_after_get work raw_data)); lia.
  - pose proof (count_if_insert worker_holds ws i WGet WReturned Hi) as Hholds.
    simpl in Hholds. lia.
  - pose proof (count_if_insert worker_holds ws i (WPut res) WGet Hi) as Hholds.
    simpl in Hholds. lia.
  - lia.
  - lia.
Qed.

Lemma nsteps_measure (n : nat) (s s' : Pipeline Item Result) :
  nsteps step n s s' → (n + pipeline_measure s' ≤ pipeline_measure s)%nat.
Proof.
  induction 1 as [|n s1 s2 s3 Hstep _ IH]; [lia|].
  apply step_measure in Hstep. lia.
Qed.

(** ** The initial state *)

Lemma pipeline_inv_init (records : list Item) :
  Forall (good_item work consume) records →
  pipeline_inv records (pipeline_init threads records).
Proof.
  intros Hgood. unfold pipeline_init. split; cbn [p_main p_in_queue p_workers p_results
    p_writer p_log pending].
  - apply length_replicate.
  - apply Forall_replicate. split; [done|]. by intros res.
  - exists records, threads. split_and!; [done| |done|by right].
    by rewrite count_if_replicate.
  - done.
  - split; [done|]. by exists [].
  - done.
  - intros i. simpl.
    destruct (replicate threads (@WGet Result) !! i) as [w|] eqn:Hw; [|done].
    apply lookup_replicate in Hw as [-> _]. done.
  - done.
  - done.
Qed.

(** ** Each part of the invariant is kept by a transition *)

Lemma input_head_item (raw : Item) (tl : list (option Item)) (rs : list Item) (j : nat) :
  Some raw :: tl = (Some <$> rs) ++ replicate j None →
  ∃ rs', rs = raw :: rs' ∧ tl = (Some <$> rs') ++ replicate j None.
Proof.
  destruct rs as [|r rs]; simpl.
  - destruct j; [done|]. simpl. done.
  - intros [= -> ->]. by exists rs.
Qed.

Lemma input_head_sentinel (tl : list (option Item)) (rs : list Item) (j : nat) :
  None :: tl = (Some <$> rs) ++ replicate j None →
  ∃ j', rs = [] ∧ j = Datatypes.S j' ∧ tl = replicate j' None.
Proof.
  destruct rs as [|r rs]; simpl; [|done].
  destruct j as [|j']; simpl; [done|]. intros [= ->]. by exists j'.
Qed.

Lemma step_inv_workers records s s' :
  pipeline_inv records s → step s s' → length (p_workers s') = threads.
Proof.
  intros Hinv Hstep. pose proof (inv_workers _ _ _ _ _ Hinv) as Hlen.
  destruct Hstep; cbn [p_workers] in *; by rewrite ?length_insert.
Qed.

Lemma step_inv_worker_ok records s s' :
  pipeline_inv records s → step s s' →
  Forall (λ w, w ≠ WRaised ∧ ∀ res, w = WPut res → consume res = true) (p_workers s').
Proof.
  intros Hinv Hstep. pose proof (inv_worker_ok _ _ _ _ _ Hinv) as Hok.
  destruct Hstep as [| | | | |m i raw q ws rq o log Hi|m i q ws rq o log Hi
                     |m i res q ws rq o log Hi| |];
    cbn [p_workers] in *; try done.
  - apply Forall_insert; [done|].
    destruct (inv_input _ _ _ _ _ Hinv) as (rs & j & Hq & _ & Hgood & _).
    cbn [p_in_queue] in Hq. rewrite <- app_comm_cons in Hq.
    apply input_head_item in Hq as (rs' & -> & _).
    apply Forall_cons in Hgood as [(res & Hres & Hc) _].
    unfold worker_after_get. rewrite Hres. split; [done|]. by intros ? [= <-].
  - apply Forall_insert; [done|]. split; [done|]. by intros res.
  - apply Forall_insert; [done|]. split; [done|]. by intros res'.
Qed.

Lemma step_inv_input records s s' :
  pipeline_inv records s → step s s' →
  ∃ rs j,
    p_in_queue s' ++ pending (p_main s') = (Some <$> rs) ++ replicate j None
    ∧ j = count_if worker_live (p_workers s')
    ∧ Forall (good_item work consume) rs
    ∧ (rs = [] ∨ j = threads).
Proof.
  intros Hinv Hstep.
  destruct (inv_input _ _ _ _ _ Hinv) as (rs & j & Hq & Hj & Hgood & Hfull).
  destruct Hstep as [x rest q ws rq o log Hcap| | | | |m i raw q ws rq o log Hi
                     |m i q ws rq o log Hi|m i res q ws rq o log Hi| |];
    cbn [p_main p_in_queue p_workers pending] in *.
  - exists rs, j. split_and!; try done. by rewrite <- app_assoc.
  - by exists rs, j.
  - by exists rs, j.
  - by exists rs, j.
  - by exists rs, j.
  - rewrite <- app_comm_cons in Hq.
    apply input_head_item in Hq as (rs' & -> & Hq).
    apply Forall_cons in Hgood as [(res & Hres & Hc) Hgood].
    exists rs', j. split_and!; [done| |done|].
    + pose proof (count_if_insert worker_live ws i WGet (worker_after_get work raw) Hi) as Hc'.
      unfold worker_after_get in *. rewrite Hres in *. simpl in Hc'. lia.
    + right. by destruct Hfull.
  - rewrite <- app_comm_cons in Hq.
    apply input_head_sentinel in Hq as (j' & -> & -> & Hq).
    exists [], j'. split_and!; [done| |done|by left].
    pose proof (count_if_insert worker_live ws i WGet WReturned Hi) as Hc'.
    simpl in Hc'. lia.
  - exists rs, j. split_and!; try done.
    pose proof (count_if_insert worker_live ws i (WPut res) WGet Hi) as Hc'.
    simpl in Hc'. lia.
  - by exists rs, j.
  - by exists rs, j.
Qed.

Lemma joined_insert (ws : list (Worker Result)) (i : nat) (w w' : Worker Result)
    (P : nat → Prop) :
  ws !! i = Some w → w ≠ WReturned →
  (∀ k, P k → ws !! k = Some WReturned) →
  ∀ k, P k → <[i := w']> ws !! k = Some WReturned.
Proof.
  intros Hi Hw Hall k Hk. rewrite list_lookup_insert_ne; [by apply Hall|].
  intros <-. specialize (Hall i Hk). congruence.
Qed.

Lemma step_inv_joined records s s' :
  pipeline_inv records s → step s s' →
  match p_main s' with
  | MFeed _ => True
  | MJoin k => ∀ i, (i < k)%nat → p_workers s' !! i = Some WReturned
  | _ => ∀ i, (i < threads)%nat → p_workers s' !! i = Some WReturned
  end.
Proof.
  intros Hinv Hstep.
  pose proof (inv_joined _ _ _ _ _ Hinv) as Hj.
  pose proof (inv_workers _ _ _ _ _ Hinv) as Hlen.
  pose proof (inv_worker_ok _ _ _ _ _ Hinv) as Hok.
  destruct Hstep as [|q ws rq o log|k w q ws rq o log Hk Hjoin|k q ws rq o log Hk
                     |q ws rq o log Ho|m i raw q ws rq o log Hi
                     |m i q ws rq o log Hi|m i res q ws rq o log Hi| |];
    cbn [p_main p_workers] in *; try done.
  - intros i Hi. lia.
  - intros i Hi. destruct (decide (i = k)) as [->|]; [|apply Hj; lia].
    rewrite Hk. f_equal.
    pose proof (Forall_lookup_1 _ _ _ _ Hok Hk) as [Hnr _].
    by destruct w.
  - intros i Hi. apply Hj. apply lookup_ge_None in Hk. lia.
  - destruct m; [done| |  |];
      by apply (joined_insert ws i WGet).
  - destruct m; [done| |  |];
      by apply (joined_insert ws i WGet).
  - destruct m; [done| |  |];
      by apply (joined_insert ws i (WPut res)).
Qed.

Lemma results_head_item (res : Result) (tl : list (option Result)) (ss : list Result)
    (rest : list (option Result)) :
  (∀ x, x ∈ rest → x = None) →
  Some res :: tl = (Some <$> ss) ++ rest →
  ∃ ss', ss = res :: ss' ∧ tl = (Some <$> ss') ++ rest.
Proof.
  intros Hrest. destruct ss as [|r ss]; simpl.
  - intros Heq. assert (Hin : Some res ∈ rest) by (rewrite <- Heq; left).
    apply Hrest in Hin. done.
  - intros [= -> ->]. by exists ss.
Qed.

Lemma step_inv_results records s s' :
  pipeline_inv records s → step s s' →
  match p_main s' with
  | MFeed _ | MJoin _ =>
      p_writer s' = OGet
      ∧ ∃ ss, p_results s' = Some <$> ss ∧ Forall (λ r, consume r = true) ss
  | MJoinWriter =>
      (p_writer s' = OGet
       ∧ ∃ ss, p_results s' = (Some <$> ss) ++ [None]
               ∧ Forall (λ r, consume r = true) ss)
      ∨ (p_writer s' = OReturned ∧ p_results s' = [])
  | MFinished => p_writer s' = OReturned ∧ p_results s' = []
  end.
Proof.
  intros Hinv Hstep.
  pose proof (inv_results _ _ _ _ _ Hinv) as Hr.
  pose proof (inv_joined _ _ _ _ _ Hinv) as Hj.
  pose proof (inv_workers _ _ _ _ _ Hinv) as Hlen.
  pose proof (inv_worker_ok _ _ _ _ _ Hinv) as Hok.
  destruct Hstep as [| | |k q ws rq o log Hk
                     |q ws rq o log Ho| |
                     |m i res q ws rq o log Hi|m res q ws rq log|m q ws rq log];
    cbn [p_main p_workers p_results p_writer] in *; try done.
  - destruct Hr as (-> & ss & -> & Hss). left. split; [done|]. by exists ss.
  - destruct Hr as [[-> _]|Hr]; [done|done].
  - pose proof (Forall_lookup_1 _ _ _ _ Hok Hi) as [_ Hc]. specialize (Hc res eq_refl).
    apply lookup_lt_Some in Hi as Hlt.
    destruct m.
    + destruct Hr as (-> & ss & -> & Hss). split; [done|].
      exists (ss ++ [res]). rewrite fmap_app. split; [done|].
      apply Forall_app. split; [done|]. by apply Forall_singleton.
    + destruct Hr as (-> & ss & -> & Hss). split; [done|].
      exists (ss ++ [res]). rewrite fmap_app. split; [done|].
      apply Forall_app. split; [done|]. by apply Forall_singleton.
    + rewrite Hj in Hi by lia. done.
    + rewrite Hj in Hi by lia. done.
  - destruct m.
    + destruct Hr as (_ & ss & Hrq & Hss).
      rewrite <- (app_nil_r (Some <$> ss)) in Hrq.
      apply results_head_item in Hrq as (ss' & -> & ->); [|by intros x Hx%elem_of_nil].
      apply Forall_cons in Hss as [-> Hss]. split; [done|].
      exists ss'. by rewrite app_nil_r.
    + destruct Hr as (_ & ss & Hrq & Hss).
      rewrite <- (app_nil_r (Some <$> ss)) in Hrq.
      apply results_head_item in Hrq as (ss' & -> & ->); [|by intros x Hx%elem_of_nil].
      apply Forall_cons in Hss as [-> Hss]. split; [done|].
      exists ss'. by rewrite app_nil_r.
    + destruct Hr as [(_ & ss & Hrq & Hss)|[? ?]]; [|done].
      apply results_head_item in Hrq as (ss' & -> & ->);
        [|by intros x ->%list_elem_of_singleton].
      apply Forall_cons in Hss as [-> Hss]. left. split; [done|]. by exists ss'.
    + by destruct Hr.
  - destruct m.
    + destruct Hr as (_ & ss & Hrq & _). by destruct ss.
    + destruct Hr as (_ & ss & Hrq & _). by destruct ss.
    + destruct Hr as [(_ & ss & Hrq & Hss)|[? ?]]; [|done].
      destruct ss as [|? ss]; [|done]. simpl in Hrq. injection Hrq as ->.
      by right.
    + by destruct Hr.
Qed.

Lemma put_items_snoc (log : list (Event Item Result)) (ev : Event Item Result) :
  put_items (log ++ [ev])
  = put_items log ++ match ev with EvPut x => [x] | _ => [] end.
Proof.
  unfold put_items. rewrite omap_app. f_equal. by destruct ev.
Qed.

Lemma step_inv_log_put records s s' :
  pipeline_inv records s → step s s' →
  put_items (p_log s') ++ pending (p_main s')
  = (Some <$> records) ++ replicate threads None.
Proof.
  intros Hinv Hstep. pose proof (inv_log_put _ _ _ _ _ Hinv) as Hp.
  destruct Hstep; cbn [p_main p_log pending] in *;
    rewrite put_items_snoc || idtac; cbn beta iota;
    rewrite ?app_nil_r in *; try done.
  by rewrite <- app_assoc.
Qed.

Lemma worker_returned_insert (ws : list (Worker Result)) (i k : nat) (w' : Worker Result) :
  (i < length ws)%nat →
  worker_returned (<[i := w']> ws !! k)
  = if decide (k = i) then worker_returned (Some w') else worker_returned (ws !! k).
Proof.
  intros Hi. destruct (decide (k = i)) as [->|].
  - by rewrite list_lookup_insert_eq.
  - by rewrite list_lookup_insert_ne.
Qed.

Lemma step_inv_log_get records s s' :
  pipeline_inv records s → step s s' →
  ∀ k, count_if (is_get_sentinel k) (p_log s')
       = if worker_returned (p_workers s' !! k) then 1%nat else 0%nat.
Proof.
  intros Hinv Hstep k. pose proof (inv_log_get _ _ _ _ _ Hinv k) as Hg.
  destruct Hstep as [| | | | |m i raw q ws rq o log Hi
                     |m i q ws rq o log Hi|m i res q ws rq o log Hi| |];
    cbn [p_workers p_log] in *; rewrite ?count_if_snoc; cbn [is_get_sentinel];
    try (rewrite Hg; lia).
  - apply lookup_lt_Some in Hi as Hlt. rewrite worker_returned_insert by done.
    destruct (decide (k = i)) as [->|]; [|rewrite Hg; lia].
    rewrite Hi in Hg. simpl in Hg. rewrite Hg.
    unfold worker_after_get. by destruct (work raw).
  - apply lookup_lt_Some in Hi as Hlt. rewrite worker_returned_insert by done.
    destruct (decide (k = i)) as [->|Hne].
    + rewrite Hi in Hg. simpl in Hg. rewrite Hg, Nat.eqb_refl. done.
    + rewrite Hg. apply Nat.eqb_neq in Hne. rewrite Hne. lia.
  - apply lookup_lt_Some in Hi as Hlt. rewrite worker_returned_insert by done.
    destruct (decide (k = i)) as [->|]; [|rewrite Hg; lia].
    rewrite Hi in Hg. simpl in Hg. rewrite Hg. done.
Qed.

Lemma step_inv_log_write records s s' :
  pipeline_inv records s → step s s' →
  count_if is_write_sentinel (p_log s')
  = match p_writer s' with OReturned => 1%nat | _ => 0%nat end.
Proof.
  intros Hinv Hstep. pose proof (inv_log_write _ _ _ _ _ Hinv) as Hw.
  destruct Hstep; cbn [p_writer p_log] in *; rewrite ?count_if_snoc;
    cbn [is_write_sentinel]; try (rewrite Hw; lia).
  rewrite Hw. by destruct (consume res).
Qed.

Lemma log_results_snoc (m : Main Item) (log : list (Event Item Result))
    (ev : Event Item Result) :
  is_results_sentinel ev = false →
  match m with
  | MFeed _ => count_if is_results_sentinel log = 0%nat
  | MJoin k =>
      count_if is_results_sentinel log = 0%nat
      ∧ ∀ i, (i < k)%nat → (0 < count_if (is_join i) log)%nat
  | _ =>
      ∃ l1 l2,
        log = l1 ++ EvResultsSentinel :: l2
        ∧ (∀ i, (i < threads)%nat → (0 < count_if (is_join i) l1)%nat)
        ∧ count_if is_results_sentinel l1 = 0%nat
        ∧ count_if is_results_sentinel l2 = 0%nat
  end →
  match m with
  | MFeed _ => count_if is_results_sentinel (log ++ [ev]) = 0%nat
  | MJoin k =>
      count_if is_results_sentinel (log ++ [ev]) = 0%nat
      ∧ ∀ i, (i < k)%nat → (0 < count_if (is_join i) (log ++ [ev]))%nat
  | _ =>
      ∃ l1 l2,
        log ++ [ev] = l1 ++ EvResultsSentinel :: l2
        ∧ (∀ i, (i < threads)%nat → (0 < count_if (is_join i) l1)%nat)
        ∧ count_if is_results_sentinel l1 = 0%nat
        ∧ count_if is_results_sentinel l2 = 0%nat
  end.
Proof.
  intros Hev.
  assert (Hext : ∀ l1 l2,
            log = l1 ++ EvResultsSentinel :: l2
            ∧ (∀ i, (i < threads)%nat → (0 < count_if (is_join i) l1)%nat)
            ∧ count_if is_results_sentinel l1 = 0%nat
            ∧ count_if is_results_sentinel l2 = 0%nat →
            log ++ [ev] = l1 ++ EvResultsSentinel :: (l2 ++ [ev])
            ∧ (∀ i, (i < threads)%nat → (0 < count_if (is_join i) l1)%nat)
            ∧ count_if is_results_sentinel l1 = 0%nat
            ∧ count_if is_results_sentinel (l2 ++ [ev]) = 0%nat).
  { intros l1 l2 (-> & Hjoin & H1 & H2). split_and!; [|done|done|].
    - by rewrite <- app_assoc.
    - rewrite count_if_snoc, H2, Hev. done. }
  destruct m as [it|k| |].
  - intros H. by rewrite count_if_snoc, H, Hev.
  - intros [H Hjoin]. split; [by rewrite count_if_snoc, H, Hev|].
    intros i Hi. rewrite count_if_snoc. specialize (Hjoin i Hi). lia.
  - intros (l1 & l2 & H). exists l1, (l2 ++ [ev]). by apply Hext.
  - intros (l1 & l2 & H). exists l1, (l2 ++ [ev]). by apply Hext.
Qed.

Lemma step_inv_log_results records s s' :
  pipeline_inv records s → step s s' →
  match p_main s' with
  | MFeed _ => count_if is_results_sentinel (p_log s') = 0%nat
  | MJoin k =>
      count_if is_results_sentinel (p_log s') = 0%nat
      ∧ ∀ i, (i < k)%nat → (0 < count_if (is_join i) (p_log s'))%nat
  | _ =>
      ∃ l1 l2,
        p_log s' = l1 ++ EvResultsSentinel :: l2
        ∧ (∀ i, (i < threads)%nat → (0 < count_if (is_join i) l1)%nat)
        ∧ count_if is_results_sentinel l1 = 0%nat
        ∧ count_if is_results_sentinel l2 = 0%nat
  end.
Proof.
  intros Hinv Hstep.
  pose proof (inv_log_results _ _ _ _ _ Hinv) as Hl.
  pose proof (inv_workers _ _ _ _ _ Hinv) as Hlen.
  destruct Hstep as [x rest q ws rq o log Hcap|q ws rq o log
                     |k w q ws rq o log Hk Hjoin|k q ws rq o log Hk
                     |q ws rq o log Ho|m i raw q ws rq o log Hi
                     |m i q ws rq o log Hi|m i res q ws rq o log Hi
                     |m res q ws rq log|m q ws rq log];
    cbn [p_main p_workers p_log] in *.
  - by apply (log_results_snoc (MFeed rest)).
  - split; [done|]. intros i Hi. lia.
  - destruct Hl as [Hrs Hj]. split; [by rewrite count_if_snoc, Hrs|].
    intros i Hi. rewrite count_if_snoc. cbn [is_join].
    destruct (decide (i = k)) as [->|]; [rewrite Nat.eqb_refl; lia|].
    assert (0 < count_if (is_join i) log)%nat by (apply Hj; lia). lia.
  - destruct Hl as [Hrs Hj]. exists log, []. split_and!; [done| |done|done].
    intros i Hi. apply Hj. apply lookup_ge_None in Hk. lia.
  - exact (log_results_snoc MFinished log EvJoinWriter eq_refl Hl).
  - by apply log_results_snoc.
  - by apply log_results_snoc.
  - by apply log_results_snoc.
  - by apply log_results_snoc.
  - by apply log_results_snoc.
Qed.

(** ** The invariant *)

Lemma pipeline_inv_step records s s' :
  pipeline_inv records s → step s s' → pipeline_inv records s'.
Proof.
  intros Hinv Hstep. split.
  - by eapply step_inv_workers.
  - by eapply step_inv_worker_ok.
  - by eapply step_inv_input.
  - by eapply step_inv_joined.
  - by eapply step_inv_results.
  - by eapply step_inv_log_put.
  - by eapply step_inv_log_get.
  - by eapply step_inv_log_write.
  - by eapply step_inv_log_results.
Qed.

Lemma pipeline_inv_nsteps records n s s' :
  pipeline_inv records s → nsteps step n s s' → pipeline_inv records s'.
Proof.
  intros Hinv Hsteps. induction Hsteps as [|n s1 s2 s3 Hstep _ IH]; [done|].
  apply IH. by eapply pipeline_inv_step.
Qed.

(** ** No deadlock *)

Lemma count_if_lookup {A} (p : A → bool) (l : list A) (i : nat) (x : A) :
  l !! i = Some x → p x = true → (0 < count_if p l)%nat.
Proof.
  revert i. induction l as [|y l IH]; intros i Hi Hp; [done|].
  destruct i as [|i]; simpl in *.
  - injection Hi as ->. rewrite Hp. lia.
  - specialize (IH i Hi Hp). lia.
Qed.

Lemma count_if_pos {A} (p : A → bool) (l : list A) :
  (0 < count_if p l)%nat → ∃ i x, l !! i = Some x ∧ p x = true.
Proof.
  induction l as [|y l IH]; simpl; [lia|].
  destruct (p y) eqn:Hy.
  - intros _. by exists 0%nat, y.
  - intros Hpos. destruct IH as (i & x & Hi & Hx); [lia|]. by exists (Datatypes.S i), x.
Qed.

Lemma live_worker_steps m q ws rq o log i w :
  ws !! i = Some w → worker_live w = true → q ≠ [] →
  ∃ s', step (MkPipeline m q ws rq o log) s'.
Proof.
  intros Hi Hlive Hq. destruct w as [|res| |]; [| |done|done].
  - destruct q as [|[raw|] q]; [done| |]; eexists.
    + by apply step_get_item.
    + by apply step_get_sentinel.
  - eexists. by apply step_result.
Qed.

Lemma pipeline_progress records s :
  (1 ≤ threads)%nat → pipeline_inv records s → p_main s ≠ MFinished →
  ∃ s', step s s'.
Proof.
  intros Hthreads Hinv Hmain.
  destruct (inv_input _ _ _ _ _ Hinv) as (rs & j & Hq & Hj & _ & Hfull).
  pose proof (inv_results _ _ _ _ _ Hinv) as Hr.
  destruct s as [m q ws rq o log]. cbn [p_main p_in_queue p_workers p_results
    p_writer pending] in *.
  destruct m as [[|x rest]|k| |]; [| | | |done].
  - eexists. apply step_fed.
  - destruct (decide (length q < threads)%nat) as [Hcap|Hfullq].
    { eexists. by apply step_put. }
    assert (Hjpos : (0 < j)%nat).
    { destruct Hfull as [-> | ->]; [|lia].
      simpl in Hq. apply (f_equal length) in Hq.
      rewrite length_app, length_replicate in Hq. simpl in Hq. lia. }
    rewrite Hj in Hjpos. apply count_if_pos in Hjpos as (i & w & Hi & Hw).
    apply (live_worker_steps _ _ _ _ _ _ i w); [done|done|].
    intros ->. simpl in Hfullq. lia.
  - destruct (ws !! k) as [w|] eqn:Hk.
    + destruct (worker_joinable w) eqn:Hjoin.
      { eexists. by eapply step_join. }
      assert (Hlive : worker_live w = true) by (by destruct w).
      apply (live_worker_steps _ _ _ _ _ _ k w); [done|done|].
      intros ->. pose proof (count_if_lookup worker_live ws k w Hk Hlive) as Hpos.
      rewrite <- Hj in Hpos. destruct rs; [|done]. destruct j; [lia|done].
    + eexists. by apply step_results_sentinel.
  - destruct Hr as [(-> & ss & -> & _)|[-> _]].
    + destruct ss as [|res ss]; eexists; simpl.
      * apply step_write_sentinel.
      * apply step_write.
    + eexists. by apply step_join_writer.
Qed.

(** ** The final state *)

Lemma count_if_none {A} (p : A → bool) (l : list A) :
  (∀ i x, l !! i = Some x → p x = false) → count_if p l = 0%nat.
Proof.
  induction l as [|y l IH]; intros H; [done|]. simpl.
  rewrite (H 0%nat y eq_refl). rewrite IH; [done|].
  intros i x Hi. by apply (H (Datatypes.S i)).
Qed.

Lemma pipeline_final records s :
  (1 ≤ threads)%nat → pipeline_inv records s → p_main s = MFinished →
  shutdown_complete threads records s.
Proof.
  intros Hthreads Hinv Hmain.
  pose proof (inv_workers _ _ _ _ _ Hinv) as Hlen.
  pose proof (inv_joined _ _ _ _ _ Hinv) as Hjoined.
  pose proof (inv_results _ _ _ _ _ Hinv) as Hr.
  pose proof (inv_log_put _ _ _ _ _ Hinv) as Hput.
  pose proof (inv_log_get _ _ _ _ _ Hinv) as Hget.
  pose proof (inv_log_write _ _ _ _ _ Hinv) as Hwrite.
  pose proof (inv_log_results _ _ _ _ _ Hinv) as Hlog.
  destruct (inv_input _ _ _ _ _ Hinv) as (rs & j & Hq & Hj & _ & Hfull).
  rewrite Hmain in *. cbn [pending] in *. rewrite app_nil_r in Hput, Hq.
  destruct Hr as [Hwr Hres]. rewrite Hwr in Hwrite.
  destruct Hlog as (l1 & l2 & Hl & Hjoins & H1 & H2).
  assert (Hlive : count_if worker_live (p_workers s) = 0%nat).
  { apply count_if_none. intros i x Hi.
    apply lookup_lt_Some in Hi as Hlt. rewrite Hjoined in Hi by lia.
    by injection Hi as <-. }
  unfold shutdown_complete. split_and!; try done.
  - intros i Hi. split; [by apply Hjoined|].
    rewrite Hget, Hjoined by done. done.
  - by exists l1, l2.
  - rewrite Hl, count_if_app. simpl. lia.
  - rewrite Hq. destruct Hfull as [-> | Hjt]; [|lia].
    rewrite Hj, Hlive. done.
Qed.

(** ** Some run completes the shutdown *)

Lemma pipeline_completes records s :
  (1 ≤ threads)%nat → pipeline_inv records s →
  ∃ s', rtc step s s' ∧ p_main s' = MFinished.
Proof.
  intros Hthreads. remember (pipeline_measure s) as k eqn:Hk.
  revert s Hk. induction (lt_wf k) as [k _ IH]. intros s -> Hinv.
  destruct (p_main s) as [it|j| |] eqn:Hmain.
  - destruct (pipeline_progress records s) as (s1 & Hs1); [done|done|by rewrite Hmain|].
    destruct (IH (pipeline_measure s1) (step_measure _ _ Hs1) s1 eq_refl)
      as (s' & Hrun & Hfin); [by eapply pipeline_inv_step|].
    exists s'. split; [by eapply rtc_l|done].
  - destruct (pipeline_progress records s) as (s1 & Hs1); [done|done|by rewrite Hmain|].
    destruct (IH (pipeline_measure s1) (step_measure _ _ Hs1) s1 eq_refl)
      as (s' & Hrun & Hfin); [by eapply pipeline_inv_step|].
    exists s'. split; [by eapply rtc_l|done].
  - destruct (pipeline_progress records s) as (s1 & Hs1); [done|done|by rewrite Hmain|].
    destruct (IH (pipeline_measure s1) (step_measure _ _ Hs1) s1 eq_refl)
      as (s' & Hrun & Hfin); [by eapply pipeline_inv_step|].
    exists s'. split; [by eapply rtc_l|done].
  - exists s. split; [apply rtc_refl|done].
Qed.

End PipelineProofs.

Lemma pipeline_shutdown {Item Result : Type} (work : Item → option Result)
    (consume : Result → bool) (threads : nat) (records : list Item) :
  (1 ≤ threads)%nat →
  Forall (good_item work consume) records →
  pipeline_terminates work consume threads records
  ∧ ∃ s, rtc (step work consume threads) (pipeline_init threads records) s
         ∧ p_main s = MFinished.
Proof.
  intros Hthreads Hgood.
  pose proof (pipeline_inv_init work consume threads records Hgood) as Hinit.
  split.
  - intros n s Hrun.
    pose proof (pipeline_inv_nsteps _ _ _ _ _ _ _ Hinit Hrun) as Hinv.
    split_and!.
    + apply nsteps_measure in Hrun. lia.
    + by apply (pipeline_progress work consume threads records).
    + by apply (pipeline_final work consume threads records).
  - by apply (pipeline_completes work consume threads records).
Qed.

(** ** The pipeline of the command *)

(** C10, as the code has it. For every number of workers N >= 1 and every list
    of input reads (of any length M >= 0) on which neither [_get_segments] in a
    worker nor [_write_segmented_read] in the output process raises, every
    interleaving of the processes terminates: a run has a bounded number of
    transitions, no state before the end of [main] is stuck, and when [main] has
    finished the reads and then exactly one sentinel per worker have been put on
    the input queue, every worker has got exactly one sentinel and returned,
    exactly one sentinel has been put on the results queue after the join of
    every worker, and the output process has got it and returned. Some run does
    reach the end of [main]. *)
Theorem C10_pipeline_shutdown (SEGMENTS_TAG : string)
    (from_tag : string → option SegmentInfo) (to_string : AlignedSegment → string)
    (array_element_structure : list (list string)) (fromstring : string → AlignedSegment)
    (do_simple_splitting keep_delimiters : bool) (threads : nat)
    (records : list AlignedSegment) :
  (1 ≤ threads)%nat →
  Forall (record_processed SEGMENTS_TAG from_tag to_string array_element_structure
            fromstring do_simple_splitting keep_delimiters) records →
  pipeline_terminates
    (segment_work SEGMENTS_TAG from_tag to_string)
    (segment_consume array_element_structure fromstring do_simple_splitting keep_delimiters)
    threads records
  ∧ ∃ s,
      rtc (step (segment_work SEGMENTS_TAG from_tag to_string)
                (segment_consume array_element_structure fromstring
                                 do_simple_splitting keep_delimiters) threads)
          (pipeline_init threads records) s
      ∧ p_main s = MFinished.
Proof.
  intros Hthreads Hrecords. apply pipeline_shutdown; [done|].
  eapply Forall_impl; [exact Hrecords|].
  intros read (r & n & Hget & Hwrite). exists r.
  unfold segment_work, segment_consume. by rewrite Hget, Hwrite.
Qed.

(** C10, as stated for every list of input records, fails: with one worker and
    two reads that carry no segment tag, the worker raises KeyError on the first
    read, the second read fills the input queue, and [main] blocks for ever on
    the put of the sentinel. *)
Lemma C10_counterexample :
  _get_segments example_segments_tag example_from_tag example_to_string example_bare_read
  = Raise KeyError
  ∧ nsteps (step example_work example_consume 1) 3
      (pipeline_init 1 [example_bare_read; example_bare_read]) example_stuck
  ∧ p_main example_stuck ≠ MFinished
  ∧ (∀ s', ¬ step example_work example_consume 1 example_stuck s')
  ∧ ¬ pipeline_terminates example_work example_consume 1
        [example_bare_read; example_bare_read].
Proof.
  assert (Hrun : nsteps (step example_work example_consume 1) 3
            (pipeline_init 1 [example_bare_read; example_bare_read]) example_stuck).
  { unfold pipeline_init, example_stuck. simpl fmap. simpl replicate. simpl app.
    eapply nsteps_l; [apply step_put; simpl; lia|]. simpl app.
    eapply nsteps_l; [apply (step_get_item _ _ _ _ 0); reflexivity|]. simpl app.
    eapply nsteps_l; [apply step_put; simpl; lia|]. simpl app.
    apply nsteps_O. }
  assert (Hstuck : ∀ s', ¬ step example_work example_consume 1 example_stuck s').
  { intros s' Hstep. unfold example_stuck in Hstep. inversion Hstep; subst.
    - simpl in *. lia.
    - destruct i; simplify_eq.
    - destruct i; simplify_eq. }
  split_and!; [done|done|done|done|].
  intros Hterm. destruct (Hterm 3%nat example_stuck Hrun) as (_ & Hprogress & _).
  destruct Hprogress as (s' & Hs'); [done|]. by apply (Hstuck s').
Qed.

Lemma C10_witness :
  (1 ≤ 2)%nat
  ∧ Forall (record_processed example_segments_tag example_from_tag example_to_string
              example_template_AB_YZ (λ _, example_read 20 []) true false)
           [example_annotated_read]
  ∧ pipeline_terminates example_work example_consume 2 [example_annotated_read]
  ∧ pipeline_terminates example_work example_consume 2 [].
Proof.
  assert (Hthreads : (1 ≤ 2)%nat) by lia.
  assert (Hgood : Forall (record_processed example_segments_tag example_from_tag
                            example_to_string example_template_AB_YZ
                            (λ _, example_read 20 []) true false)
                         [example_annotated_read]).
  { apply Forall_singleton. eexists _, _. split; reflexivity. }
  split; [exact Hthreads|]. split; [exact Hgood|]. split.
  - exact (proj1 (C10_pipeline_shutdown example_segments_tag example_from_tag
                    example_to_string example_template_AB_YZ (λ _, example_read 20 [])
                    true false 2 [example_annotated_read] Hthreads Hgood)).
  - exact (proj1 (C10_pipeline_shutdown example_segments_tag example_from_tag
                    example_to_string example_template_AB_YZ (λ _, example_read 20 [])
                    true false 2 [] Hthreads (Forall_nil_2 _))).
Defined.

(** * Further properties of the code *)

(** ** Reverse-complement coordinates *)

(** X1. [_transform_to_rc_coords] is its own inverse for a fixed read length,
    and it maps an inclusive span inside a read of [read_length] bases to a span
    inside the read with the same number of bases. *)
Theorem X1_transform_to_rc_coords (start_coord end_coord read_length : Z) :
  (let '(s, e) := _transform_to_rc_coords start_coord end_coord read_length in
   _transform_to_rc_coords s e read_length = (start_coord, end_coord))
  ∧ (0 ≤ start_coord → start_coord ≤ end_coord → end_coord ≤ read_length - 1 →
     let '(s, e) := _transform_to_rc_coords start_coord end_coord read_length in
     0 ≤ s ∧ s ≤ e ∧ e ≤ read_length - 1 ∧ e - s = end_coord - start_coord).
Proof.
  unfold _transform_to_rc_coords. split.
  - f_equal; lia.
  - intros. lia.
Qed.

Lemma X1_witness :
  _transform_to_rc_coords 2 4 10 = (5, 7)
  ∧ _transform_to_rc_coords 5 7 10 = (2, 4).
Proof.
  destruct (X1_transform_to_rc_coords 2 4 10) as [Hinv Hin].
  split; [reflexivity|]. exact Hinv.
Defined.

(** ** The number of worker processes *)

(** X2. On a machine with at least one processor, the number of workers that
    [main] starts is between 1 and the number of processors whatever was
    requested (also for 0, for a negative number and for the default, one less
    than the number of processors), and it is the requested number when that lies
    between 1 and the number of processors. *)
Theorem X2_main_threads (threads cpu_count : Z) :
  1 ≤ cpu_count →
  1 ≤ main_threads threads cpu_count ≤ cpu_count
  ∧ (1 ≤ threads ≤ cpu_count → main_threads threads cpu_count = threads)
  ∧ (threads ≤ 0 ∨ cpu_count < threads → main_threads threads cpu_count = cpu_count)
  ∧ main_threads (main_threads threads cpu_count) cpu_count
    = main_threads threads cpu_count.
Proof.
  intros Hcpu. unfold main_threads.
  destruct (Z.leb_spec threads 0), (Z.ltb_spec cpu_count threads); simpl;
    destruct (Z.leb_spec cpu_count 0), (Z.ltb_spec cpu_count cpu_count); simpl;
    try lia.
  all: destruct (Z.leb_spec threads 0), (Z.ltb_spec cpu_count threads); simpl; lia.
Qed.

Lemma X2_witness :
  1 ≤ 1 ∧ main_threads (1 - 1) 1 = 1 ∧ main_threads 99 8 = 8 ∧ main_threads 3 8 = 3.
Proof.
  assert (H1 : 1 ≤ 1) by lia. assert (H8 : 1 ≤ 8) by lia.
  split; [exact H1|].
  destruct (X2_main_threads (1 - 1) 1 H1) as (_ & _ & Hz & _).
  destruct (X2_main_threads 99 8 H8) as (_ & _ & Hbig & _).
  destruct (X2_main_threads 3 8 H8) as (_ & Hin & _).
  split; [apply Hz; lia|]. split; [apply Hbig; lia|apply Hin; lia].
Defined.

(** ** The number of records written by one call *)

Lemma simple_emit_length keep dl segments sd cur prev cs x :
  simple_emit keep dl segments sd cur prev = (cs, Ok x) → length cs = length sd.
Proof.
  revert cur prev cs.
  induction sd as [|[[di s] t] sd IH]; intros cur prev cs.
  - cbn [simple_emit]. by intros [= <- _].
  - cbn [simple_emit]. destruct (py_getitem dl di) as [d|e]; [|done].
    destruct (if keep then _ else _) as [cur'|e]; [|done].
    destruct (simple_emit keep dl segments sd cur' (py_join "/" d)) as [cs' r] eqn:Hrec.
    intros [= <- ->]. simpl. f_equal. by eapply IH.
Qed.

Lemma bounded_emit_length keep entries cs u :
  bounded_emit keep entries = (cs, Ok u) → py_len cs = py_sum_bool (entries.*2).
Proof.
  revert cs. induction entries as [|[l f] entries IH]; intros cs.
  - cbn [bounded_emit]. by intros [= <-].
  - cbn [bounded_emit]. destruct f.
    + destruct (bounded_element keep l) as [c|e]; [|done].
      destruct (bounded_emit keep entries) as [cs' r] eqn:Hrec.
      intros [= <- ->].
      change (py_sum_bool ((l, true) :: entries).*2) with (1 + py_sum_bool entries.*2).
      rewrite <- (IH cs' eq_refl). unfold py_len. cbn [length]. lia.
    + intros Hrec.
      change (py_sum_bool ((l, false) :: entries).*2) with (0 + py_sum_bool entries.*2).
      rewrite <- (IH cs Hrec). lia.
Qed.

Lemma write_segmented_read_calls (array_element_structure : list (list string))
    (read : AlignedSegment) (segments : list SegmentInfo)
    (do_simple_splitting keep_delimiters : bool) (calls : list ElementCall) (n : Z) :
  _write_segmented_read array_element_structure read segments
                        do_simple_splitting keep_delimiters = (calls, Ok n) →
  py_len calls = n + (if do_simple_splitting then 1 else 0).
Proof.
  unfold _write_segmented_read. destruct do_simple_splitting.
  - unfold write_segmented_read_simple.
    destruct (simple_delimiters array_element_structure) as [dl|e]; [|done].
    destruct (simple_sorted _) as [sd|e]; [|done].
    destruct (simple_emit _ _ _ _ _ _) as [cs [[cur prev]|e]] eqn:Hemit; [|done].
    destruct (get_query_sequence read) as [bases|]; [|done].
    intros [= <- <-]. apply simple_emit_length in Hemit.
    unfold py_len. rewrite length_app, Hemit. simpl. lia.
  - unfold write_segmented_read_bounded.
    set (st := bounded_scan _ _ _).
    destruct (bounded_lengths_scan (length array_element_structure)
                array_element_structure segments (bounded_init array_element_structure)
                (bounded_lengths_init _)) as (_ & Hl2 & Hl3 & _).
    fold st in Hl2, Hl3.
    destruct (bounded_emit _ _) as [cs [u|e]] eqn:Hemit; [|done].
    intros [= <- <-]. apply bounded_emit_length in Hemit.
    rewrite snd_zip in Hemit by lia. lia.
Qed.

(** X3. Whenever [_write_segmented_read] returns (whatever the template and the
    segments are), the number of records it has written is the number it returns
    in bounded-region mode, and one more than the number it returns in simple
    mode. *)
Theorem X3_records_written_vs_return (array_element_structure : list (list string))
    (read : AlignedSegment) (segments : list SegmentInfo)
    (do_simple_splitting keep_delimiters : bool) (calls : list ElementCall) (n : Z) :
  _write_segmented_read array_element_structure read segments
                        do_simple_splitting keep_delimiters = (calls, Ok n) →
  py_len calls = n + (if do_simple_splitting then 1 else 0).
Proof. apply write_segmented_read_calls. Qed.

Lemma X3_witness :
  _write_segmented_read example_template_AB_YZ (example_read 60 []) example_ABYZx
                        true false
  = ((_write_segmented_read example_template_AB_YZ (example_read 60 []) example_ABYZx
                            true false).1, Ok 1)
  ∧ py_len (_write_segmented_read example_template_AB_YZ (example_read 60 [])
                                  example_ABYZx true false).1 = 2.
Proof.
  assert (H : _write_segmented_read example_template_AB_YZ (example_read 60 [])
                example_ABYZx true false
              = ((_write_segmented_read example_template_AB_YZ (example_read 60 [])
                    example_ABYZx true false).1, Ok 1)) by reflexivity.
  split; [exact H|].
  exact (X3_records_written_vs_return _ _ _ _ _ _ _ H).
Defined.

(** ** The worker process on its own *)

Section ProcessProofs.

Variable array_element_structure : list (list string).
Variable SEGMENTS_TAG : string.
Variable to_tag : SegmentInfo → string.
Variable from_tag : string → option SegmentInfo.
Variable to_string : AlignedSegment → string.
Variable fromstring : string → AlignedSegment.

Local Abbreviation work_fn :=
  (_sub_process_work_fn SEGMENTS_TAG from_tag to_string fromstring).
Local Abbreviation decode :=
  (λ raw, _get_segments SEGMENTS_TAG from_tag to_string (fromstring raw)).
Local Abbreviation write_loop :=
  (write_fn_loop array_element_structure SEGMENTS_TAG to_tag fromstring).
Local Abbreviation records :=
  (read_records array_element_structure SEGMENTS_TAG to_tag fromstring).

Lemma work_fn_app raws results in_queue out_queue :
  Forall2 (λ raw r, decode raw = Ok r) raws results →
  work_fn ((Some <$> raws) ++ in_queue) out_queue
  = work_fn in_queue (out_queue ++ results).
Proof.
  intros H. revert out_queue.
  induction H as [|raw r raws results Hr _ IH]; intros out_queue.
  - by rewrite app_nil_r.
  - cbn [fmap list_fmap app _sub_process_work_fn]. rewrite Hr, IH.
    by rewrite <- app_assoc.
Qed.

Lemma write_segmented_read_file_from read segments simple keep bam_out :
  write_segmented_read_file array_element_structure SEGMENTS_TAG to_tag
                            read segments simple keep bam_out
  = (bam_out ++ (write_segmented_read_file array_element_structure SEGMENTS_TAG to_tag
                                           read segments simple keep []).1,
     (write_segmented_read_file array_element_structure SEGMENTS_TAG to_tag
                                read segments simple keep []).2).
Proof.
  unfold write_segmented_read_file.
  destruct (_write_segmented_read _ _ _ _ _) as [calls res].
  rewrite (write_calls_from _ _ bam_out).
  by destruct (write_calls SEGMENTS_TAG to_tag [] read calls) as [out [[]|e]].
Qed.

Lemma write_loop_app simple keep items rets out_queue out r n :
  Forall2 (λ item ret,
             (write_segmented_read_file array_element_structure SEGMENTS_TAG to_tag
                                        (fromstring item.1) item.2 simple keep []).2
             = Ok ret) items rets →
  write_loop simple keep ((Some <$> items) ++ out_queue) out r n
  = write_loop simple keep out_queue (out ++ concat (records simple keep <$> items))
               (r + py_len items) (n + py_sum rets).
Proof.
  intros H. revert out r n.
  induction H as [|[raw segs] ret items rets Hret _ IH]; intros out r n.
  - cbn [fmap list_fmap app concat py_sum foldr]. rewrite app_nil_r.
    f_equal; unfold py_len; simpl; lia.
  - cbn [fmap list_fmap app write_fn_loop]. cbn [fst snd] in Hret.
    rewrite write_segmented_read_file_from, Hret, IH.
    cbn [concat]. unfold read_records at 2. cbn [fst snd]. rewrite <- app_assoc.
    f_equal; unfold py_len, py_sum; cbn [length foldr]; lia.
Qed.

End ProcessProofs.

(** When [_write_segmented_read] returns on an output file, every call it made
    has written its record. *)
Lemma write_segmented_read_file_returns (array_element_structure : list (list string))
    (SEGMENTS_TAG : string) (to_tag : SegmentInfo → string) (read : AlignedSegment)
    (segments : list SegmentInfo) (simple keep : bool)
    (bam_out out : list AlignedSegment) (n : Z) :
  write_segmented_read_file array_element_structure SEGMENTS_TAG to_tag
                            read segments simple keep bam_out = (out, Ok n) →
  ∃ calls,
    _write_segmented_read array_element_structure read segments simple keep
    = (calls, Ok n)
    ∧ out = bam_out ++ ((λ c, split_array_element SEGMENTS_TAG to_tag c read) <$> calls).
Proof.
  unfold write_segmented_read_file.
  destruct (_write_segmented_read _ _ _ _ _) as [calls res].
  destruct (write_calls SEGMENTS_TAG to_tag bam_out read calls) as [out' [[]|e]] eqn:Hw;
    [|done].
  intros [= <- ->]. exists calls. split; [done|]. by eapply write_calls_records.
Qed.

Lemma read_records_length (array_element_structure : list (list string))
    (SEGMENTS_TAG : string) (to_tag : SegmentInfo → string)
    (fromstring : string → AlignedSegment) (simple keep : bool)
    (items : list (string * list SegmentInfo)) (rets : list Z) :
  Forall2 (λ item ret,
             (write_segmented_read_file array_element_structure SEGMENTS_TAG to_tag
                                        (fromstring item.1) item.2 simple keep []).2
             = Ok ret) items rets →
  py_len (concat (read_records array_element_structure SEGMENTS_TAG to_tag fromstring
                               simple keep <$> items))
  = py_sum rets + (if simple then py_len items else 0).
Proof.
  induction 1 as [|[raw segs] ret items rets Hret _ IH].
  - by destruct simple.
  - cbn [fmap list_fmap concat]. unfold read_records at 1. cbn [fst snd] in *.
    destruct (write_segmented_read_file _ _ _ _ _ _ _ _) as [out res] eqn:Hfile.
    cbn [fst snd] in *. subst res.
    apply write_segmented_read_file_returns in Hfile as (calls & Hcall & ->).
    apply write_segmented_read_calls in Hcall.
    unfold py_len in *. rewrite length_app. cbn [app]. rewrite length_fmap.
    unfold py_sum in *. cbn [foldr length]. destruct simple; lia.
Qed.

(** X4. The worker process handles the reads of its queue in order up to the
    first sentinel: when each read before the sentinel decodes, the process puts
    their results on the output queue in the same order behind what was there and
    returns, and it reads nothing that follows the sentinel. Without a sentinel
    after the reads it puts the same results and then waits for ever. *)
Theorem X4_work_fn_returns (SEGMENTS_TAG : string) (from_tag : string → option SegmentInfo)
    (to_string : AlignedSegment → string) (fromstring : string → AlignedSegment)
    (raws : list string) (results out_queue : list (string * list SegmentInfo))
    (rest : list (option string)) :
  Forall2 (λ raw r, _get_segments SEGMENTS_TAG from_tag to_string (fromstring raw) = Ok r)
          raws results →
  _sub_process_work_fn SEGMENTS_TAG from_tag to_string fromstring
                       ((Some <$> raws) ++ None :: rest) out_queue
  = (out_queue ++ results, Returned ())
  ∧ _sub_process_work_fn SEGMENTS_TAG from_tag to_string fromstring
                         (Some <$> raws) out_queue
    = (out_queue ++ results, Waiting).
Proof.
  intros H. split.
  - by rewrite (work_fn_app _ _ _ _ _ _ _ _ H).
  - rewrite <- (app_nil_r (Some <$> raws)). by rewrite (work_fn_app _ _ _ _ _ _ _ _ H).
Qed.

Lemma X4_witness :
  _sub_process_work_fn example_segments_tag example_from_tag example_to_string
                       example_fromstring [Some "read1"; None; Some "read2"] []
  = ([("read1", [example_segment "A" 0 9; example_segment "B" 10 19])], Returned ()).
Proof.
  refine (proj1 (X4_work_fn_returns example_segments_tag example_from_tag
                   example_to_string example_fromstring ["read1"]
                   [("read1", [example_segment "A" 0 9; example_segment "B" 10 19])]
                   [] [Some "read2"] _)).
  repeat constructor.
Defined.

(** X5. A read without the segments tag ends the worker process with KeyError:
    the results of the reads before it are on the output queue, and neither a
    later read nor a sentinel is taken from the input queue. *)
Theorem X5_work_fn_missing_tag (SEGMENTS_TAG : string)
    (from_tag : string → option SegmentInfo)
    (to_string : AlignedSegment → string) (fromstring : string → AlignedSegment)
    (raws : list string) (results out_queue : list (string * list SegmentInfo))
    (raw : string) (rest : list (option string)) :
  Forall2 (λ raw r, _get_segments SEGMENTS_TAG from_tag to_string (fromstring raw) = Ok r)
          raws results →
  tags_lookup SEGMENTS_TAG (tags (fromstring raw)) = None →
  _sub_process_work_fn SEGMENTS_TAG from_tag to_string fromstring
                       ((Some <$> raws) ++ Some raw :: rest) out_queue
  = (out_queue ++ results, Ended KeyError).
Proof.
  intros H Hraw. rewrite (work_fn_app _ _ _ _ _ _ _ _ H).
  cbn [_sub_process_work_fn]. unfold _get_segments, get_tag. by rewrite Hraw.
Qed.

Lemma X5_witness :
  _sub_process_work_fn example_segments_tag example_from_tag example_to_string
                       example_fromstring [Some "read1"; Some "read2"; None] []
  = ([("read1", [example_segment "A" 0 9; example_segment "B" 10 19])], Ended KeyError).
Proof.
  refine (X5_work_fn_missing_tag example_segments_tag example_from_tag
            example_to_string example_fromstring ["read1"]
            [("read1", [example_segment "A" 0 9; example_segment "B" 10 19])]
            [] "read2" [None] _ _).
  - repeat constructor.
  - reflexivity.
Defined.

(** ** The output process on its own *)

(** X6. When every item before the first sentinel is written without an
    exception, the output process returns with the number of reads equal to the
    number of items and the number of segments equal to the sum of the values
    that [_write_segmented_read] returned; the file holds the records of the
    items in queue order, nothing behind the sentinel is read, and the number of
    records in the file is the number of segments in bounded-region mode but the
    number of segments plus the number of reads in simple mode. *)
Theorem X6_write_fn_counts (array_element_structure : list (list string))
    (SEGMENTS_TAG : string) (to_tag : SegmentInfo → string)
    (fromstring : string → AlignedSegment) (do_simple_splitting keep_delimiters : bool)
    (items : list (string * list SegmentInfo)) (rets : list Z)
    (rest : list (option (string * list SegmentInfo))) :
  Forall2 (λ item ret,
             (write_segmented_read_file array_element_structure SEGMENTS_TAG to_tag
                                        (fromstring item.1) item.2
                                        do_simple_splitting keep_delimiters []).2
             = Ok ret)
          items rets →
  let out_bam_file :=
    concat (read_records array_element_structure SEGMENTS_TAG to_tag fromstring
                         do_simple_splitting keep_delimiters <$> items) in
  _sub_process_write_fn array_element_structure SEGMENTS_TAG to_tag fromstring
                        ((Some <$> items) ++ None :: rest)
                        do_simple_splitting keep_delimiters
  = (out_bam_file, Returned (py_len items, py_sum rets))
  ∧ py_len out_bam_file
    = py_sum rets + (if do_simple_splitting then py_len items else 0).
Proof.
  intros H out_bam_file. split.
  - unfold _sub_process_write_fn.
    by rewrite (write_loop_app _ _ _ _ _ _ _ _ _ _ _ _ H).
  - by apply read_records_length.
Qed.

Lemma X6_witness :
  ∃ out_bam_file,
    _sub_process_write_fn example_template_AB_YZ example_segments_tag example_to_tag
                          example_fromstring
                          [Some ("read1", example_ABYZx); Some ("read2", []); None]
                          true false
    = (out_bam_file, Returned (2, 1))
    ∧ py_len out_bam_file = 3.
Proof.
  eexists.
  refine (X6_write_fn_counts example_template_AB_YZ example_segments_tag example_to_tag
            example_fromstring true false
            [("read1", example_ABYZx); ("read2", [])] [1; 0] [] _).
  repeat constructor.
Defined.

(** X7. An exception of [_write_segmented_read], its own or that of a call of
    [_write_split_array_element], ends the output process: the counters are never
    reported, the file keeps the records of the items before and the records
    that the failing call wrote before it raised, and no later item is taken from
    the queue. *)
Theorem X7_write_fn_raises (array_element_structure : list (list string))
    (SEGMENTS_TAG : string) (to_tag : SegmentInfo → string)
    (fromstring : string → AlignedSegment) (do_simple_splitting keep_delimiters : bool)
    (items : list (string * list SegmentInfo)) (rets : list Z)
    (item : string * list SegmentInfo) (e : PyError)
    (rest : list (option (string * list SegmentInfo))) :
  Forall2 (λ item ret,
             (write_segmented_read_file array_element_structure SEGMENTS_TAG to_tag
                                        (fromstring item.1) item.2
                                        do_simple_splitting keep_delimiters []).2
             = Ok ret)
          items rets →
  (write_segmented_read_file array_element_structure SEGMENTS_TAG to_tag
                             (fromstring item.1) item.2
                             do_simple_splitting keep_delimiters []).2 = Raise e →
  _sub_process_write_fn array_element_structure SEGMENTS_TAG to_tag fromstring
                        ((Some <$> items) ++ Some item :: rest)
                        do_simple_splitting keep_delimiters
  = (concat (read_records array_element_structure SEGMENTS_TAG to_tag fromstring
                          do_simple_splitting keep_delimiters <$> (items ++ [item])),
     Ended e).
Proof.
  intros H He. unfold _sub_process_write_fn.
  rewrite (write_loop_app _ _ _ _ _ _ _ _ _ _ _ _ H).
  destruct item as [raw segs]. cbn [write_fn_loop fst snd] in *.
  rewrite write_segmented_read_file_from, He.
  rewrite fmap_app, concat_app. cbn [fmap list_fmap concat app].
  unfold read_records at 3. cbn [fst snd]. by rewrite app_nil_r.
Qed.

Lemma X7_witness :
  _sub_process_write_fn example_template_AB_YZ example_segments_tag example_to_tag
                        (λ raw, if String.eqb raw "read2" then example_no_qualities_read
                                else example_fromstring raw)
                        [Some ("read1", []); Some ("read2", []);
                         Some ("read3", []); None]
                        true false
  = ([split_array_element example_segments_tag example_to_tag
        {| start_coord := 0; end_coord := 59; seg_start_coord := 0; seg_end_coord := 59;
           call_segments := []; delim_name := "END"; prev_delim_name := "START" |}
        (example_fromstring "read1")],
     Ended TypeError).
Proof.
  refine (X7_write_fn_raises example_template_AB_YZ example_segments_tag example_to_tag
            (λ raw, if String.eqb raw "read2" then example_no_qualities_read
                    else example_fromstring raw)
            true false [("read1", [])] [0]
            ("read2", []) TypeError
            [Some ("read3", []); None] _ _).
  - repeat constructor.
  - reflexivity.
Defined.

(** ** Reads on which nothing matches *)

Lemma bounded_entry_step_no_match d seg :
  d ≠ [] → name seg ∉ d →
  bounded_entry_step d seg (0, [], false, 0) = (0, [], false, 0).
Proof.
  intros Hd Hseg. destruct d as [|label d]; [done|].
  unfold bounded_entry_step.
  change (py_getitem (label :: d) 0) with (Ok label). cbv beta iota zeta.
  destruct (String.eqb_spec (name seg) label) as [Heq|_].
  { exfalso. apply Hseg. rewrite Heq. apply list_elem_of_here. }
  change (negb (0 =? 0)) with false. cbv iota.
  destruct (Z.eqb_spec 0 (py_len (label :: d))) as [H0|_]; [|reflexivity].
  unfold py_len in H0. simpl in H0. lia.
Qed.

Lemma bounded_entry_run_no_match d segments :
  d ≠ [] → Forall (λ seg, name seg ∉ d) segments →
  bounded_entry_run d segments (0, [], false, 0) = (0, [], false, 0).
Proof.
  intros Hd. unfold bounded_entry_run.
  induction 1 as [|seg segments Hseg _ IH]; [done|].
  cbn [foldl]. by rewrite bounded_entry_step_no_match.
Qed.

Lemma bounded_emit_none keep entries :
  Forall (λ entry : list SegmentInfo * bool, entry.2 = false) entries →
  bounded_emit keep entries = ([], Ok ()) ∧ py_sum_bool (entries.*2) = 0.
Proof.
  induction 1 as [|[l f] entries Hf _ [IH1 IH2]]; [done|].
  simpl in Hf. subst f. cbn [bounded_emit]. split; [done|].
  change (py_sum_bool ((l, false) :: entries).*2) with (0 + py_sum_bool entries.*2). lia.
Qed.

(** X8. In bounded-region mode, when no template is empty and no segment of the
    read carries a label of any template (in particular when the read has no
    segments), the function writes nothing and returns 0. *)
Theorem X8_bounded_no_match (array_element_structure : list (list string))
    (segments : list SegmentInfo) (keep_delimiters : bool) :
  Forall (λ t, t ≠ []) array_element_structure →
  Forall (λ seg, Forall (λ t, name seg ∉ t) array_element_structure) segments →
  write_segmented_read_bounded array_element_structure segments keep_delimiters
  = ([], Ok 0).
Proof.
  intros Hne Hseg. unfold write_segmented_read_bounded.
  set (st := bounded_scan _ _ _).
  assert (Hlen : bounded_lengths (length array_element_structure) st).
  { apply bounded_lengths_scan, bounded_lengths_init. }
  assert (Hall : Forall (λ entry : list SegmentInfo * bool, entry.2 = false)
                        (zip (b_segments st) (b_found st))).
  { apply Forall_lookup. intros j [l f] Hj. simpl.
    destruct (bounded_entry_of_zip _ _ _ _ _ Hlen Hj) as (m & sc & Hw).
    destruct (bounded_scan_entry _ _ _ _ Hw) as (d & Hd & Hrun).
    rewrite bounded_entry_run_no_match in Hrun.
    - by injection Hrun.
    - by eapply (Forall_lookup_1 _ _ _ _ Hne).
    - eapply Forall_impl; [exact Hseg|]. intros seg Ht. simpl in Ht.
      by eapply (Forall_lookup_1 _ _ _ _ Ht). }
  destruct (bounded_emit_none keep_delimiters _ Hall) as [-> Hsum].
  destruct Hlen as (_ & Hl2 & Hl3 & _).
  rewrite snd_zip in Hsum by lia. by rewrite Hsum.
Qed.

Lemma X8_witness :
  write_segmented_read_bounded example_template_AB_YZ
                               [example_segment "x" 0 9; example_segment "y" 10 19] false
  = ([], Ok 0).
Proof.
  apply X8_bounded_no_match.
  - repeat constructor; done.
  - repeat constructor; cbn;
      repeat (apply not_elem_of_cons; split; [discriminate|]); apply not_elem_of_nil.
Defined.

(** X9. An empty element template makes bounded-region mode fail on every read
    that has a segment: the first segment marks the empty template complete, and
    the output loop then raises IndexError on its empty segment list. *)
Theorem X9_bounded_empty_template (array_element_structure : list (list string))
    (segments : list SegmentInfo) (keep_delimiters : bool) :
  [] ∈ array_element_structure → segments ≠ [] →
  ∃ calls,
    write_segmented_read_bounded array_element_structure segments keep_delimiters
    = (calls, Raise IndexError).
Proof.
  intros Hin Hseg. apply list_elem_of_lookup in Hin as [j Hj].
  unfold write_segmented_read_bounded. set (st := bounded_scan _ _ _).
  assert (Hw : bounded_entry st j = Some (0, [], true, 0)).
  { unfold st. rewrite bounded_entry_scan, Hj, (bounded_entry_init _ _ _ Hj).
    destruct segments as [|seg segments]; [done|]. simpl. f_equal.
    unfold bounded_entry_run. cbn [foldl].
    change (bounded_entry_step [] seg (0, [], false, 0)) with (0, [] : list SegmentInfo, true, 0).
    apply bounded_entry_run_found. }
  assert (Hz : zip (b_segments st) (b_found st) !! j = Some ([], true)).
  { unfold bounded_entry in Hw.
    destruct (b_match_matrix st !! j); [|done].
    destruct (b_segments st !! j) as [l|] eqn:Hl; [|done].
    destruct (b_found st !! j) as [f|] eqn:Hf; [|done].
    destruct (b_score st !! j); [|done].
    injection Hw as _ -> -> _.
    apply lookup_zip_with_Some. by exists [], true. }
  destruct (bounded_emit_raises keep_delimiters _ _ _ Hz) as (cs & Hcs).
  { by destruct keep_delimiters. }
  exists cs. by rewrite Hcs.
Qed.

Lemma X9_witness :
  ∃ calls, write_segmented_read_bounded [["A"; "B"]; []] example_ABYZ true
           = (calls, Raise IndexError).
Proof.
  apply X9_bounded_empty_template.
  - apply list_elem_of_further, list_elem_of_here.
  - discriminate.
Defined.






(** X11. With an empty template list, simple mode raises IndexError for every
    read before anything is written, while bounded-region mode writes nothing and
    returns 0 for every read. *)
Theorem X11_empty_structure (read : AlignedSegment) (segments : list SegmentInfo)
    (keep_delimiters : bool) :
  _write_segmented_read [] read segments true keep_delimiters = ([], Raise IndexError)
  ∧ _write_segmented_read [] read segments false keep_delimiters = ([], Ok 0).
Proof.
  split; [done|].
  unfold _write_segmented_read, write_segmented_read_bounded.
  assert (Hscan : bounded_scan [] segments (bounded_init []) = bounded_init []).
  { unfold bounded_scan. induction segments as [|seg segments IH]; [done|]. exact IH. }
  by rewrite Hscan.
Qed.

(** ** Simple mode: the elements follow one another *)

Lemma calls_chain_keep cur cur' prev calls :
  calls_chain true cur prev calls → calls_chain true cur' prev calls.
Proof. destruct calls as [|c rest]; [done|]. simpl. intros (? & ? & _ & ?). done. Qed.

Lemma simple_emit_chain keep dl segments sd cur prev cs cur' prev' last :
  simple_emit keep dl segments sd cur prev = (cs, Ok (cur', prev')) →
  start_coord last = cur' → seg_start_coord last = cur' → prev_delim_name last = prev' →
  calls_chain keep cur prev (cs ++ [last])
  ∧ ∃ c rest, cs ++ [last] = c :: rest ∧ start_coord c = cur.
Proof.
  intros Hemit Hs Hss Hp. revert cur prev cs Hemit.
  induction sd as [|[[di s] t] sd IH]; intros cur prev cs.
  - cbn [simple_emit]. intros [= <- <- <-]. cbn [app calls_chain].
    split; [split_and!; try done; congruence|]. by exists last, [].
  - cbn [simple_emit]. destruct (py_getitem dl di) as [d|e]; [|done].
    destruct (if keep then _ else _) as [next|e] eqn:Hnext; [|done].
    destruct (simple_emit keep dl segments sd next (py_join "/" d)) as [cs' r] eqn:Hrec.
    intros [= <- ->]. destruct (IH _ _ _ Hrec) as [Hchain _].
    split; [|by eexists _, _].
    cbn [app calls_chain start_coord seg_start_coord prev_delim_name seg_end_coord
         delim_name].
    split_and!; try done.
    destruct keep.
    + by eapply calls_chain_keep.
    + by injection Hnext as <-.
Qed.

(** X12. Whenever simple mode returns, the calls it made are linked by name and
    by position: the first starts at base 0 and has START as previous-delimiter
    name, each call has the delimiter name of the call before it as
    previous-delimiter name, every call has start_coord = seg_start_coord, the
    last call is the END element and ends at the last base of the read, and
    without keep-delimiters each call starts at seg_end_coord + 1 of the call
    before it, the base after the end of the filter span of that call. *)
Theorem X12_simple_elements_chain (array_element_structure : list (list string))
    (read : AlignedSegment) (segments : list SegmentInfo) (keep_delimiters : bool)
    (calls : list ElementCall) (n : Z) :
  write_segmented_read_simple array_element_structure read segments keep_delimiters
  = (calls, Ok n) →
  calls_chain keep_delimiters 0 "START" calls
  ∧ (∃ c rest, calls = c :: rest ∧ start_coord c = 0)
  ∧ (∃ init final, calls = init ++ [final]
       ∧ delim_name final = "END"
       ∧ end_coord final = py_len (query_sequence read) - 1
       ∧ seg_end_coord final = py_len (query_sequence read) - 1).
Proof.
  unfold write_segmented_read_simple.
  destruct (simple_delimiters array_element_structure) as [dl|e]; [|done].
  destruct (simple_sorted _) as [sd|e]; [|done].
  destruct (simple_emit _ _ _ _ _ _) as [cs [[cur prev]|e]] eqn:Hemit; [|done].
  destruct (get_query_sequence read) as [bases|] eqn:Hbases; [|done].
  assert (bases = query_sequence read) as ->.
  { unfold get_query_sequence in Hbases. by destruct (query_sequence read); simplify_eq. }
  intros [= <- <-].
  set (final := {| start_coord := cur; delim_name := "END"; prev_delim_name := prev |}).
  destruct (simple_emit_chain _ _ _ _ _ _ _ _ _ final Hemit) as [Hchain Hfirst];
    [done|done|done|].
  split_and!; [exact Hchain|exact Hfirst|by exists cs, final].
Qed.

Lemma X12_witness :
  let calls := (write_segmented_read_simple example_template_AB_YZ (example_read 50 [])
                                            example_ABYZx false).1 in
  write_segmented_read_simple example_template_AB_YZ (example_read 50 [])
                              example_ABYZx false = (calls, Ok 1)
  ∧ calls_chain false 0 "START" calls.
Proof.
  intros calls. split; [reflexivity|].
  apply (X12_simple_elements_chain example_template_AB_YZ (example_read 50 [])
           example_ABYZx false calls 1 eq_refl).
Defined.

(** ** Bounded mode: the labels of the captured segments *)

Lemma peek_ahead_search_found d seg m peeks p :
  peek_ahead_search d seg m peeks = Ok (Some p) →
  p ∈ peeks ∧ py_getitem d (m + p) = Ok (name seg).
Proof.
  induction peeks as [|q peeks IH]; [done|].
  cbn [peek_ahead_search].
  destruct (py_getitem d (m + q)) as [label|e] eqn:Hget; [|done]. cbn [py_bind].
  destruct (String.eqb_spec (name seg) label) as [Heq|_].
  - intros [= <-]. split; [apply list_elem_of_here|]. by rewrite Heq.
  - intros H. destruct (IH H) as [Hin Hp]. split; [|done].
    by apply list_elem_of_further.
Qed.

Lemma head_snoc_keep {A} (l : list A) (x : A) (o : A) :
  head l = Some o → head (l ++ [x]) = Some o.
Proof. by destruct l. Qed.

Lemma bounded_entry_labels_step d seg w :
  1 ≤ py_len d → bounded_entry_labels d w →
  bounded_entry_labels d (bounded_entry_step d seg w).
Proof.
  intros Hd. destruct w as [[[m l] f] sc].
  unfold bounded_entry_step. destruct f; [done|].
  intros (Hm & Hnf & Hf & Hsub & Hzero & Hends).
  specialize (Hnf eq_refl).
  destruct (py_getitem_in_range d m) as (label & -> & Hlabel); [lia|].
  assert (Hreset : bounded_entry_labels d
                     (0, [], if 0 =? py_len d then true else false, 0)).
  { unfold bounded_entry_labels. destruct (Z.eqb_spec 0 (py_len d)); [lia|].
    split_and!; try done; try lia; apply sublist_nil_l. }
  assert (Hcapture : ∀ k sc',
            m ≤ k < py_len d → (m < k → 1 ≤ m) → d !! Z.to_nat k = Some (name seg) →
            bounded_entry_labels d
              (k + 1, l ++ [seg], if k + 1 =? py_len d then true else false, sc')).
  { intros k sc' Hk Hpos Hname. unfold bounded_entry_labels.
    assert (Hflag : (if k + 1 =? py_len d then true else false) = true
                    ↔ k + 1 = py_len d).
    { destruct (Z.eqb_spec (k + 1) (py_len d)); split; done. }
    split_and!.
    - lia.
    - lia.
    - intros Hfalse. destruct (Z.eqb_spec (k + 1) (py_len d)); [done|lia].
    - by intros ?%Hflag.
    - rewrite fmap_app. replace (Z.to_nat (k + 1)) with (S (Z.to_nat k)) by lia.
      rewrite (take_S_r _ _ _ Hname). apply sublist_app; [|done].
      etrans; [exact Hsub|].
      replace (take (Z.to_nat m) d)
        with (take (Z.to_nat m) (take (Z.to_nat k) d)).
      + apply sublist_take.
      + rewrite take_take. f_equal. lia.
    - lia.
    - intros _. rewrite fmap_app. cbn [fmap list_fmap].
      replace (k + 1 - 1) with k by lia. split; [|by rewrite last_snoc].
      destruct (Z.eq_dec m 0) as [Hm0|Hm0].
      + rewrite (Hzero Hm0). cbn [fmap list_fmap app head].
        assert (k = 0) as -> by lia. by rewrite head_lookup.
      + destruct Hends as [Hhead _]; [lia|].
        destruct (head d) as [o|] eqn:Ho.
        * by apply head_snoc_keep.
        * destruct d; [|done]. unfold py_len in Hd. simpl in Hd. lia. }
  cbv beta iota zeta.
  destruct (String.eqb_spec (name seg) label) as [Heq|_].
  - apply Hcapture; [lia|lia|by rewrite Heq].
  - destruct (Z.eqb_spec m 0) as [->|Hm0]; cbn [negb]; [exact Hreset|].
    destruct (peek_ahead_search d seg m (py_range 1 (py_len d - m)))
      as [[p|]|e] eqn:Hpeek; [| exact Hreset |].
    + apply peek_ahead_search_found in Hpeek as [Hin Hget].
      apply elem_of_py_range in Hin.
      apply py_getitem_Ok_lookup in Hget.
      destruct (Z.ltb_spec (m + p) 0); [lia|].
      replace (m + (1 + p)) with (m + p + 1) by lia.
      apply Hcapture; [lia|lia|done].
    + destruct (peek_ahead_search_ok d seg m (py_range 1 (py_len d - m)))
        as (r & Hr & _).
      { apply Forall_forall. intros q Hq%elem_of_py_range. lia. }
      congruence.
Qed.

Lemma bounded_entry_labels_run d segments w :
  1 ≤ py_len d → bounded_entry_labels d w →
  bounded_entry_labels d (bounded_entry_run d segments w).
Proof.
  intros Hd. unfold bounded_entry_run. revert w.
  induction segments as [|seg segments IH]; intros w Hw; [done|].
  cbn [foldl]. by apply IH, bounded_entry_labels_step.
Qed.

Lemma bounded_element_names keep l c :
  bounded_element keep l = Ok c →
  call_segments c = l
  ∧ head (name <$> l) = Some (prev_delim_name c)
  ∧ last (name <$> l) = Some (delim_name c).
Proof.
  unfold bounded_element.
  destruct (py_getitem l 0) as [x0|] eqn:H0; [|done].
  destruct (py_getitem l (-1)) as [x1|] eqn:H1; [|done].
  cbn [py_bind].
  apply py_getitem_Ok_lookup in H0, H1. simpl in H0.
  change (-1 <? 0) with true in H1. cbv iota in H1.
  assert (Hhead : head (name <$> l) = Some (name x0)).
  { change (l !! 0%nat = Some x0) in H0. by rewrite head_lookup, list_lookup_fmap, H0. }
  assert (Hlast : last (name <$> l) = Some (name x1)).
  { rewrite last_lookup, list_lookup_fmap, length_fmap.
    replace (pred (length l)) with (Z.to_nat (-1 + py_len l)); [by rewrite H1|].
    unfold py_len. lia. }
  destruct keep; cbn [py_bind].
  - by intros [= <-].
  - destruct (py_getitem l 1); [|done]. destruct (py_getitem l (-2)); [|done].
    cbn [py_bind]. by intros [= <-].
Qed.

(** X13. In bounded-region mode with no empty template, every element written
    belongs to a template of the structure: the labels of the segments stored in
    the element occur in the template in the same order (labels may be skipped,
    none is repeated or out of order), the element is named after the first
    label of the template as previous delimiter and after its last label as
    delimiter. This holds for the elements written before an exception too. *)
Theorem X13_bounded_element_labels (array_element_structure : list (list string))
    (segments : list SegmentInfo) (keep_delimiters : bool) :
  Forall (λ t, t ≠ []) array_element_structure →
  Forall (λ c, ∃ t, t ∈ array_element_structure
                    ∧ (name <$> call_segments c) `sublist_of` t
                    ∧ head t = Some (prev_delim_name c)
                    ∧ last t = Some (delim_name c))
         (write_segmented_read_bounded array_element_structure segments
                                       keep_delimiters).1.
Proof.
  intros Hne. unfold write_segmented_read_bounded.
  set (st := bounded_scan _ _ _).
  assert (Hlen : bounded_lengths (length array_element_structure) st).
  { apply bounded_lengths_scan, bounded_lengths_init. }
  assert (Hcalls : ∀ P, Forall P (bounded_emit keep_delimiters
                                    (zip (b_segments st) (b_found st))).1 →
            Forall P (match bounded_emit keep_delimiters
                              (zip (b_segments st) (b_found st)) with
                      | (cs, Raise e) => (cs, Raise e)
                      | (cs, Ok _) => (cs, Ok (py_sum_bool (b_found st)))
                      end).1).
  { intros P. by destruct (bounded_emit _ _) as [cs [u|e]]. }
  apply Hcalls, bounded_emit_Forall. intros l c Hin Hc.
  apply list_elem_of_lookup in Hin as [j Hj].
  destruct (bounded_entry_of_zip _ _ _ _ _ Hlen Hj) as (m & sc & Hw).
  destruct (bounded_scan_entry _ _ _ _ Hw) as (d & Hd & Hrun).
  assert (Hd1 : 1 ≤ py_len d).
  { pose proof (Forall_lookup_1 _ _ _ _ Hne Hd) as Hd0.
    destruct d; [done|]. unfold py_len. simpl. lia. }
  assert (Hlab : bounded_entry_labels d (m, l, true, sc)).
  { rewrite Hrun. apply bounded_entry_labels_run; [done|].
    unfold bounded_entry_labels. split_and!; try done; try lia; apply sublist_nil_l. }
  destruct Hlab as (_ & _ & Hm & Hsub & _ & Hends).
  specialize (Hm eq_refl). destruct Hends as [Hhead Hlast]; [lia|].
  destruct (bounded_element_names _ _ _ Hc) as (Hsegs & Hprev & Hdelim).
  exists d. split_and!.
  - by eapply list_elem_of_lookup_2.
  - rewrite Hsegs. rewrite take_ge in Hsub; [done|]. unfold py_len in Hm. lia.
  - by rewrite <- Hhead.
  - rewrite last_lookup, <- Hdelim, Hlast. f_equal. unfold py_len in *. lia.
Qed.

Lemma X13_witness :
  Forall (λ c, ∃ t, t ∈ example_template_L123
                    ∧ (name <$> call_segments c) `sublist_of` t
                    ∧ head t = Some (prev_delim_name c)
                    ∧ last t = Some (delim_name c))
         (write_segmented_read_bounded example_template_L123 example_L1_L3 true).1.
Proof.
  apply X13_bounded_element_labels. repeat constructor; done.
Defined.

(** ** Reading back a record that the command wrote *)

Lemma contains_char_app c s1 s2 :
  contains_char c (s1 +:+ s2) = contains_char c s1 || contains_char c s2.
Proof.
  induction s1 as [|c1 s1 IH]; [done|].
  change (String c1 s1 +:+ s2) with (String c1 (s1 +:+ s2)).
  cbn [contains_char]. by rewrite IH, orb_assoc.
Qed.

Lemma contains_char_join c sep tokens :
  contains_char c sep = false →
  Forall (λ t, contains_char c t = false) tokens →
  contains_char c (py_join sep tokens) = false.
Proof.
  intros Hsep. induction 1 as [|t tokens Ht Hrest IH]; [done|].
  destruct tokens as [|t' tokens]; [done|].
  change (py_join sep (t :: t' :: tokens))
    with (t +:+ sep +:+ py_join sep (t' :: tokens)).
  by rewrite !contains_char_app, Ht, Hsep, IH.
Qed.

(** X14. The command does not read back its own output as it wrote it: a record
    is written with the tags of its segments joined by ",", and [_get_segments]
    splits the tag at "|". So when no tag of a stored segment contains "|", the
    whole joined list reaches [SegmentInfo.from_tag] as one token, and the decoder
    returns at most one segment however many the record stores. *)
Theorem X14_written_record_decoding (SEGMENTS_TAG : string)
    (to_tag : SegmentInfo → string) (from_tag : string → option SegmentInfo)
    (to_string : AlignedSegment → string) (c : ElementCall) (read : AlignedSegment) :
  let a := split_array_element SEGMENTS_TAG to_tag c read in
  let kept := filter (λ s, seg_start_coord c ≤ start s ∧ start s ≤ seg_end_coord c)
                     (call_segments c) in
  Forall (λ s, contains_char "|" (to_tag s) = false) kept →
  _get_segments SEGMENTS_TAG from_tag to_string a
  = match from_tag (py_join "," (to_tag <$> kept)) with
    | Some seg => Ok (to_string a, [seg])
    | None => Raise TagFormatError
    end
  ∧ ∀ s segs, _get_segments SEGMENTS_TAG from_tag to_string a = Ok (s, segs) →
              py_len segs = 1.
Proof.
  intros a kept Hfree.
  assert (Hrun : _get_segments SEGMENTS_TAG from_tag to_string a
                 = match from_tag (py_join "," (to_tag <$> kept)) with
                   | Some seg => Ok (to_string a, [seg])
                   | None => Raise TagFormatError
                   end).
  { unfold _get_segments, get_tag, a. cbn [tags split_array_element].
    rewrite tags_lookup_set_tag_eq. cbn [py_bind]. fold kept.
    rewrite py_split_token.
    - cbn [py_map_m py_bind]. by destruct (from_tag _).
    - apply contains_char_join; [done|]. by apply Forall_fmap. }
  split; [exact Hrun|]. intros s segs. rewrite Hrun.
  destruct (from_tag _); [|done]. by intros [= _ <-].
Qed.

Lemma X14_witness :
  _get_segments example_segments_tag example_from_tag example_to_string
    (split_array_element example_segments_tag example_to_tag example_call
                         (example_read 60 []))
  = Raise TagFormatError.
Proof.
  refine (proj1 (X14_written_record_decoding example_segments_tag example_to_tag
                   example_from_tag example_to_string example_call
                   (example_read 60 []) _)).
  repeat constructor.
Defined.

(** ** Bounds on the number returned *)

Lemma py_sum_bool_bounds (l : list bool) : 0 ≤ py_sum_bool l ≤ py_len l.
Proof.
  induction l as [|b l IH]; [done|].
  change (py_sum_bool (b :: l)) with ((if b then 1 else 0) + py_sum_bool l).
  unfold py_len in *. cbn [length]. destruct b; lia.
Qed.

Lemma simple_delimiters_length structure dl :
  simple_delimiters structure = Ok dl →
  py_len dl = Z.max 1 (py_len structure - 1).
Proof.
  destruct structure as [|t0 rest]; [done|].
  rewrite simple_delimiters_cons. intros [= <-].
  destruct rest as [|t1 more]; [done|].
  unfold py_len. cbn [length]. rewrite length_fmap. lia.
Qed.

(** X15. The number that [_write_segmented_read] returns is never negative and
    never more than the number of places it looks for: the number of templates in
    bounded-region mode, and in simple mode the number of delimiter windows, which
    is one less than the number of templates (and 1 for a single template). *)
Theorem X15_return_bounds (array_element_structure : list (list string))
    (read : AlignedSegment) (segments : list SegmentInfo)
    (do_simple_splitting keep_delimiters : bool) (calls : list ElementCall) (n : Z) :
  _write_segmented_read array_element_structure read segments
                        do_simple_splitting keep_delimiters = (calls, Ok n) →
  0 ≤ n ≤ (if do_simple_splitting then Z.max 1 (py_len array_element_structure - 1)
           else py_len array_element_structure).
Proof.
  unfold _write_segmented_read. destruct do_simple_splitting.
  - unfold write_segmented_read_simple.
    destruct (simple_delimiters array_element_structure) as [dl|e] eqn:Hdl; [|done].
    apply simple_delimiters_length in Hdl. rewrite <- Hdl.
    destruct (simple_sorted_ok dl segments) as (sorted & Hsorted & _ & Hlen).
    rewrite Hsorted.
    destruct (simple_emit _ _ _ _ _ _) as [cs [[cur prev]|e]]; [|done].
    destruct (get_query_sequence read) as [bases|]; [|done].
    intros [= _ <-].
    destruct (simple_lengths_scan (length dl) dl segments (simple_init dl)
                (simple_lengths_init dl)) as (_ & _ & H3).
    pose proof (length_filter (λ e, is_Some e)
                  (s_end_segment_tuples (simple_scan dl segments (simple_init dl)))).
    unfold py_len. lia.
  - unfold write_segmented_read_bounded. set (st := bounded_scan _ _ _).
    destruct (bounded_lengths_scan (length array_element_structure)
                array_element_structure segments (bounded_init array_element_structure)
                (bounded_lengths_init _)) as (_ & _ & Hl3 & _).
    fold st in Hl3.
    destruct (bounded_emit _ _) as [cs [u|e]]; [|done].
    intros [= _ <-]. pose proof (py_sum_bool_bounds (b_found st)).
    unfold py_len in *. lia.
Qed.

Lemma X15_witness :
  0 ≤ 1 ≤ Z.max 1 (py_len example_template_AB_YZ - 1).
Proof.
  exact (X15_return_bounds example_template_AB_YZ (example_read 50 []) example_ABYZx
           true false _ 1 eq_refl).
Defined.

(** ** Coordinate containment *)

Lemma py_slice_length_max {A} (l : list A) (a b : Z) :
  0 ≤ a → -1 ≤ b → b + 1 ≤ py_len l →
  py_len (py_slice l (Some a) (Some (b + 1))) = Z.max 0 (b - a + 1).
Proof.
  intros Ha Hb Hlen. unfold py_slice.
  set (n := py_len l) in *. assert (0 ≤ n) by (unfold n, py_len; lia).
  assert (Hlo : py_clamp n a = Z.min n a).
  { unfold py_clamp. destruct (Z.ltb_spec a 0); lia. }
  assert (Hhi : py_clamp n (b + 1) = b + 1).
  { unfold py_clamp. destruct (Z.ltb_spec (b + 1) 0); lia. }
  rewrite Hlo, Hhi. unfold py_len. rewrite length_take, length_drop.
  unfold n, py_len in *. lia.
Qed.

Lemma simple_emit_bounds n keep dl segments sd cur prev :
  Forall (λ b, boundary_ok dl b ∧ boundary_coords n b) sd →
  0 ≤ cur →
  Forall (λ c, 0 ≤ start_coord c ∧ -1 ≤ end_coord c ∧ end_coord c ≤ n - 1)
         (simple_emit keep dl segments sd cur prev).1
  ∧ 0 ≤ last_boundary_index keep sd cur.
Proof.
  intros Hsd. revert cur prev.
  induction Hsd as [|[[di s] [a e]] sd [[Hdi Ha] Hco] _ IH]; intros cur prev Hcur.
  - simpl. by split.
  - simpl in Hdi, Ha. subst a. unfold boundary_coords in Hco. simpl in Hco.
    cbn [simple_emit].
    destruct (py_getitem_in_range dl di Hdi) as (d & -> & _). cbn [fst snd].
    set (next := if keep then start s else end_ e + 1).
    assert (Hnext : (if keep then Ok (start s) else Ok (end_ e + 1)) = Ok next).
    { unfold next. by destruct keep. }
    rewrite Hnext.
    destruct (IH next (py_join "/" d)) as (Hcs & Hlo).
    { unfold next. destruct keep; lia. }
    destruct (simple_emit keep dl segments sd next (py_join "/" d)) as [cs r].
    assert (last_boundary_index keep ((di, s, (Some s, e)) :: sd) cur
            = last_boundary_index keep sd next) as ->.
    { unfold last_boundary_index, next.
      destruct sd as [|b sd]; [done|]. rewrite last_cons_cons.
      destruct (last (b :: sd)) eqn:E; [done|]. by apply last_None in E. }
    split; [|done]. simpl. constructor; [|done].
    simpl. destruct keep; lia.
Qed.

Lemma bounded_element_bounds n keep l c :
  ordered_from 0 l →
  Forall (λ s, end_ s ≤ n - 1) l →
  bounded_element keep l = Ok c →
  0 ≤ start_coord c ∧ -1 ≤ end_coord c ∧ end_coord c ≤ n - 1
  ∧ (keep = true → start_coord c ≤ end_coord c).
Proof.
  intros Hord Hn. unfold bounded_element.
  destruct (py_getitem l 0) as [x0|] eqn:H0; [|done].
  destruct (py_getitem l (-1)) as [x1|] eqn:H1; [|done].
  cbn [py_bind].
  apply py_getitem_Ok_lookup in H0, H1. simpl in H0.
  change (-1 <? 0) with true in H1. cbv iota in H1.
  assert (Hin : ∀ i x, l !! i = Some x → 0 ≤ start x ∧ start x ≤ end_ x ∧ end_ x ≤ n - 1).
  { intros i x Hx.
    destruct (ordered_from_lookup 0 l i i x x Hord Hx Hx) as (? & ? & _); [lia|].
    pose proof (Forall_lookup_1 _ _ _ _ Hn Hx) as Hxn. simpl in Hxn. lia. }
  destruct keep; cbn [py_bind].
  - intros [= <-]. simpl.
    destruct (ordered_from_lookup 0 l _ _ x0 x1 Hord H0 H1) as (? & ? & ? & _); [lia|].
    destruct (Hin _ _ H1) as (? & ? & ?). split_and!; lia.
  - destruct (py_getitem l 1) as [y0|] eqn:H2; [|done].
    destruct (py_getitem l (-2)) as [y1|] eqn:H3; [|done].
    cbn [py_bind]. intros [= <-]. simpl.
    apply py_getitem_Ok_lookup in H2, H3.
    destruct (Hin _ _ H2) as (? & ? & ?). destruct (Hin _ _ H3) as (? & ? & ?).
    split_and!; try lia; done.
Qed.

Lemma element_bounds_intro (SEGMENTS_TAG : string) (to_tag : SegmentInfo → string)
    (read : AlignedSegment) (keep : bool) (c : ElementCall) :
  0 ≤ start_coord c → -1 ≤ end_coord c →
  end_coord c ≤ py_len (query_sequence read) - 1 →
  (keep = true → start_coord c ≤ end_coord c) →
  element_bounds SEGMENTS_TAG to_tag read keep c.
Proof.
  intros. unfold element_bounds. split_and!; try done.
  unfold split_array_element, element_bases. cbn [query_sequence].
  apply py_slice_length_max; lia.
Qed.

(** C2, as the code has it. For every read whose segments lie inside the read,
    in read order and without overlap, in both splitting modes and with both
    settings of keep-delimiters, every call made satisfies 0 <= start_coord and
    -1 <= end_coord <= len(sequence)-1, and its record has max(0, end_coord -
    start_coord + 1) bases, which is end_coord - start_coord + 1 unless the end is
    more than one base before the start. With keep-delimiters every call satisfies
    in addition start_coord <= end_coord, so that the containment 0 <= start_coord
    <= end_coord <= len(sequence)-1 and the number of bases end_coord - start_coord
    + 1 hold as stated. *)
Theorem C2_containment (SEGMENTS_TAG : string)
    (to_tag : SegmentInfo → string) (array_element_structure : list (list string))
    (read : AlignedSegment) (segments : list SegmentInfo) (do_simple_splitting : bool) :
  well_formed_segments (py_len (query_sequence read)) segments →
  (∀ keep_delimiters c,
     c ∈ (_write_segmented_read array_element_structure read segments
            do_simple_splitting keep_delimiters).1 →
     element_bounds SEGMENTS_TAG to_tag read keep_delimiters c)
  ∧ containment_spec SEGMENTS_TAG to_tag array_element_structure read segments
                     do_simple_splitting true.
Proof.
  intros Hwf. set (n := py_len (query_sequence read)) in *.
  assert (Hall : ∀ keep,
            Forall (λ c, 0 ≤ start_coord c ∧ -1 ≤ end_coord c ∧ end_coord c ≤ n - 1
                         ∧ (keep = true → start_coord c ≤ end_coord c))
                   (_write_segmented_read array_element_structure read segments
                      do_simple_splitting keep).1).
  { intros keep. unfold _write_segmented_read. destruct do_simple_splitting.
    - unfold write_segmented_read_simple.
      destruct (simple_delimiters array_element_structure) as [dl|]; [|constructor].
      destruct (simple_sorted_coords n dl segments Hwf) as (sorted & -> & Hsd & Hsorted).
      destruct (simple_emit_bounds n keep dl segments sorted 0 "START" Hsd)
        as (Hcs & Hlo); [lia|].
      destruct (simple_emit_ok keep dl segments sorted 0 "START")
        as (cs & prev' & Hemit & _).
      { eapply Forall_impl; [exact Hsd|]. by intros b [? _]. }
      rewrite Hemit in Hcs |- *. cbn [fst] in Hcs.
      assert (Hkeep : keep = true → 1 ≤ n →
                Forall (element_contained read) cs
                ∧ last_boundary_index true sorted 0 ≤ n - 1).
      { intros -> Hn.
        destruct (simple_emit_contained dl segments read sorted 0 "START")
          as (Hc & _ & Hhi); [done|done|lia|fold n; lia| |].
        { eapply Forall_impl; [exact Hsd|]. intros b [_ (? & _)]. done. }
        rewrite Hemit in Hc. by split. }
      assert (Hcs' : Forall (λ c, 0 ≤ start_coord c ∧ -1 ≤ end_coord c
                                  ∧ end_coord c ≤ n - 1
                                  ∧ (keep = true → start_coord c ≤ end_coord c)) cs).
      { apply Forall_forall. intros c Hc.
        pose proof (proj1 (Forall_forall _ _) Hcs c Hc) as (? & ? & ?).
        split_and!; try done. intros Hk.
        assert (Hn : 1 ≤ n).
        { destruct sorted as [|b sorted].
          - assert (cs = []) as -> by (cbn [simple_emit] in Hemit; congruence).
            by apply elem_of_nil in Hc.
          - apply Forall_cons in Hsd as [[_ Hb] _]. unfold boundary_coords in Hb. lia. }
        destruct (Hkeep Hk Hn) as [Hcont _].
        by destruct (proj1 (Forall_forall _ _) Hcont c Hc) as (_ & ? & _). }
      destruct (get_query_sequence read) as [bases|] eqn:Hbases; cbn [fst]; [|done].
      assert (bases = query_sequence read ∧ 1 ≤ n) as [-> Hn].
      { unfold get_query_sequence in Hbases. unfold n, py_len.
        destruct (query_sequence read); simplify_eq. split; [done|]. simpl. lia. }
      apply Forall_app. split; [done|]. apply Forall_singleton. cbn.
      fold n. split_and!; try lia. intros Hk.
      destruct (Hkeep Hk Hn) as [_ Hhi]. by subst keep.
    - unfold write_segmented_read_bounded.
      set (st := bounded_scan _ _ _).
      assert (Hcalls : Forall (λ c, 0 ≤ start_coord c ∧ -1 ≤ end_coord c
                                    ∧ end_coord c ≤ n - 1
                                    ∧ (keep = true → start_coord c ≤ end_coord c))
                (bounded_emit keep (zip (b_segments st) (b_found st))).1).
      { apply bounded_emit_Forall. intros l c Hin Hc.
        apply list_elem_of_lookup in Hin as [j Hj].
        assert (Hlen : bounded_lengths (length array_element_structure) st).
        { apply bounded_lengths_scan, bounded_lengths_init. }
        destruct (bounded_entry_of_zip _ _ _ _ _ Hlen Hj) as (m & sc & Hw).
        destruct (bounded_scan_ordered _ _ _ _ _ _ _ _ Hwf Hw) as [Hord Hn].
        by apply (bounded_element_bounds n keep l). }
      destruct (bounded_emit keep (zip (b_segments st) (b_found st))) as [cs [[]|e]];
        done. }
  assert (Hbounds : ∀ keep c,
            c ∈ (_write_segmented_read array_element_structure read segments
                   do_simple_splitting keep).1 →
            element_bounds SEGMENTS_TAG to_tag read keep c).
  { intros keep c Hc.
    destruct (proj1 (Forall_forall _ _) (Hall keep) c Hc) as (? & ? & ? & ?).
    by apply element_bounds_intro. }
  split; [exact Hbounds|].
  intros c Hc. destruct (Hbounds true c Hc) as (? & ? & ? & Hle & Hlen).
  specialize (Hle eq_refl). split; [by split_and!|]. rewrite Hlen. lia.
Qed.

(** C2, as stated for both settings of keep-delimiters, fails without
    keep-delimiters on reads whose segments are in order inside the read. In
    simple mode, when the window starts at the first base, the first element has
    start_coord 0 and end_coord -1. In bounded-region mode, a template completed
    with two captured segments gives an element with start_coord 20 and end_coord
    9, whose record has no bases, not 9 - 20 + 1. *)
Lemma C2_counterexample :
  well_formed_segments (py_len (query_sequence (example_read 50 []))) example_ABYZx
  ∧ ¬ containment_spec example_segments_tag example_to_tag example_template_AB_YZ
        (example_read 50 []) example_ABYZx true false
  ∧ well_formed_segments (py_len (query_sequence (example_read 30 []))) example_L1_L3
  ∧ (∃ c, c ∈ (_write_segmented_read example_template_L123 (example_read 30 [])
                 example_L1_L3 false false).1
          ∧ start_coord c = 20 ∧ end_coord c = 9
          ∧ py_len (query_sequence (split_array_element example_segments_tag
                                      example_to_tag c (example_read 30 []))) = 0)
  ∧ ¬ containment_spec example_segments_tag example_to_tag example_template_L123
        (example_read 30 []) example_L1_L3 false false.
Proof.
  assert (Hwf1 : well_formed_segments (py_len (query_sequence (example_read 50 [])))
                   example_ABYZx).
  { split; [simpl; lia|]. unfold example_ABYZx.
    repeat (apply Forall_cons; split; [vm_compute; congruence|]). constructor. }
  assert (Hwf2 : well_formed_segments (py_len (query_sequence (example_read 30 [])))
                   example_L1_L3).
  { split; [simpl; lia|]. unfold example_L1_L3.
    repeat (apply Forall_cons; split; [vm_compute; congruence|]). constructor. }
  split_and!; [exact Hwf1| |exact Hwf2| |].
  - intros Hspec.
    destruct (Hspec {| start_coord := 0; end_coord := -1;
                       seg_start_coord := 0; seg_end_coord := 39;
                       call_segments := example_ABYZx;
                       delim_name := "A/B/Y/Z"; prev_delim_name := "START" |})
      as [(_ & Hle & _) _].
    + vm_compute. left.
    + simpl in Hle. lia.
  - eexists. split; [vm_compute; left|]. by split_and!.
  - intros Hspec.
    destruct (Hspec {| start_coord := 20; end_coord := 9;
                       seg_start_coord := 0; seg_end_coord := 29;
                       call_segments := example_L1_L3;
                       delim_name := "L3"; prev_delim_name := "L1" |})
      as [(_ & Hle & _) _].
    + vm_compute. left.
    + simpl in Hle. lia.
Qed.

Lemma C2_witness :
  well_formed_segments (py_len (query_sequence (example_read 50 []))) example_ABYZx
  ∧ (∀ c, c ∈ (_write_segmented_read example_template_AB_YZ (example_read 50 [])
                 example_ABYZx true false).1 →
          element_bounds example_segments_tag example_to_tag (example_read 50 []) false c)
  ∧ containment_spec example_segments_tag example_to_tag example_template_AB_YZ
      (example_read 50 []) example_ABYZx true true.
Proof.
  split; [exact example_ABYZx_well_formed|].
  destruct (C2_containment example_segments_tag example_to_tag
              example_template_AB_YZ (example_read 50 []) example_ABYZx true
              example_ABYZx_well_formed) as [Hbounds Hspec].
  split; [exact (Hbounds false)|exact Hspec].
Defined.
